(** * resist: resistor colour-band detection and decoding

    A shallow embedding of [resit.py] (the detection pipeline and the
    command-line decoder) and of the decoding part of [app.py] (the
    [/analyze] endpoint), followed by the properties of the
    natural-language specification.

    Layout:
    - [Py]      the Python values and built-ins the program uses
                (exceptions, [str], [int], double-precision floats);
    - [Cv]      the OpenCV/NumPy layer: arrays, the pixel-wise operations
                written out, the image-processing routines as an interface
                whose invocations are recorded in a call log;
    - [Resit]   the functions of [resit.py];
    - [App]     the decoding and serialisation done by [analyze];
    - [Spec]    the notions the properties are stated with;
    - the properties, module by module. *)

From Stdlib Require Import ZArith List String Ascii Bool Lia.
From Stdlib Require Import Sorted Permutation.
From Stdlib Require Import DecimalString.
From Stdlib Require Import Floats.SpecFloat.
From Stdlib Require Import QArith Qpower Qround Lqa.
Import ListNotations.

Local Open Scope string_scope.
Local Open Scope list_scope.
Local Open Scope Z_scope.

(* ===================================================================== *)
(** * Python values and built-ins *)
(* ===================================================================== *)

Module Py.

(** Exceptions the program can meet.  [CvError] stands for [cv2.error]. *)
Inductive exn : Type :=
| ValueError
| ZeroDivisionError
| OverflowError
| IndexError
| CvError.

(** Outcome of an expression that may raise. *)
Inductive result (A : Type) : Type :=
| Ok (a : A)
| Raise (e : exn).
Arguments Ok {A} a.
Arguments Raise {A} e.

Definition rbind {A B : Type} (r : result A) (k : A -> result B) : result B :=
  match r with
  | Ok a => k a
  | Raise e => Raise e
  end.

(** ** [str] on an [int] *)

(** [str(n)]: the decimal numeral, with a leading [-] for negatives. *)
Definition str (n : Z) : string := NilZero.string_of_int (Z.to_int n).

(** [''.join(parts)]. *)
Definition join (parts : list string) : string :=
  fold_right String.append EmptyString parts.

(** ** [int] on a [str] (base 10)

    Optional surrounding whitespace, an optional sign, then decimal digits
    in which single underscores may separate digits.  Anything else raises
    [ValueError]. *)

Definition is_space (c : ascii) : bool :=
  let n := N_of_ascii c in
  ((9 <=? n) && (n <=? 13) || (28 <=? n) && (n <=? 32))%N.

Definition is_digit (c : ascii) : bool :=
  let n := N_of_ascii c in ((48 <=? n) && (n <=? 57))%N.

Definition digit_val (c : ascii) : Z := Z.of_N (N_of_ascii c) - 48.

Fixpoint lstrip (s : string) : string :=
  match s with
  | String c s' => if is_space c then lstrip s' else s
  | EmptyString => EmptyString
  end.

Fixpoint rstrip (s : string) : string :=
  match s with
  | String c s' =>
      match rstrip s' with
      | EmptyString => if is_space c then EmptyString else String c EmptyString
      | r => String c r
      end
  | EmptyString => EmptyString
  end.

(** Digits with single interior underscores; [after_digit] tells whether
    the previous character was a digit. *)
Fixpoint parse_digits (acc : Z) (after_digit : bool) (s : string) : option Z :=
  match s with
  | EmptyString => if after_digit then Some acc else None
  | String c s' =>
      if is_digit c then parse_digits (10 * acc + digit_val c) true s'
      else if Ascii.eqb c "_" then
        if after_digit then parse_digits acc false s' else None
      else None
  end.

Definition int_of_str (s : string) : result Z :=
  let body := rstrip (lstrip s) in
  let signed :=
    match body with
    | String c rest =>
        if Ascii.eqb c "-" then option_map Z.opp (parse_digits 0 false rest)
        else if Ascii.eqb c "+" then parse_digits 0 false rest
        else parse_digits 0 false body
    | EmptyString => None
    end in
  match signed with
  | Some n => Ok n
  | None => Raise ValueError
  end.

(** ** Floats: IEEE 754 binary64, round to nearest even *)

Definition prec : Z := 53.
Definition emax : Z := 1024.

Definition float : Type := spec_float.

(** [float(n)] for an [int]: correctly rounded; [OverflowError] when the
    integer is too large for a double. *)
Definition float_of_int (n : Z) : result float :=
  match binary_normalize prec emax n 0 false with
  | S754_infinity _ => Raise OverflowError
  | f => Ok f
  end.

Definition fmul (x y : float) : float := SFmul prec emax x y.

Definition is_zero (x : float) : bool :=
  match x with S754_zero _ => true | _ => false end.

(** [x / y] on floats: [ZeroDivisionError] on a zero divisor. *)
Definition fdiv (x y : float) : result float :=
  if is_zero y then Raise ZeroDivisionError else Ok (SFdiv prec emax x y).

Definition flt (x y : float) : bool := SFltb x y.
Definition fgt (x y : float) : bool := SFltb y x.

(** [max(a, b)] on floats: the first argument unless the second is greater. *)
Definition fmax (a b : float) : float := if fgt b a then b else a.

(** [int(x)] for a float: truncation toward zero. *)
Definition int_of_float (x : float) : result Z :=
  match x with
  | S754_zero _ => Ok 0
  | S754_infinity _ => Raise OverflowError
  | S754_nan => Raise ValueError
  | S754_finite s m e =>
      let mag := if 0 <=? e then Z.pos m * 2 ^ e else Z.pos m / 2 ^ (- e) in
      Ok (if s then - mag else mag)
  end.

(** [x < n] for a float [x] and an int [n]: Python compares the exact
    values, without converting the integer. *)
Definition flt_int (x : float) (n : Z) : bool :=
  match x with
  | S754_zero _ => 0 <? n
  | S754_infinity s => s
  | S754_nan => false
  | S754_finite s m e =>
      let v := if s then Z.neg m else Z.pos m in
      if 0 <=? e then v * 2 ^ e <? n else v <? n * 2 ^ (- e)
  end.

(** Float literals of the source, as the doubles Python reads them. *)
Definition f_1_0 : float := S754_finite false 4503599627370496 (-52).
Definition f_1_5 : float := S754_finite false 6755399441055744 (-52).
Definition f_0_40 : float := S754_finite false 7205759403792794 (-54).
Definition f_0_001 : float := S754_finite false 4611686018427388 (-62).
Definition f_0_0005 : float := S754_finite false 4611686018427388 (-63).
Definition f_neg_1_0 : float := S754_finite true 4503599627370496 (-52).

(** Numbers: an [int] or a [float]. *)
Inductive num : Type :=
| Int (n : Z)
| Float (x : float).

End Py.

(* ===================================================================== *)
(** * The OpenCV / NumPy layer *)
(* ===================================================================== *)

Module Cv.
Import Py.

(** Arrays are row-major lists of rows of 8-bit pixels. *)
Definition Triple : Type := (Z * Z * Z)%type.
Definition Plane : Type := list (list Z).
Definition Image : Type := list (list Triple).

(** A contour is the sequence of its boundary points [(x, y)]. *)
Definition Point : Type := (Z * Z)%type.
Definition Contour : Type := list Point.

(** [a.shape[:2]]: rows, then columns. *)
Definition shape {A : Type} (a : list (list A)) : Z * Z :=
  (Z.of_nat (List.length a), Z.of_nat (List.length (hd [] a))).

(** ** Enumerations of the library *)

Inductive interpolation : Type :=
| INTER_NEAREST | INTER_LINEAR | INTER_CUBIC | INTER_AREA.

Inductive colour_code : Type := COLOR_BGR2GRAY | COLOR_BGR2HSV.

Inductive adaptive_method : Type :=
| ADAPTIVE_THRESH_MEAN_C | ADAPTIVE_THRESH_GAUSSIAN_C.

Inductive morph_shape : Type := MORPH_RECT | MORPH_CROSS | MORPH_ELLIPSE.

Inductive morph_op : Type := MORPH_ERODE | MORPH_DILATE | MORPH_OPEN | MORPH_CLOSE.

Inductive retrieval_mode : Type := RETR_EXTERNAL | RETR_LIST.

Inductive approx_method : Type := CHAIN_APPROX_NONE | CHAIN_APPROX_SIMPLE.

(** Threshold types are integer flags that the source adds together. *)
Definition THRESH_BINARY : Z := 0.
Definition THRESH_OTSU : Z := 8.

Definition FILLED : Z := -1.

(** ** Pixel-wise operations, written out *)

(** [lo <= p <= hi] on every channel. *)
Definition in_range (p lo hi : Triple) : bool :=
  let '(p0, p1, p2) := p in
  let '(l0, l1, l2) := lo in
  let '(h0, h1, h2) := hi in
  (l0 <=? p0) && (p0 <=? h0) && (l1 <=? p1) && (p1 <=? h1)
  && (l2 <=? p2) && (p2 <=? h2).

(** [cv.inRange]: 255 where the pixel is within the bounds, else 0. *)
Definition inRange (src : Image) (lowerb upperb : Triple) : Plane :=
  map (map (fun p => if in_range p lowerb upperb then 255 else 0)) src.

(** Element-wise combination of two arrays; sizes must agree. *)
Fixpoint zip_with {A B C : Type} (f : A -> B -> C) (xs : list A) (ys : list B)
  : result (list C) :=
  match xs, ys with
  | [], [] => Ok []
  | x :: xs', y :: ys' =>
      rbind (zip_with f xs' ys') (fun r => Ok (f x y :: r))
  | _, _ => Raise CvError
  end.

Fixpoint zip_rows {A B C : Type} (f : A -> B -> C)
  (xs : list (list A)) (ys : list (list B)) : result (list (list C)) :=
  match xs, ys with
  | [], [] => Ok []
  | x :: xs', y :: ys' =>
      rbind (zip_with f x y) (fun r =>
      rbind (zip_rows f xs' ys') (fun rs => Ok (r :: rs)))
  | _, _ => Raise CvError
  end.

Definition bitwise_or (a b : Plane) : result Plane := zip_rows Z.lor a b.
Definition bitwise_and (a b : Plane) : result Plane := zip_rows Z.land a b.
Definition bitwise_not (a : Plane) : Plane :=
  map (map (fun v => Z.land (Z.lnot v) 255)) a.

(** [np.ones_like(a, dtype=np.uint8) * 255], also [m[:, :] = 255]. *)
Definition full_255 {A : Type} (a : list (list A)) : Plane :=
  map (map (fun _ => 255)) a.

(** [np.zeros_like(a, dtype=np.uint8)]. *)
Definition zeros_like {A : Type} (a : list (list A)) : Plane :=
  map (map (fun _ => 0)) a.

(** [np.argmin] over the x-coordinates of a contour: the first index of
    the minimum; [ValueError] on an empty sequence.  The function returns
    the point at that index, which is what the source reads next. *)
Fixpoint leftmost_from (best : Point) (rest : Contour) : Point :=
  match rest with
  | [] => best
  | p :: rest' =>
      if fst p <? fst best then leftmost_from p rest'
      else leftmost_from best rest'
  end.

Definition leftmost (cont : Contour) : result Point :=
  match cont with
  | [] => Raise ValueError
  | p :: rest => Ok (leftmost_from p rest)
  end.

(** ** The image-processing routines

    These are the library's; the program only chooses their arguments.
    Each may raise [cv2.error].  A routine the program uses at two array
    types has one field per type: [cvtColor_gray] and [cvtColor_hsv] are
    [cv.cvtColor] with [COLOR_BGR2GRAY] and [COLOR_BGR2HSV],
    [fillContours] and [drawContours] are [cv.drawContours] on a mask and
    on a colour image, [imshow] and [imshow_mask] are [cv.imshow]. *)
Record Library : Type := {
  resize : Image -> Z * Z -> interpolation -> result Image;
  bilateralFilter : Image -> Z -> Z -> Z -> result Image;
  GaussianBlur : Image -> Z * Z -> Z -> result Image;
  cvtColor_gray : Image -> result Plane;
  cvtColor_hsv : Image -> result Image;
  adaptiveThreshold :
    Plane -> Z -> adaptive_method -> Z -> Z -> Z -> result Plane;
  threshold : Plane -> Z -> Z -> Z -> result (float * Plane);
  Canny : Plane -> Z -> Z -> result Plane;
  getStructuringElement : morph_shape -> Z * Z -> result Plane;
  morphologyEx : Plane -> morph_op -> Plane -> Z -> result Plane;
  findContours :
    Plane -> retrieval_mode -> approx_method -> result (list Contour);
  contourArea : Contour -> float;
  boundingRect : Contour -> Z * Z * Z * Z;
  fillContours : Plane -> list Contour -> Z -> Z -> Z -> result Plane;
  drawContours : Image -> list Contour -> Z -> Triple -> Z -> result Image;
  imshow : string -> Image -> result unit;
  imshow_mask : string -> Plane -> result unit;
  (** [pow] of the C library, behind [10 ** d] for a negative [d]. *)
  libm_pow : float -> float -> float
}.

(** ** Call log

    What the program asks of the outside world, in order: the routine and
    the arguments it chose (arrays are left out, except the structuring
    element handed to [morphologyEx]). *)
Inductive call : Type :=
| Call_resize (dsize : Z * Z) (interp : interpolation)
| Call_bilateralFilter (d sigma_color sigma_space : Z)
| Call_GaussianBlur (ksize : Z * Z) (sigma : Z)
| Call_cvtColor (code : colour_code)
| Call_adaptiveThreshold
    (maxv : Z) (method : adaptive_method) (ttype block c : Z)
| Call_threshold (thresh maxv ttype : Z)
| Call_Canny (lo hi : Z)
| Call_getStructuringElement (sh : morph_shape) (ksize : Z * Z)
| Call_morphologyEx (op : morph_op) (kernel : Plane) (iterations : Z)
| Call_findContours (mode : retrieval_mode) (approx : approx_method)
| Call_fillContours (idx colour thickness : Z)
| Call_drawContours (idx : Z) (colour : Triple) (thickness : Z)
| Call_imshow (name : string)
| Call_print_timing
| Call_print_resistance (value : num).

(** ** Computations that log calls and may raise *)

Definition M (A : Type) : Type := (list call * result A)%type.

Definition ret {A : Type} (a : A) : M A := ([], Ok a).

Definition bind {A B : Type} (m : M A) (k : A -> M B) : M B :=
  match m with
  | (t, Ok a) => let '(t', r) := k a in (t ++ t', r)
  | (t, Raise e) => (t, Raise e)
  end.

(** A pure expression that may raise. *)
Definition lift {A : Type} (r : result A) : M A := ([], r).

(** An invocation: logged, then its outcome. *)
Definition invoke {A : Type} (c : call) (r : result A) : M A := ([c], r).

Definition trace {A : Type} (m : M A) : list call := fst m.
Definition outcome {A : Type} (m : M A) : result A := snd m.

(** [for x in xs: s = body(s, x)]. *)
Fixpoint for_each {A S : Type} (body : S -> A -> M S) (s : S) (xs : list A)
  : M S :=
  match xs with
  | [] => ret s
  | x :: xs' => bind (body s x) (fun s' => for_each body s' xs')
  end.

(** [if c: body]. *)
Definition when (c : bool) (body : M unit) : M unit :=
  if c then body else ret tt.

End Cv.

Declare Scope cv_scope.
Delimit Scope cv_scope with cv.
Notation "x <- m ;; k" := (Cv.bind m (fun x => k))
  (at level 61, m at next level, right associativity) : cv_scope.
Notation "' p <- m ;; k" := (Cv.bind m (fun x => let p := x in k))
  (at level 61, p pattern, m at next level, right associativity) : cv_scope.
Notation "m ;;; k" := (Cv.bind m (fun _ => k))
  (at level 61, right associativity) : cv_scope.

(* ===================================================================== *)
(** * Python built-ins on sequences and numbers used by the program *)
(* ===================================================================== *)

Module Builtins.
Import Py.

(** [sorted(xs, key=key)].  Python's sort is stable; it is written here
    as an insertion sort that places an element before the first one whose
    key is not smaller. *)
Fixpoint insert_by {A : Type} (key : A -> Z) (a : A) (xs : list A) : list A :=
  match xs with
  | [] => [a]
  | b :: xs' => if key b <? key a then b :: insert_by key a xs' else a :: xs
  end.

Definition sorted {A : Type} (key : A -> Z) (xs : list A) : list A :=
  fold_right (insert_by key) [] xs.

(** [xs[-1]]: [IndexError] on an empty sequence. *)
Fixpoint last_item {A : Type} (xs : list A) : result A :=
  match xs with
  | [] => Raise IndexError
  | [a] => Ok a
  | _ :: xs' => last_item xs'
  end.

(** [len(xs) in (3, 4, 5)]. *)
Definition len_in_3_4_5 {A : Type} (xs : list A) : bool :=
  let n := Z.of_nat (List.length xs) in
  (n =? 3) || (n =? 4) || (n =? 5).

Definition f_10_0 : float := S754_finite false 5629499534213120 (-49).

(** [10 ** d]: an integer for [d >= 0]; for a negative [d] Python converts
    both operands to float and calls the C library's [pow]. *)
Definition pow10 (pow : float -> float -> float) (d : Z) : result num :=
  if 0 <=? d then Ok (Int (10 ^ d))
  else rbind (float_of_int d) (fun fd => Ok (Float (pow f_10_0 fd))).

(** [n * v] for an [int] n. *)
Definition int_mul (n : Z) (v : num) : result num :=
  match v with
  | Int k => Ok (Int (n * k))
  | Float x => rbind (float_of_int n) (fun fn => Ok (Float (fmul fn x)))
  end.

End Builtins.

(* ===================================================================== *)
(** * resit.py *)
(* ===================================================================== *)

Module Resit.
Import Py Cv Builtins.
Local Open Scope cv_scope.

(** An entry of the colour table:
    [[lower, upper, name, digit, display]]. *)
Record ColourEntry : Type := {
  lower : Triple;
  upper : Triple;
  cname : string;
  digit : Z;
  display : Triple
}.

Definition Colour_Range : list ColourEntry := [
  {| lower := (0, 0, 0); upper := (255, 255, 20);
     cname := "BLACK"; digit := 0; display := (0, 0, 0) |};
  {| lower := (0, 90, 10); upper := (15, 250, 100);
     cname := "BROWN"; digit := 1; display := (0, 51, 102) |};
  {| lower := (0, 30, 80); upper := (10, 255, 200);
     cname := "RED"; digit := 2; display := (0, 0, 255) |};
  {| lower := (5, 150, 150); upper := (15, 235, 250);
     cname := "ORANGE"; digit := 3; display := (0, 128, 255) |};
  {| lower := (50, 100, 100); upper := (70, 255, 255);
     cname := "YELLOW"; digit := 4; display := (0, 255, 255) |};
  {| lower := (45, 100, 50); upper := (75, 255, 255);
     cname := "GREEN"; digit := 5; display := (0, 255, 0) |};
  {| lower := (100, 150, 0); upper := (140, 255, 255);
     cname := "BLUE"; digit := 6; display := (255, 0, 0) |};
  {| lower := (120, 40, 100); upper := (140, 250, 220);
     cname := "VIOLET"; digit := 7; display := (255, 0, 127) |};
  {| lower := (0, 0, 50); upper := (179, 50, 80);
     cname := "GRAY"; digit := 8; display := (128, 128, 128) |};
  {| lower := (0, 0, 90); upper := (179, 15, 250);
     cname := "WHITE"; digit := 9; display := (255, 255, 255) |}
].

Definition Red_top_low : Triple := (160, 30, 80).
Definition Red_top_high : Triple := (179, 255, 200).

Record Config : Type := {
  max_dim : Z;
  blur : string;
  gaussian_ksize : Z;
  bilateral_d : Z;
  bilateral_sigma_color : Z;
  bilateral_sigma_space : Z;
  use_adaptive : bool;
  adaptive_block_size : Z;
  adaptive_C : Z;
  morph_kernel : Z;
  min_area : Z;
  debug : bool
}.

(** [Config()]: the defaults of the dataclass. *)
Definition default_Config : Config := {|
  max_dim := 900;
  blur := "gaussian";
  gaussian_ksize := 7;
  bilateral_d := 9;
  bilateral_sigma_color := 75;
  bilateral_sigma_space := 75;
  use_adaptive := false;
  adaptive_block_size := 51;
  adaptive_C := 2;
  morph_kernel := 3;
  min_area := 0;
  debug := false
|}.

(** A detected band: [(x, y, name, digit, display)]. *)
Record Band : Type := {
  bx : Z;
  by_ : Z;
  bname : string;
  bdigit : Z;
  bdisplay : Triple
}.

(** [lmp + tuple(clr[2:])]. *)
Definition band_at (lmp : Point) (clr : ColourEntry) : Band :=
  {| bx := fst lmp; by_ := snd lmp;
     bname := cname clr; bdigit := digit clr; bdisplay := display clr |}.

Definition _estimate_min_area (h w : Z) (cfg : Config) : result Z :=
  if min_area cfg >? 0 then Ok (min_area cfg)
  else
    rbind (float_of_int h) (fun fh =>
    rbind (float_of_int w) (fun fw =>
    rbind (int_of_float (fmul (fmul f_0_0005 fh) fw)) (fun n =>
    Ok (Z.max 50 n)))).

(** The size handed to [cv.resize]: [(int(w * scale), int(h * scale))]
    with [scale = cfg.max_dim / float(max(h, w))]. *)
Definition resize_dsize (h w : Z) (cfg : Config) : result (Z * Z) :=
  rbind (float_of_int (Z.max h w)) (fun fm =>
  rbind (float_of_int (max_dim cfg)) (fun fd =>
  rbind (fdiv fd fm) (fun scale =>
  rbind (float_of_int w) (fun fw =>
  rbind (int_of_float (fmul fw scale)) (fun nw =>
  rbind (float_of_int h) (fun fh =>
  rbind (int_of_float (fmul fh scale)) (fun nh =>
  Ok (nw, nh)))))))).

(** [cfg.max_dim and max(h, w) > cfg.max_dim]. *)
Definition needs_resize (h w : Z) (cfg : Config) : bool :=
  negb (max_dim cfg =? 0) && (Z.max h w >? max_dim cfg).

Section Pipeline.
Context (cv : Library).

(** The opening statement of [_preprocess]: the image, downscaled when its
    longer side exceeds [cfg.max_dim]. *)
Definition downscaled (img : Image) (cfg : Config) : M Image :=
  let '(h, w) := shape img in
  if needs_resize h w cfg then
    dsize <- lift (resize_dsize h w cfg) ;;
    invoke (Call_resize dsize INTER_AREA) (resize cv img dsize INTER_AREA)
  else ret img.

Definition _preprocess (img : Image) (cfg : Config)
  : M (Image * Plane * Image * Plane) :=
  img <- downscaled img cfg ;;
  img_blur <- (if String.eqb (blur cfg) "bilateral" then
                 invoke (Call_bilateralFilter (bilateral_d cfg)
                           (bilateral_sigma_color cfg)
                           (bilateral_sigma_space cfg))
                        (bilateralFilter cv img (bilateral_d cfg)
                           (bilateral_sigma_color cfg)
                           (bilateral_sigma_space cfg))
               else
                 let k := Z.max 3 (Z.lor (gaussian_ksize cfg) 1) in
                 invoke (Call_GaussianBlur (k, k) 0)
                        (GaussianBlur cv img (k, k) 0)) ;;
  gray <- invoke (Call_cvtColor COLOR_BGR2GRAY) (cvtColor_gray cv img_blur) ;;
  hsv <- invoke (Call_cvtColor COLOR_BGR2HSV) (cvtColor_hsv cv img_blur) ;;
  th <- (if use_adaptive cfg then
           let b := Z.max 3 (Z.lor (adaptive_block_size cfg) 1) in
           invoke (Call_adaptiveThreshold 255 ADAPTIVE_THRESH_MEAN_C
                     THRESH_BINARY b (adaptive_C cfg))
                  (adaptiveThreshold cv gray 255 ADAPTIVE_THRESH_MEAN_C
                     THRESH_BINARY b (adaptive_C cfg))
         else
           r <- invoke (Call_threshold 0 255 (THRESH_BINARY + THRESH_OTSU))
                       (threshold cv gray 0 255 (THRESH_BINARY + THRESH_OTSU)) ;;
           ret (snd r)) ;;
  let th := bitwise_not th in
  ret (img_blur, gray, hsv, th).

(** One round of the loop that picks the resistor body: the state is
    [(best, best_score)]. *)
Definition roi_step (h w : Z) (st : option Contour * float) (c : Contour)
  : M (option Contour * float) :=
  let '(best, best_score) := st in
  let area := contourArea cv c in
  fh <- lift (float_of_int h) ;;
  fw <- lift (float_of_int w) ;;
  if flt area (fmul (fmul f_0_001 fh) fw) then ret st
  else
    let '(x, y, ww, hh) := boundingRect cv c in
    fmin <- lift (float_of_int (Z.min ww hh)) ;;
    fmx <- lift (float_of_int (Z.max ww hh)) ;;
    ar <- lift (fdiv fmx (fmax f_1_0 fmin)) ;;
    let score := fmul area (if fgt ar f_1_5 then ar else f_1_0) in
    if fgt score best_score then ret (Some c, score) else ret st.

(** The square structuring element used to close the merged mask. *)
Definition roi_kernel_size (cfg : Config) : Z := Z.max 3 (morph_kernel cfg).

Definition _resistor_roi_mask (gray th : Plane) (cfg : Config) : M Plane :=
  let '(h, w) := shape gray in
  edges <- invoke (Call_Canny 50 150) (Canny cv gray 50 150) ;;
  merged <- lift (bitwise_or edges th) ;;
  let k := roi_kernel_size cfg in
  kernel <- invoke (Call_getStructuringElement MORPH_RECT (k, k))
                   (getStructuringElement cv MORPH_RECT (k, k)) ;;
  closed <- invoke (Call_morphologyEx MORPH_CLOSE kernel 2)
                   (morphologyEx cv merged MORPH_CLOSE kernel 2) ;;
  contours <- invoke (Call_findContours RETR_EXTERNAL CHAIN_APPROX_SIMPLE)
                     (findContours cv closed RETR_EXTERNAL CHAIN_APPROX_SIMPLE) ;;
  match contours with
  | [] => ret (full_255 gray)
  | _ =>
      st <- for_each (roi_step h w) (None, f_neg_1_0) contours ;;
      let mask := zeros_like gray in
      match fst st with
      | Some best =>
          invoke (Call_fillContours (-1) 255 FILLED)
                 (fillContours cv mask [best] (-1) 255 FILLED)
      | None => ret (full_255 mask)
      end
  end.

Definition validContours (cont : Contour) (min_area : Z) : result bool :=
  if flt_int (contourArea cv cont) min_area then Ok false
  else
    let '(x, y, w, h) := boundingRect cv cont in
    if h =? 0 then Ok false
    else
      rbind (float_of_int w) (fun fw =>
      rbind (float_of_int h) (fun fh =>
      rbind (fdiv fw fh) (fun ratio =>
      if fgt ratio f_0_40 then Ok false else Ok true))).

(** The colour mask of one table entry, before foreground and region of
    interest are applied. *)
Definition colour_mask (img_hsv : Image) (pre_red_mask : Plane)
  (clr : ColourEntry) : result Plane :=
  let mask := inRange img_hsv (lower clr) (upper clr) in
  if String.eqb (cname clr) "RED" then bitwise_or pre_red_mask mask
  else Ok mask.

(** [for cont in contours]: collect the valid bands of one colour. *)
Definition collect_band (min_area : Z) (clr : ColourEntry)
  (bandpos : list Band) (cont : Contour) : M (list Band) :=
  ok <- lift (validContours cont min_area) ;;
  if negb ok then ret bandpos
  else
    lmp <- lift (leftmost cont) ;;
    ret (bandpos ++ [band_at lmp clr]).

(** [for clr in Colour_Range]: the state is [(bandpos, img1)]. *)
Definition colour_step (cfg : Config) (img_hsv : Image)
  (thresh pre_red_mask kernel roi_mask : Plane) (min_area : Z)
  (st : list Band * Image) (clr : ColourEntry) : M (list Band * Image) :=
  let '(bandpos, img1) := st in
  mask <- lift (colour_mask img_hsv pre_red_mask clr) ;;
  mask <- lift (bitwise_and mask thresh) ;;
  mask <- lift (bitwise_and mask roi_mask) ;;
  mask <- (if morph_kernel cfg >? 1 then
             invoke (Call_morphologyEx MORPH_OPEN kernel 1)
                    (morphologyEx cv mask MORPH_OPEN kernel 1)
           else ret mask) ;;
  contours <- invoke (Call_findContours RETR_EXTERNAL CHAIN_APPROX_SIMPLE)
                     (findContours cv mask RETR_EXTERNAL CHAIN_APPROX_SIMPLE) ;;
  bandpos <- for_each (collect_band min_area clr) bandpos contours ;;
  img1 <- (if debug cfg then
             invoke (Call_drawContours (-1) (display clr) 2)
                    (drawContours cv img1 contours (-1) (display clr) 2)
           else ret img1) ;;
  ret (bandpos, img1).

(** The bands in detection order, before sorting. *)
Definition detectBands (img : Image) (cfg : Config) : M (list Band) :=
  '(img1, img_gray, img_hsv, thresh) <- _preprocess img cfg ;;
  let '(h, w) := shape img1 in
  min_area <- lift (_estimate_min_area h w cfg) ;;
  let pre_red_mask := inRange img_hsv Red_top_low Red_top_high in
  kernel <- invoke (Call_getStructuringElement MORPH_RECT
                      (morph_kernel cfg, morph_kernel cfg))
                   (getStructuringElement cv MORPH_RECT
                      (morph_kernel cfg, morph_kernel cfg)) ;;
  roi_mask <- _resistor_roi_mask img_gray thresh cfg ;;
  st <- for_each (colour_step cfg img_hsv thresh pre_red_mask kernel roi_mask
                    min_area) ([], img1) Colour_Range ;;
  when (debug cfg)
    (invoke (Call_imshow "Contour Display")
            (imshow cv "Contour Display" (snd st)) ;;;
     invoke (Call_imshow "ROI") (imshow_mask cv "ROI" roi_mask)) ;;;
  when (debug cfg) (invoke Call_print_timing (Ok tt)) ;;;
  ret (fst st).

Definition findBands (img : Image) (cfg : Config) : M (list Band) :=
  bandpos <- detectBands img cfg ;;
  ret (sorted bx bandpos).

(** The value printed for a list of bands: [int(strvalue)] times
    [10 ** sortedbands[-1][3]]. *)
Definition resistance (bands : list Band) : result num :=
  let strvalue := join (map (fun band => str (bdigit band)) (removelast bands)) in
  rbind (int_of_str strvalue) (fun intvalue =>
  rbind (last_item bands) (fun lastband =>
  rbind (pow10 (libm_pow cv) (bdigit lastband)) (fun p =>
  int_mul intvalue p))).

Definition displayResults (sortedbands : list Band) : M unit :=
  if len_in_3_4_5 sortedbands then
    intvalue <- lift (resistance sortedbands) ;;
    invoke (Call_print_resistance intvalue) (Ok tt)
  else ret tt.

End Pipeline.

End Resit.

(* ===================================================================== *)
(** * app.py: the [/analyze] endpoint, from the decoded image on *)
(* ===================================================================== *)

Module App.
Import Py Cv Builtins Resit.

(** One record of the ["bands"] list of the JSON answer. *)
Record BandJson : Type := {
  x : Z;
  y : Z;
  color : string;
  digit : Z
}.

Inductive response : Type :=
| Failed (e : exn)
| Analysed (bands : list BandJson) (value_ohms : option num).

Definition band_json (b : Band) : BandJson :=
  {| x := bx b; y := by_ b; color := bname b; digit := bdigit b |}.

Section Endpoint.
Context (cv : Library).

(** [value_ohms]: [None] unless there are 3, 4 or 5 bands and
    [int(digits) * (10 ** bands[-1][3])] evaluates without an exception. *)
Definition value_ohms (bands : list Band) : option num :=
  if len_in_3_4_5 bands then
    let digits := join (map (fun b => str (bdigit b)) (removelast bands)) in
    match
      rbind (int_of_str digits) (fun base =>
      rbind (last_item bands) (fun lastband =>
      rbind (pow10 (libm_pow cv) (bdigit lastband)) (fun p =>
      int_mul base p)))
    with
    | Ok v => Some v
    | Raise _ => None
    end
  else None.

(** What [analyze] answers once [findBands] has returned. *)
Definition respond (bands : list Band) : response :=
  Analysed (map band_json bands) (value_ohms bands).

Definition analyze (bgr : Image) : list call * response :=
  match findBands cv bgr default_Config with
  | (t, Ok bands) => (t, respond bands)
  | (t, Raise e) => (t, Failed e)
  end.

End Endpoint.

End App.

(* ===================================================================== *)
(** * A synthetic library for concrete runs

    Filters pass their input through, the colour conversion to HSV is the
    identity (so test images are written in HSV directly), thresholding
    marks every pixel as foreground, and every lit pixel of a mask is one
    band-shaped region: a contour with the single point of that pixel,
    area 100 and a 1 x 3 bounding box. *)
(* ===================================================================== *)

Module Synthetic.
Import Py Cv.

Fixpoint lit_in_row (y x : Z) (row : list Z) : list Contour :=
  match row with
  | [] => []
  | v :: row' =>
      (if v =? 0 then [] else [[(x, y)]]) ++ lit_in_row y (x + 1) row'
  end.

Fixpoint lit_from (y : Z) (rows : Plane) : list Contour :=
  match rows with
  | [] => []
  | row :: rows' => lit_in_row y 0 row ++ lit_from (y + 1) rows'
  end.

Definition f_100_0 : float := S754_finite false 7036874417766400 (-46).

Definition rect_of (c : Contour) : Z * Z * Z * Z :=
  match c with
  | [] => (0, 0, 0, 0)
  | (x, y) :: _ => (x, y, 1, 3)
  end.

Definition library : Library := {|
  resize := fun img _ _ => Ok img;
  bilateralFilter := fun img _ _ _ => Ok img;
  GaussianBlur := fun img _ _ => Ok img;
  cvtColor_gray := fun img => Ok (map (map (fun p => snd p)) img);
  cvtColor_hsv := fun img => Ok img;
  adaptiveThreshold := fun g _ _ _ _ _ => Ok (zeros_like g);
  threshold := fun g _ _ _ => Ok (S754_zero false, zeros_like g);
  Canny := fun g _ _ => Ok (zeros_like g);
  getStructuringElement := fun _ ksize =>
    Ok (repeat (repeat 1 (Z.to_nat (fst ksize))) (Z.to_nat (snd ksize)));
  morphologyEx := fun m _ _ _ => Ok m;
  findContours := fun m _ _ => Ok (lit_from 0 m);
  contourArea := fun _ => f_100_0;
  boundingRect := rect_of;
  fillContours := fun m _ _ _ _ => Ok (full_255 m);
  drawContours := fun img _ _ _ _ => Ok img;
  imshow := fun _ _ => Ok tt;
  imshow_mask := fun _ _ => Ok tt;
  libm_pow := fun _ _ => S754_zero false
|}.

(** HSV pixels that fall in exactly one colour of the table. *)
Definition px_red : Triple := (170, 100, 150).
Definition px_black : Triple := (0, 0, 0).
Definition px_orange : Triple := (12, 200, 240).
Definition px_none : Triple := (90, 120, 30).

(** Four bands in a row: red, red, black, orange. *)
Definition img_220k : Image := [[px_red; px_red; px_black; px_orange]].

(** Two bands. *)
Definition img_two : Image := [[px_red; px_none; px_black]].

(** No band at all. *)
Definition img_blank : Image := [[px_none; px_none]].

End Synthetic.

(* ===================================================================== *)
(** * Notions used to state the properties *)
(* ===================================================================== *)

Module Spec.
Import Py Cv Builtins Resit App.

(** ** Decoding *)

(** The integer written by a sequence of decimal digits, leftmost digit
    most significant. *)
Definition decimal_value (ds : list Z) : Z :=
  fold_left (fun acc d => 10 * acc + d) ds 0.

Definition digit_char (d : Z) : ascii := ascii_of_N (Z.to_N (48 + d)).

Definition digits_text (ds : list Z) : string := join (map str ds).

(** The digit of the last band (0 for an empty list). *)
Definition last_digit (bands : list Band) : Z := last (map bdigit bands) 0.

(** The resistance the specification assigns to a list of bands. *)
Definition spec_ohms (bands : list Band) : Z :=
  decimal_value (map bdigit (removelast bands)) * 10 ^ last_digit bands.

Definition digit_in_range (b : Band) : Prop := 0 <= bdigit b <= 9.

(** A band as [findBands] builds them: position plus the tail of a table
    entry. *)
Definition candidate (b : Band) : Prop :=
  exists clr, In clr Colour_Range /\
    bname b = cname clr /\ bdigit b = Resit.digit clr /\
    bdisplay b = display clr.

(** A record of the answer reports a band: it carries the position of the
    band, the name of its colour and its digit. *)
Definition reports (record : BandJson) (b : Band) : Prop :=
  App.x record = bx b /\ App.y record = by_ b /\
  App.color record = bname b /\ App.digit record = bdigit b.

(** The answer lists the bands: one record per band, in the order of the
    bands. *)
Definition lists_bands (records : list BandJson) (bands : list Band) : Prop :=
  Forall2 reports records bands.

(** A band with a given digit, for concrete runs. *)
Definition band_with (x d : Z) : Band :=
  {| bx := x; by_ := 0; bname := "BAND"; bdigit := d; bdisplay := (0, 0, 0) |}.

(** ** The colour table *)

(** The hue bounds of a pair of HSV bounds. *)
Definition hue_of (t : Triple) : Z := fst (fst t).

Definition in_hue_range (hue : Z) (lo hi : Triple) : Prop :=
  hue_of lo <= hue <= hue_of hi.

(** ** Order of the bands *)

Definition key_le {A : Type} (key : A -> Z) (a b : A) : Prop := key a <= key b.

(** The elements with a given key, in order of appearance. *)
Definition with_key {A : Type} (key : A -> Z) (k : Z) (xs : list A)
  : list A :=
  filter (fun a => key a =? k) xs.

(** The bands one colour contributes for a list of contours: one band per
    valid contour, in the order of the contours. *)
Definition bands_of (cv : Library) (min_area : Z) (clr : ColourEntry)
  (cs : list Contour)
  : list Band :=
  flat_map (fun c =>
    match validContours cv c min_area, leftmost c with
    | Ok true, Ok lmp => [band_at lmp clr]
    | _, _ => []
    end) cs.

(** What the detector has at hand when it starts looking for bands in
    [img]: the processed image [img1] with its HSV version and its
    foreground mask, the structuring element for [morph_kernel], the region
    of interest, and the minimum area, which is the one estimated for the
    rows and columns of the processed image. *)
Definition prepared (cv : Library) (img : Image) (cfg : Config)
  (img1 hsv : Image) (thresh kernel roi : Plane) (min_area : Z) : Prop :=
  exists t0 gray t1,
    _preprocess cv img cfg = (t0, Ok (img1, gray, hsv, thresh)) /\
    _estimate_min_area (fst (shape img1)) (snd (shape img1)) cfg
    = Ok min_area /\
    getStructuringElement cv MORPH_RECT (morph_kernel cfg, morph_kernel cfg)
    = Ok kernel /\
    _resistor_roi_mask cv gray thresh cfg = (t1, Ok roi).

(** The mask searched for the bands of one colour: the pixels within the
    bounds of the colour (for RED, within either pair of bounds) that are
    foreground and lie in the region of interest, opened with the
    structuring element when [morph_kernel] exceeds 1. *)
Definition searched_mask (cv : Library) (cfg : Config) (hsv : Image)
  (thresh kernel roi : Plane) (clr : ColourEntry) : result Plane :=
  rbind (colour_mask hsv (inRange hsv Red_top_low Red_top_high) clr)
    (fun coloured =>
  rbind (bitwise_and coloured thresh) (fun lit =>
  rbind (bitwise_and lit roi) (fun inside =>
  if morph_kernel cfg >? 1
  then morphologyEx cv inside MORPH_OPEN kernel 1
  else Ok inside))).

(** The contours of one colour, as [findContours] returns them for the
    mask of the colour. *)
Definition contours_of (cv : Library) (cfg : Config) (hsv : Image)
  (thresh kernel roi : Plane) (clr : ColourEntry) : result (list Contour) :=
  rbind (searched_mask cv cfg hsv thresh kernel roi clr) (fun mask =>
  findContours cv mask RETR_EXTERNAL CHAIN_APPROX_SIMPLE).

(** [css] lists, colour by colour in the order of the table, the contours
    [findContours] returned, in the order it returned them. *)
Definition found_contours (cv : Library) (cfg : Config) (hsv : Image)
  (thresh kernel roi : Plane) (css : list (list Contour)) : Prop :=
  Forall2 (fun clr cs => contours_of cv cfg hsv thresh kernel roi clr = Ok cs)
    Colour_Range css.

(** Detection order for the contours [css] and the minimum area
    [min_area]: the colours in the order of the table, and for each colour
    the bands of its valid contours in the order of the contours. *)
Definition in_detection_order (cv : Library) (min_area : Z)
  (css : list (list Contour)) (bandpos : list Band) : Prop :=
  List.length css = List.length Colour_Range /\
  bandpos = flat_map (fun p => bands_of cv min_area (fst p) (snd p))
                     (combine Colour_Range css).

(** The bands of a run on [img], in detection order: those of the contours
    found in the processed image, filtered with the minimum area estimated
    for that image. *)
Definition detected (cv : Library) (img : Image) (cfg : Config)
  (min_area : Z) (css : list (list Contour)) (bandpos : list Band) : Prop :=
  exists img1 hsv thresh kernel roi,
    prepared cv img cfg img1 hsv thresh kernel roi min_area /\
    found_contours cv cfg hsv thresh kernel roi css /\
    in_detection_order cv min_area css bandpos.

(** A pixel that is both red and orange, left of a black one. *)
Definition img_tie : Image := [[(8, 200, 160); Synthetic.px_black]].

(** Two red pixels in one column, right of a pixel that is both red and
    orange. *)
Definition img_column : Image :=
  [[(8, 200, 160); Synthetic.px_red]; [Synthetic.px_none; Synthetic.px_red]].

(** ** Kernel and block sizes *)

(** What the program makes of a configured size before using it. *)
Definition coerced (size : Z) : Z := Z.max 3 (Z.lor size 1).

(** Sizes the blur and the adaptive threshold accept: odd, at least 3. *)
Definition valid_size (k : Z) : Prop := Z.odd k = true /\ 3 <= k.

(** The blur and threshold invocations use valid, coerced sizes. *)
Definition size_ok (cfg : Config) (c : call) : Prop :=
  match c with
  | Call_GaussianBlur (kx, ky) _ =>
      kx = coerced (gaussian_ksize cfg) /\ ky = kx /\ valid_size kx
  | Call_adaptiveThreshold _ _ _ block _ =>
      block = coerced (adaptive_block_size cfg) /\ valid_size block
  | _ => True
  end.

(** ** The closing of the region-of-interest extractor *)

(** What the extractor may ask of the morphology routines when its
    structuring element has side [k]: a [k] x [k] rectangle, and a closing
    with the element returned for it, two iterations. *)
Definition closing_ok (cv : Library) (k : Z) (c : call) : Prop :=
  match c with
  | Call_getStructuringElement sh ksize => sh = MORPH_RECT /\ ksize = (k, k)
  | Call_morphologyEx op kernel iterations =>
      op = MORPH_CLOSE /\ iterations = 2 /\
      getStructuringElement cv MORPH_RECT (k, k) = Ok kernel
  | _ => True
  end.

(** The morphology invocations of a trace. *)
Definition is_morphology (c : call) : bool :=
  match c with
  | Call_getStructuringElement _ _ | Call_morphologyEx _ _ _ => true
  | _ => false
  end.

Definition with_morph_kernel (k : Z) : Config := {|
  max_dim := 900; blur := "gaussian"; gaussian_ksize := 7;
  bilateral_d := 9; bilateral_sigma_color := 75; bilateral_sigma_space := 75;
  use_adaptive := false; adaptive_block_size := 51; adaptive_C := 2;
  morph_kernel := k; min_area := 0; debug := false
|}.

Definition ones (k : nat) : Plane := repeat (repeat 1 k) k.

(** ** Masks *)

(** The pixel in row [i], column [j]. *)
Definition pixel_at {A : Type} (a : list (list A)) (i j : nat) : option A :=
  match nth_error a i with
  | Some row => nth_error row j
  | None => None
  end.

Definition mask_value (b : bool) : Z := if b then 255 else 0.

(** Membership in one pair of bounds, as a mask value. *)
Definition single (lo hi : Triple) (p : Triple) : Z :=
  mask_value (in_range p lo hi).

(** ** Doubles *)

(** A mantissa with exactly 53 binary digits. *)
Definition normal (m : Z) : Prop := 2 ^ 52 <= m < 2 ^ 53.

(** The exact value [num / den] lies in [[m, m + 1)]; the round bit tells
    whether it is in the upper half, the sticky bit whether it is strictly
    inside a half. *)
Definition located (mrs : shr_record) (num den : Z) : Prop :=
  let f := num - shr_m mrs * den in
  0 <= shr_m mrs /\ 0 < den /\ 0 <= f < den /\
  (shr_r mrs = true <-> den <= 2 * f) /\
  (shr_s mrs = true <-> f <> 0 /\ 2 * f <> den).

(** The location a remainder [r] out of [d] describes. *)
Definition loc_matches (l : location) (r d : Z) : Prop :=
  match l with
  | loc_Exact => r = 0
  | loc_Inexact Lt => 0 < r /\ 2 * r < d
  | loc_Inexact Eq => 2 * r = d
  | loc_Inexact Gt => d < 2 * r
  end.

Definition pow2 (e : Z) : Q := (2 ^ e)%Q.

(** The rational a finite double stands for. *)
Definition B2Q (f : spec_float) : Q :=
  match f with
  | S754_finite s m e =>
      ((if s then - inject_Z (Z.pos m) else inject_Z (Z.pos m)) * pow2 e)%Q
  | _ => 0%Q
  end.

(** A positive double with a 53-digit mantissa. *)
Definition positive_normal (f : spec_float) (m : positive) (e : Z) : Prop :=
  f = S754_finite false m e /\ normal (Z.pos m).

(** A float that is neither NaN nor infinite. *)
Definition is_finite (x : float) : Prop :=
  match x with
  | S754_nan | S754_infinity _ => False
  | _ => True
  end.

(** ** The region validity filter *)

(** Width and height of the bounding box of a contour. *)
Definition box_w (cv : Library) (cont : Contour) : Z :=
  let '(_, _, w, _) := boundingRect cv cont in w.

Definition box_h (cv : Library) (cont : Contour) : Z :=
  let '(_, _, _, h) := boundingRect cv cont in h.

(** The region validity filter, in exact terms. *)
Definition accepted (cv : Library) (cont : Contour) (min_area : Z) : Prop :=
  (inject_Z min_area <= B2Q (contourArea cv cont))%Q /\
  box_h cv cont <> 0 /\
  5 * box_w cv cont <= 2 * box_h cv cont.

(** An image of [h] rows and [w] columns. *)
Definition blank (h w : nat) : Image := repeat (repeat (0, 0, 0) w) h.

End Spec.

(* ===================================================================== *)
(** * app.py: the upload handling of [/analyze]

    The handler from the request to the answer: the limit Flask puts on
    the body, the checks on the upload, the decoding of the file with PIL,
    [_pil_to_bgr], and then the part modelled in [App].  The functions of
    werkzeug, PIL, NumPy and OpenCV are an interface, each of them able to
    fail; [os.path.splitext] and [str.lower] are written out, as they
    behave on a POSIX system and on the ASCII names [secure_filename]
    returns. *)
(* ===================================================================== *)

Module Upload.
Import Py Cv Resit.

(** ** [str.lower] and [os.path.splitext] *)

Definition lower_char (c : ascii) : ascii :=
  let n := N_of_ascii c in
  if ((65 <=? n) && (n <=? 90))%N then ascii_of_N (n + 32) else c.

(** [s.lower()]. *)
Fixpoint lower (s : string) : string :=
  match s with
  | EmptyString => EmptyString
  | String c s' => String (lower_char c) (lower s')
  end.

(** [s.rfind(c)], scanning from index [i]: the last index of [c], or
    [found] when there is none from here on. *)
Fixpoint rfind_from (c : ascii) (s : string) (i found : Z) : Z :=
  match s with
  | EmptyString => found
  | String a s' => rfind_from c s' (i + 1) (if Ascii.eqb a c then i else found)
  end.

(** [s.rfind(c)]: -1 when [c] does not occur. *)
Definition rfind (c : ascii) (s : string) : Z := rfind_from c s 0 (-1).

(** The loop of [splitext] that skips leading dots:
    [while filenameIndex < dotIndex], for [steps] more rounds; [true] when
    it meets a character that is not a dot. *)
Fixpoint skip_dots (p : string) (filenameIndex : Z) (steps : nat) : bool :=
  match steps with
  | O => false
  | S steps' =>
      match String.get (Z.to_nat filenameIndex) p with
      | Some c =>
          if Ascii.eqb c "." then skip_dots p (filenameIndex + 1) steps'
          else true
      | None => true
      end
  end.

(** [os.path.splitext(p)]: [(root, ext)], the extension starting at the
    last dot of the last path component, unless that component has only
    dots before it. *)
Definition splitext (p : string) : string * string :=
  let sepIndex := rfind "/" p in
  let dotIndex := rfind "." p in
  if (dotIndex >? sepIndex)
     && skip_dots p (sepIndex + 1) (Z.to_nat (dotIndex - (sepIndex + 1)))
  then (substring 0 (Z.to_nat dotIndex) p,
        substring (Z.to_nat dotIndex) (String.length p - Z.to_nat dotIndex) p)
  else (p, "").

(** [app.config['UPLOAD_EXTENSIONS']]. *)
Definition UPLOAD_EXTENSIONS : list string := [".jpg"; ".jpeg"; ".png"; ".webp"].

(** [app.config['MAX_CONTENT_LENGTH']]: 10 MB. *)
Definition MAX_CONTENT_LENGTH : Z := 10 * 1024 * 1024.

(** ** The request *)

(** An uploaded file: its name as the client sent it, and its bytes. *)
Record FileStorage : Type := {
  filename : option string;
  stream : string
}.

(** The request: the length of its body in bytes, and [request.files],
    the uploads by field name. *)
Record Request : Type := {
  content_length : Z;
  files : list (string * FileStorage)
}.

(** [request.files[key]], [None] when [key not in request.files]. *)
Fixpoint files_get (fs : list (string * FileStorage)) (key : string)
  : option FileStorage :=
  match fs with
  | [] => None
  | (k, f) :: rest => if String.eqb k key then Some f else files_get rest key
  end.

(** [file.filename or 'upload.png']. *)
Definition filename_or_default (file : FileStorage) : string :=
  match filename file with
  | Some (String c s) => String c s
  | _ => "upload.png"
  end.

(** ** Arrays *)

Definition Quad : Type := (Z * Z * Z * Z)%type.

(** [np.array(image)] for an image of mode RGB or RGBA: rows of pixels
    with three or four channels. *)
Inductive ndarray : Type :=
| Channels3 (a : list (list Triple))
| Channels4 (a : list (list Quad)).

(** [arr.shape[-1]]. *)
Definition shape_last (arr : ndarray) : Z :=
  match arr with
  | Channels3 _ => 3
  | Channels4 _ => 4
  end.

(** [arr[:, :, :3]]. *)
Definition first3 (arr : ndarray) : ndarray :=
  match arr with
  | Channels3 a => Channels3 a
  | Channels4 a => Channels3 (map (map (fun q : Quad => fst q)) a)
  end.

(** ** Failures *)

(** Exceptions of PIL. *)
Inductive pil_exn : Type :=
| UnidentifiedImageError
| DecompressionBombError
| PilOSError
| PilValueError.

(** What the [try] block of the handler can catch. *)
Inductive failure : Type :=
| PilFailure (e : pil_exn)
| PipelineFailure (e : exn).

Inductive attempt (A : Type) : Type :=
| Got (a : A)
| Broke (f : failure).
Arguments Got {A} a.
Arguments Broke {A} f.

Definition abind {A B : Type} (r : attempt A) (k : A -> attempt B)
  : attempt B :=
  match r with
  | Got a => k a
  | Broke f => Broke f
  end.

(** ** The libraries around the handler

    An image of PIL is opened lazily: [Image.open] reads the header, and
    the pixels are decoded when they are first needed, by [convert] or by
    [np.array]; each of the three can fail on a damaged file. *)

Record Web : Type := {
  (** [werkzeug.utils.secure_filename]. *)
  secure_filename : string -> string;
  (** The images of PIL. *)
  PilImage : Type;
  (** [image.mode]. *)
  mode : PilImage -> string;
  (** [Image.open(io.BytesIO(data))]. *)
  open : string -> attempt PilImage;
  (** [image.convert("RGB")]. *)
  convert_RGB : PilImage -> attempt PilImage;
  (** [np.array(image)]. *)
  array : PilImage -> attempt ndarray;
  (** [cv.cvtColor(arr, cv.COLOR_RGB2BGR)]. *)
  cvtColor_RGB2BGR : ndarray -> attempt Image
}.

(** ** The answer *)

Inductive reply : Type :=
| TooLarge
| BadRequest (error : string)
| ServerError (cause : failure)
| Answer (bands : list App.BandJson) (value_ohms : option num).

(** The HTTP status of an answer. *)
Definition status (r : reply) : Z :=
  match r with
  | TooLarge => 413
  | BadRequest _ => 400
  | ServerError _ => 500
  | Answer _ _ => 200
  end.

Section Handler.
Context (web : Web) (cv : Library).

Definition _pil_to_bgr (image : PilImage web) : attempt Image :=
  abind (if negb (existsb (String.eqb (mode web image)) ["RGB"; "RGBA"])
         then convert_RGB web image
         else Got image) (fun image =>
  abind (array web image) (fun arr =>
  let arr := if shape_last arr =? 4 then first3 arr else arr in
  cvtColor_RGB2BGR web arr)).

(** [analyze]: the log holds the calls of the detection pipeline.  The
    first statement reads [request.files], which Flask refuses with 413
    for a body longer than [MAX_CONTENT_LENGTH]. *)
Definition analyze (request : Request) : list call * reply :=
  if content_length request >? MAX_CONTENT_LENGTH then ([], TooLarge)
  else
    match files_get (files request) "image" with
    | None => ([], BadRequest "No image uploaded")
    | Some file =>
        let filename := secure_filename web (filename_or_default file) in
        let ext := lower (snd (splitext filename)) in
        if negb (existsb (String.eqb ext) UPLOAD_EXTENSIONS) then
          ([], BadRequest "Unsupported file type")
        else
          match abind (open web (stream file)) _pil_to_bgr with
          | Broke f => ([], ServerError f)
          | Got bgr =>
              match App.analyze cv bgr with
              | (t, App.Failed e) => (t, ServerError (PipelineFailure e))
              | (t, App.Analysed bands value_ohms) =>
                  (t, Answer bands value_ohms)
              end
          end
    end.

End Handler.

End Upload.

(* ===================================================================== *)
(** * resit.py: the command-line program

    The block under [if __name__ == '__main__'], from the parsed arguments
    on. *)
(* ===================================================================== *)

Module Cli.
Import Py Cv.

(** The parsed arguments. *)
Record Args : Type := {
  image : string;
  debug : bool;
  max_dim : Z;
  adaptive : bool
}.

(** The defaults of the argument parser. *)
Definition default_Args : Args := {|
  image := "testresistor.jpg";
  debug := false;
  max_dim := 900;
  adaptive := false
|}.

(** The routines of OpenCV the program itself calls. *)
Record Host : Type := {
  (** [cv.imread]: [None] when the file cannot be read. *)
  imread : string -> option Image;
  waitKey : Z -> result Z;
  destroyAllWindows : result unit
}.

(** What the program does, in order. *)
Inductive event : Type :=
| Imread (path : string)
| Pipeline (c : call)
| WaitKey (delay : Z)
| DestroyAllWindows.

(** How the program ends. *)
Inductive ending : Type :=
| Finished
| SystemExit (message : string)
| Uncaught (e : exn).

(** [Config(debug=args.debug, max_dim=args.max_dim,
    use_adaptive=args.adaptive)]. *)
Definition config_of (args : Args) : Resit.Config := {|
  Resit.max_dim := max_dim args;
  Resit.blur := "gaussian";
  Resit.gaussian_ksize := 7;
  Resit.bilateral_d := 9;
  Resit.bilateral_sigma_color := 75;
  Resit.bilateral_sigma_space := 75;
  Resit.use_adaptive := adaptive args;
  Resit.adaptive_block_size := 51;
  Resit.adaptive_C := 2;
  Resit.morph_kernel := 3;
  Resit.min_area := 0;
  Resit.debug := debug args
|}.

Section Program.
Context (host : Host) (cv : Library).

Definition main (args : Args) : list event * ending :=
  match imread host (image args) with
  | None =>
      ([Imread (image args)],
       SystemExit ("Error: Could not load image " ++ image args ++ "."))
  | Some img =>
      let cfg := config_of args in
      match Resit.findBands cv img cfg with
      | (t, Raise e) => (Imread (image args) :: map Pipeline t, Uncaught e)
      | (t, Ok sortedbands) =>
          match Resit.displayResults cv sortedbands with
          | (t', Raise e) =>
              (Imread (image args) :: map Pipeline (t ++ t'), Uncaught e)
          | (t', Ok _) =>
              let done := Imread (image args) :: map Pipeline (t ++ t') in
              match waitKey host 0 with
              | Raise e => (done ++ [WaitKey 0], Uncaught e)
              | Ok _ =>
                  match destroyAllWindows host with
                  | Raise e =>
                      (done ++ [WaitKey 0; DestroyAllWindows], Uncaught e)
                  | Ok _ => (done ++ [WaitKey 0; DestroyAllWindows], Finished)
                  end
              end
          end
      end
  end.

End Program.

End Cli.

(* ===================================================================== *)
(** * Further notions used to state properties *)
(* ===================================================================== *)

Module Notions.
Import Py Cv Builtins Resit.

(** ** The command-line program *)

(** What [displayResults] prints for a list of bands carrying decimal
    digits. *)
Definition printed (bands : list Band) : list call :=
  if len_in_3_4_5 bands then [Call_print_resistance (Int (Spec.spec_ohms bands))]
  else [].

(** The last two statements of the program: wait for a key, then close
    the windows. *)
Definition closing (host : Cli.Host) : list Cli.event * Cli.ending :=
  match Cli.waitKey host 0 with
  | Raise e => ([Cli.WaitKey 0], Cli.Uncaught e)
  | Ok _ =>
      match Cli.destroyAllWindows host with
      | Raise e => ([Cli.WaitKey 0; Cli.DestroyAllWindows], Cli.Uncaught e)
      | Ok _ => ([Cli.WaitKey 0; Cli.DestroyAllWindows], Cli.Finished)
      end
  end.

(** A host whose files are all readable as one given image. *)
Definition host_with (img : Image) : Cli.Host := {|
  Cli.imread := fun _ => Some img;
  Cli.waitKey := fun _ => Ok 13;
  Cli.destroyAllWindows := Ok tt
|}.

(** ** The call log *)

(** Calls that draw, show or print. *)
Definition is_display (c : call) : bool :=
  match c with
  | Call_drawContours _ _ _ | Call_imshow _ | Call_print_timing
  | Call_print_resistance _ => true
  | _ => false
  end.

(** The openings of the colour masks. *)
Definition is_opening (c : call) : bool :=
  match c with
  | Call_morphologyEx MORPH_OPEN _ _ => true
  | _ => false
  end.

(** A configuration with its [debug] flag set to [b]. *)
Definition with_debug (b : bool) (cfg : Config) : Config := {|
  max_dim := max_dim cfg;
  blur := blur cfg;
  gaussian_ksize := gaussian_ksize cfg;
  bilateral_d := bilateral_d cfg;
  bilateral_sigma_color := bilateral_sigma_color cfg;
  bilateral_sigma_space := bilateral_sigma_space cfg;
  use_adaptive := use_adaptive cfg;
  adaptive_block_size := adaptive_block_size cfg;
  adaptive_C := adaptive_C cfg;
  morph_kernel := morph_kernel cfg;
  min_area := min_area cfg;
  debug := b
|}.

Definition silent (c : call) : Prop := is_display c = false.

Definition unopened (c : call) : Prop := is_opening c = false.

(** The log without the calls that draw, show or print. *)
Definition undisplayed (t : list call) : list call :=
  filter (fun c => negb (is_display c)) t.

(** ** The choice of the resistor body *)

(** The least area a contour must have to take part: [0.001 * h * w]. *)
Definition area_floor (h w : Z) : result float :=
  rbind (float_of_int h) (fun fh =>
  rbind (float_of_int w) (fun fw =>
  Ok (fmul (fmul f_0_001 fh) fw))).

(** The score of a contour: its area, times the aspect ratio of its
    bounding box (longer side over shorter side, the shorter taken as at
    least 1) when that ratio exceeds 1.5. *)
Definition roi_score (cv : Library) (c : Contour) : result float :=
  let '(x, y, ww, hh) := boundingRect cv c in
  rbind (float_of_int (Z.min ww hh)) (fun fmin =>
  rbind (float_of_int (Z.max ww hh)) (fun fmx =>
  rbind (fdiv fmx (fmax f_1_0 fmin)) (fun ar =>
  Ok (fmul (contourArea cv c) (if fgt ar f_1_5 then ar else f_1_0))))).

(** A contour that is large enough, with its score. *)
Definition contender (cv : Library) (h w : Z) (c : Contour) (s : float)
  : Prop :=
  exists floor,
    area_floor h w = Ok floor /\
    flt (contourArea cv c) floor = false /\
    roi_score cv c = Ok s.

(** The order in which doubles compare: by sign class, then by exponent,
    then by mantissa. *)
Definition rank (f : float) : Z * Z * Z :=
  match f with
  | S754_infinity true => (-2, 0, 0)
  | S754_finite true m e => (-1, - e, - Z.pos m)
  | S754_zero _ => (0, 0, 0)
  | S754_nan => (0, 0, 0)
  | S754_finite false m e => (1, e, Z.pos m)
  | S754_infinity false => (2, 0, 0)
  end.

Definition lex_lt (a b : Z * Z * Z) : Prop :=
  let '(a1, a2, a3) := a in
  let '(b1, b2, b3) := b in
  a1 < b1 \/ (a1 = b1 /\ (a2 < b2 \/ (a2 = b2 /\ a3 < b3))).

Definition not_nan (f : float) : Prop :=
  match f with S754_nan => False | _ => True end.

(** What the choice leaves behind after the contours [seen]: no contender
    scores more than the best score; the best contour, when there is one,
    is a contender with that score, above the initial -1.0, and every
    contender before it scores less. *)
Definition chosen (cv : Library) (h w : Z) (seen : list Contour)
  (best : option Contour) (score : float) : Prop :=
  (forall c s, In c seen -> contender cv h w c s -> fgt s score = false) /\
  match best with
  | None => score = f_neg_1_0
  | Some b =>
      fgt score f_neg_1_0 = true /\
      exists before after,
        seen = before ++ b :: after /\
        contender cv h w b score /\
        forall c s, In c before -> contender cv h w c s -> not_nan s ->
          flt s score = true
  end.

(** The filling of the chosen contour. *)
Definition is_fill (c : call) : bool :=
  match c with
  | Call_fillContours _ _ _ => true
  | _ => false
  end.

(** Two arrays with rows of the same lengths. *)
Definition same_shape {A B : Type} (a : list (list A)) (b : list (list B))
  : Prop :=
  map (@List.length A) a = map (@List.length B) b.

(** An array of 8-bit values. *)
Definition eight_bit (a : Plane) : Prop :=
  Forall (Forall (fun v => 0 <= v <= 255)) a.

(** ** Positions and colours *)

(** [p] is the first point of least x-coordinate of a contour. *)
Definition first_leftmost (cont : Contour) (p : Point) : Prop :=
  exists before after,
    cont = before ++ p :: after /\
    Forall (fun q => fst p < fst q) before /\
    Forall (fun q => fst p <= fst q) after.

(** The entries of the colour table with a given name. *)
Definition named (name : string) : list ColourEntry :=
  filter (fun clr => String.eqb (cname clr) name) Colour_Range.

(** A library that reports a given area for every contour. *)
Definition with_area (area : float) (cv : Library) : Library := {|
  resize := resize cv;
  bilateralFilter := bilateralFilter cv;
  GaussianBlur := GaussianBlur cv;
  cvtColor_gray := cvtColor_gray cv;
  cvtColor_hsv := cvtColor_hsv cv;
  adaptiveThreshold := adaptiveThreshold cv;
  threshold := threshold cv;
  Canny := Canny cv;
  getStructuringElement := getStructuringElement cv;
  morphologyEx := morphologyEx cv;
  findContours := findContours cv;
  contourArea := fun _ => area;
  boundingRect := boundingRect cv;
  fillContours := fillContours cv;
  drawContours := drawContours cv;
  imshow := imshow cv;
  imshow_mask := imshow_mask cv;
  libm_pow := libm_pow cv
|}.

(** ** Signs of doubles *)

(** The double [f] carries the sign bit [s]; a NaN carries any. *)
Definition signed (s : bool) (f : float) : Prop :=
  match f with
  | S754_zero s' | S754_infinity s' | S754_finite s' _ _ => s' = s
  | S754_nan => True
  end.

(** A configuration with its [max_dim] set to [m]. *)
Definition with_max_dim (m : Z) (cfg : Config) : Config := {|
  max_dim := m;
  blur := blur cfg;
  gaussian_ksize := gaussian_ksize cfg;
  bilateral_d := bilateral_d cfg;
  bilateral_sigma_color := bilateral_sigma_color cfg;
  bilateral_sigma_space := bilateral_sigma_space cfg;
  use_adaptive := use_adaptive cfg;
  adaptive_block_size := adaptive_block_size cfg;
  adaptive_C := adaptive_C cfg;
  morph_kernel := morph_kernel cfg;
  min_area := min_area cfg;
  debug := debug cfg
|}.

(** The opposite of a size. *)
Definition opposite (r : result (Z * Z)) : result (Z * Z) :=
  match r with
  | Ok (a, b) => Ok (- a, - b)
  | Raise e => Raise e
  end.

(** ** Upload names *)

(** [c in s]. *)
Fixpoint has (c : ascii) (s : string) : bool :=
  match s with
  | EmptyString => false
  | String a s' => Ascii.eqb a c || has c s'
  end.

(** A string of dots only, the empty one included. *)
Fixpoint only_dots (s : string) : bool :=
  match s with
  | EmptyString => true
  | String a s' => Ascii.eqb a "." && only_dots s'
  end.

(** The character [a] is the letter [b] in either case: it is [b], or [b]
    is one of the letters a to z and [a] is its capital. *)
Definition same_letter (a b : ascii) : Prop :=
  a = b \/
  ((97 <= N_of_ascii b <= 122)%N /\ (N_of_ascii a + 32 = N_of_ascii b)%N).

(** The text [e] spells the word [word], whatever the case of its
    letters. *)
Fixpoint spells (e word : string) : Prop :=
  match e, word with
  | EmptyString, EmptyString => True
  | String a e', String b word' => same_letter a b /\ spells e' word'
  | _, _ => False
  end.

(** A word without capital letters. *)
Fixpoint no_capital (word : string) : Prop :=
  match word with
  | EmptyString => True
  | String b word' =>
      (N_of_ascii b < 65 \/ 90 < N_of_ascii b)%N /\ no_capital word'
  end.

(** A name the upload check lets through: after the directories, a base
    name that is not made of dots only, then a dot and one of the four
    extensions, in any case of the letters. *)
Definition accepted_name (name : string) : Prop :=
  exists dir base e word,
    name = (dir ++ base ++ String "." e)%string /\
    (dir = "" \/ exists d, dir = (d ++ "/")%string) /\
    has "/" base = false /\
    only_dots base = false /\
    In word ["jpg"; "jpeg"; "png"; "webp"] /\
    spells e word.

(** The name of an upload that goes through [secure_filename]: the name
    sent with the file, [upload.png] when none or an empty one was sent. *)
Definition name_sent (file : Upload.FileStorage) : string :=
  match Upload.filename file with
  | None => "upload.png"
  | Some name => if String.eqb name "" then "upload.png" else name
  end.

(** The last component [base] of a path [dir ++ base] with an extension
    [e], the shape [splitext] splits. *)
Definition splits (dir base e : string) : Prop :=
  (dir = "" \/ exists d, dir = (d ++ "/")%string) /\
  has "/" base = false /\ only_dots base = false /\
  has "." e = false /\ has "/" e = false.

(** Red and blue change places. *)
Definition swapped (arr : Upload.ndarray) : Image :=
  match arr with
  | Upload.Channels3 a =>
      map (map (fun p : Triple => let '(r, g, b) := p in (b, g, r))) a
  | Upload.Channels4 a =>
      map (map (fun q : Upload.Quad => let '(r, g, b, _) := q in (b, g, r))) a
  end.

(** Libraries that leave the file name as it is and know no image
    format. *)
Definition plain_web : Upload.Web := {|
  Upload.secure_filename := fun name => name;
  Upload.PilImage := Upload.ndarray;
  Upload.mode := fun _ => "RGB";
  Upload.open := fun _ =>
    Upload.Broke (Upload.PilFailure Upload.UnidentifiedImageError);
  Upload.convert_RGB := fun image => Upload.Got image;
  Upload.array := fun image => Upload.Got image;
  Upload.cvtColor_RGB2BGR := fun arr => Upload.Got (swapped arr)
|}.

(** Libraries that leave the file name as it is and open every file as
    the same image, of mode RGB or RGBA, whose pixels are decoded without
    failure. *)
Definition web_with (pixels : Upload.ndarray) : Upload.Web := {|
  Upload.secure_filename := fun name => name;
  Upload.PilImage := Upload.ndarray;
  Upload.mode := fun image =>
    match image with
    | Upload.Channels3 _ => "RGB"
    | Upload.Channels4 _ => "RGBA"
    end;
  Upload.open := fun _ => Upload.Got pixels;
  Upload.convert_RGB := fun image => Upload.Got image;
  Upload.array := fun image => Upload.Got image;
  Upload.cvtColor_RGB2BGR := fun arr => Upload.Got (swapped arr)
|}.

(** The same, for a file that is cut short: it opens, and decoding its
    pixels fails. *)
Definition web_truncated (pixels : Upload.ndarray) : Upload.Web := {|
  Upload.secure_filename := fun name => name;
  Upload.PilImage := Upload.ndarray;
  Upload.mode := fun _ => "RGB";
  Upload.open := fun _ => Upload.Got pixels;
  Upload.convert_RGB := fun image => Upload.Got image;
  Upload.array := fun _ => Upload.Broke (Upload.PilFailure Upload.PilOSError);
  Upload.cvtColor_RGB2BGR := fun arr => Upload.Got (swapped arr)
|}.

(** A request with one upload under the field [image]. *)
Definition upload (name data : string) : Upload.Request :=
  {| Upload.content_length := Z.of_nat (String.length data);
     Upload.files :=
       [("image", {| Upload.filename := Some name; Upload.stream := data |})] |}.

(** A request of a given length that carries no file. *)
Definition no_upload (length : Z) : Upload.Request :=
  {| Upload.content_length := length; Upload.files := [] |}.

End Notions.

(* ===================================================================== *)
(** * Properties *)
(* ===================================================================== *)

(** ** Decimal strings *)

Module DecimalFacts.
Import Py Builtins Spec.

Lemma digit_cases (d : Z) :
  0 <= d <= 9 ->
  d = 0 \/ d = 1 \/ d = 2 \/ d = 3 \/ d = 4 \/
  d = 5 \/ d = 6 \/ d = 7 \/ d = 8 \/ d = 9.
Proof. lia. Qed.

Ltac each_digit H :=
  apply digit_cases in H;
  repeat (destruct H as [H | H]); subst.

Lemma str_digit (d : Z) :
  0 <= d <= 9 -> str d = String (digit_char d) EmptyString.
Proof. intros H; each_digit H; reflexivity. Qed.

Lemma digit_char_facts (d : Z) :
  0 <= d <= 9 ->
  is_digit (digit_char d) = true /\ is_space (digit_char d) = false /\
  digit_val (digit_char d) = d /\
  Ascii.eqb (digit_char d) "-" = false /\
  Ascii.eqb (digit_char d) "+" = false.
Proof. intros H; each_digit H; repeat split; reflexivity. Qed.

Lemma digits_text_cons (d : Z) (ds : list Z) :
  0 <= d <= 9 ->
  digits_text (d :: ds) = String (digit_char d) (digits_text ds).
Proof.
  intros H. unfold digits_text. simpl. rewrite (str_digit d H). reflexivity.
Qed.

Lemma parse_digits_text (ds : list Z) :
  Forall (fun d => 0 <= d <= 9) ds ->
  forall acc after,
    (ds <> [] \/ after = true) ->
    parse_digits acc after (digits_text ds)
    = Some (fold_left (fun a d => 10 * a + d) ds acc).
Proof.
  induction 1 as [| d ds Hd Hds IH]; intros acc after Hne.
  - destruct Hne as [Hne | ->]; [congruence | reflexivity].
  - rewrite (digits_text_cons d ds Hd). simpl.
    destruct (digit_char_facts d Hd) as (Hdig & _ & Hval & _).
    rewrite Hdig, Hval. apply IH. now right.
Qed.

Lemma rstrip_digits_text (ds : list Z) :
  Forall (fun d => 0 <= d <= 9) ds ->
  rstrip (digits_text ds) = digits_text ds.
Proof.
  induction 1 as [| d ds Hd Hds IH]; [reflexivity |].
  rewrite (digits_text_cons d ds Hd). simpl. rewrite IH.
  destruct (digit_char_facts d Hd) as (_ & Hsp & _).
  destruct (digits_text ds); [now rewrite Hsp | reflexivity].
Qed.

Lemma lstrip_digits_text (ds : list Z) :
  Forall (fun d => 0 <= d <= 9) ds ->
  lstrip (digits_text ds) = digits_text ds.
Proof.
  destruct 1 as [| d ds Hd Hds]; [reflexivity |].
  rewrite (digits_text_cons d ds Hd). simpl.
  destruct (digit_char_facts d Hd) as (_ & Hsp & _).
  now rewrite Hsp.
Qed.

(** [int] reads back the number that the digits write. *)
Lemma int_of_digits_text (ds : list Z) :
  Forall (fun d => 0 <= d <= 9) ds ->
  ds <> [] ->
  int_of_str (digits_text ds) = Ok (decimal_value ds).
Proof.
  intros Hds Hne. unfold int_of_str.
  rewrite (lstrip_digits_text ds Hds), (rstrip_digits_text ds Hds).
  pose proof (parse_digits_text ds Hds 0 false (or_introl Hne)) as Hp.
  destruct Hds as [| d ds Hd Hds]; [congruence |].
  rewrite (digits_text_cons d ds Hd) in *.
  destruct (digit_char_facts d Hd) as (_ & _ & _ & Hm & Hp').
  rewrite Hm, Hp', Hp. reflexivity.
Qed.

End DecimalFacts.

(** ** Decoding a list of bands *)

Module DecodeFacts.
Import Py Cv Builtins Resit App DecimalFacts Spec.

Lemma candidate_digit (b : Band) : candidate b -> digit_in_range b.
Proof.
  intros (clr & Hin & _ & Hd & _). unfold digit_in_range. rewrite Hd.
  simpl in Hin.
  repeat (destruct Hin as [<- | Hin]; [simpl; lia |]). contradiction.
Qed.

Lemma len_in_3_4_5_spec {A : Type} (xs : list A) :
  len_in_3_4_5 xs = true <->
  (List.length xs = 3 \/ List.length xs = 4 \/ List.length xs = 5)%nat.
Proof. unfold len_in_3_4_5. lia. Qed.

Lemma last_item_last (bands : list Band) :
  bands <> [] ->
  exists b, last_item bands = Ok b /\ bdigit b = last_digit bands.
Proof.
  unfold last_digit.
  induction bands as [| a [| b bands] IH]; intros Hne; [congruence | |].
  - exists a. split; reflexivity.
  - destruct IH as (c & Hc & Hd); [congruence |].
    exists c. split; [exact Hc | exact Hd].
Qed.

Lemma removelast_in_range (bands : list Band) :
  Forall digit_in_range bands ->
  Forall (fun d => 0 <= d <= 9) (map bdigit (removelast bands)).
Proof.
  induction 1 as [| b [| c bands] Hb Hbs IH]; simpl; constructor; auto.
Qed.

Lemma last_digit_in_range (bands : list Band) :
  Forall digit_in_range bands -> bands <> [] ->
  0 <= last_digit bands <= 9.
Proof.
  unfold last_digit.
  induction 1 as [| b [| c bands] Hb Hbs IH]; intros Hne;
    [congruence | exact Hb | apply IH; congruence].
Qed.

(** The digits the decoder writes, as text. *)
Lemma strvalue_text (bands : list Band) :
  join (map (fun b => str (bdigit b)) (removelast bands))
  = digits_text (map bdigit (removelast bands)).
Proof. unfold digits_text. now rewrite map_map. Qed.

(** The expression [int(digits) * (10 ** bands[-1][3])] on bands whose
    digits are decimal digits. *)
Lemma resistance_value (cv : Library) (bands : list Band) :
  (2 <= List.length bands)%nat ->
  Forall digit_in_range bands ->
  resistance cv bands = Ok (Int (spec_ohms bands)).
Proof.
  intros Hlen Hr. unfold resistance, spec_ohms.
  rewrite strvalue_text.
  assert (Hne : bands <> []) by (destruct bands; simpl in *; [lia | congruence]).
  assert (Hne' : map bdigit (removelast bands) <> []).
  { destruct bands as [| a [| b bands]]; simpl in *; [lia | lia | congruence]. }
  rewrite (int_of_digits_text _ (removelast_in_range bands Hr) Hne').
  destruct (last_item_last bands Hne) as (b & Hb & Hd).
  simpl. rewrite Hb. simpl. rewrite Hd.
  pose proof (last_digit_in_range bands Hr Hne) as Hl.
  unfold pow10. destruct (0 <=? last_digit bands) eqn:E; [| lia].
  reflexivity.
Qed.

Lemma value_ohms_resistance (cv : Library) (bands : list Band) :
  value_ohms cv bands =
  if len_in_3_4_5 bands then
    match resistance cv bands with Ok v => Some v | Raise _ => None end
  else None.
Proof. reflexivity. Qed.

(** C1.  For a list of 3, 4 or 5 bands carrying decimal digits, both
    decoders give the integer written by the digits of all bands but the
    last, times ten to the power of the last band's digit: [analyze]
    returns it as [value_ohms] and [displayResults] prints it.  With digits
    2, 2, 0, 3 that is 220000. *)
Theorem decoding_correct (cv : Library) (bands : list Band) :
  (List.length bands = 3 \/ List.length bands = 4 \/ List.length bands = 5)%nat ->
  Forall digit_in_range bands ->
  value_ohms cv bands = Some (Int (spec_ohms bands)) /\
  displayResults cv bands
    = ([Call_print_resistance (Int (spec_ohms bands))], Ok tt) /\
  (map bdigit bands = [2; 2; 0; 3] -> spec_ohms bands = 220000).
Proof.
  intros Hlen Hr.
  assert (H2 : (2 <= List.length bands)%nat) by lia.
  apply len_in_3_4_5_spec in Hlen.
  repeat split.
  - rewrite value_ohms_resistance, Hlen, (resistance_value cv bands H2 Hr).
    reflexivity.
  - unfold displayResults. rewrite Hlen, (resistance_value cv bands H2 Hr).
    reflexivity.
  - intros Hd.
    destruct bands as [| a [| b [| c [| d [| e bands]]]]]; try discriminate.
    simpl in Hd. injection Hd as Ha Hb Hc Hd.
    unfold spec_ohms, last_digit, decimal_value. simpl.
    rewrite Ha, Hb, Hc, Hd. reflexivity.
Qed.

Lemma decoding_correct_witness :
  let bands := [band_with 10 2; band_with 20 2; band_with 30 0; band_with 40 3] in
  value_ohms Synthetic.library bands = Some (Int 220000) /\
  displayResults Synthetic.library bands
    = ([Call_print_resistance (Int 220000)], Ok tt) /\
  (map bdigit bands = [2; 2; 0; 3] -> spec_ohms bands = 220000).
Proof.
  apply (decoding_correct Synthetic.library
           [band_with 10 2; band_with 20 2; band_with 30 0; band_with 40 3]).
  - right; left; reflexivity.
  - repeat constructor; unfold digit_in_range; simpl; lia.
Defined.

End DecodeFacts.

(** ** The colour table *)

Module TableFacts.
Import Py Cv Resit Spec.

(** C3.  The colour table has exactly ten entries; their digits are
    0, 1, ..., 9, so every digit from 0 to 9 occurs exactly once; and no hue
    lies both in red's primary hue range and in the second (wraparound)
    range, so no pixel matches both sets of bounds. *)
Theorem taxonomy_invariant :
  List.length Colour_Range = 10%nat /\
  map Resit.digit Colour_Range = [0; 1; 2; 3; 4; 5; 6; 7; 8; 9] /\
  (forall d, 0 <= d <= 9 ->
     count_occ Z.eq_dec (map Resit.digit Colour_Range) d = 1%nat) /\
  (forall clr hue, In clr Colour_Range -> cname clr = "RED" ->
     ~ (in_hue_range hue (lower clr) (upper clr) /\
        in_hue_range hue Red_top_low Red_top_high)) /\
  (forall clr p, In clr Colour_Range -> cname clr = "RED" ->
     in_range p (lower clr) (upper clr) = true ->
     in_range p Red_top_low Red_top_high = false).
Proof.
  split; [reflexivity |]. split; [reflexivity |]. split; [| split].
  - intros d Hd. apply DecimalFacts.digit_cases in Hd.
    repeat (destruct Hd as [Hd | Hd]); subst; reflexivity.
  - intros clr hue Hin Hname. simpl in Hin.
    repeat (destruct Hin as [<- | Hin]; [try discriminate Hname |]);
      [| contradiction].
    unfold in_hue_range, hue_of. simpl. lia.
  - intros clr p Hin Hname. simpl in Hin.
    repeat (destruct Hin as [<- | Hin]; [try discriminate Hname |]);
      [| contradiction].
    destruct p as [[p0 p1] p2]. unfold in_range, Red_top_low, Red_top_high.
    simpl. intros H.
    destruct (160 <=? p0) eqn:E; [| reflexivity].
    apply Z.leb_le in E.
    repeat rewrite andb_true_iff in H.
    destruct H as (((((_ & H) & _) & _) & _) & _).
    apply Z.leb_le in H. lia.
Qed.

End TableFacts.

(** ** Band counts other than 3, 4 or 5, and the guarded parse *)

Module AssemblerFacts.
Import Py Cv Builtins Resit App DecimalFacts DecodeFacts Spec.

(** The records [analyze] builds list the bands. *)
Lemma band_json_lists (bands : list Band) :
  lists_bands (map band_json bands) bands.
Proof.
  unfold lists_bands. induction bands as [| b bands IH]; constructor;
    [repeat split | exact IH].
Qed.

(** C4.  When [findBands] returns a number of bands other than 3, 4 or 5
    (none at all included), [analyze] does not fail: it answers with one
    record per band, in the order of the bands, each with the position,
    the colour name and the digit of its band, and with no resistance
    value; [displayResults] prints nothing and raises nothing. *)
Theorem other_band_counts (cv : Library) (bgr : Image)
  (t : list call) (bands : list Band) :
  findBands cv bgr default_Config = (t, Ok bands) ->
  ~ (List.length bands = 3 \/ List.length bands = 4 \/ List.length bands = 5)%nat ->
  (exists records,
     analyze cv bgr = (t, Analysed records None) /\
     lists_bands records bands /\
     List.length records = List.length bands) /\
  displayResults cv bands = ([], Ok tt).
Proof.
  intros Hf Hlen.
  assert (Hl : len_in_3_4_5 bands = false).
  { destruct (len_in_3_4_5 bands) eqn:E; [| reflexivity].
    apply len_in_3_4_5_spec in E. contradiction. }
  split.
  - exists (map band_json bands). split; [| split].
    + unfold analyze, respond, value_ohms. now rewrite Hf, Hl.
    + apply band_json_lists.
    + apply length_map.
  - unfold displayResults. now rewrite Hl.
Qed.

Lemma other_band_counts_witness :
  exists t bands,
    map (fun b => (bx b, by_ b, bname b, bdigit b)) bands
      = [(0, 0, "RED", 2); (2, 0, "BLACK", 0)] /\
    (exists records,
       analyze Synthetic.library Synthetic.img_two
       = (t, Analysed records None) /\
       lists_bands records bands /\
       List.length records = List.length bands) /\
    displayResults Synthetic.library bands = ([], Ok tt).
Proof.
  destruct (findBands Synthetic.library Synthetic.img_two default_Config)
    as [t r] eqn:Hf.
  assert (Hr : exists bands, r = Ok bands /\
            map (fun b => (bx b, by_ b, bname b, bdigit b)) bands
              = [(0, 0, "RED", 2); (2, 0, "BLACK", 0)]).
  { vm_compute in Hf. injection Hf as _ <-. eexists. split; reflexivity. }
  destruct Hr as (bands & -> & Hb).
  exists t, bands. split; [exact Hb |].
  apply (other_band_counts Synthetic.library Synthetic.img_two t bands Hf).
  apply (f_equal (@List.length _)) in Hb. rewrite length_map in Hb.
  rewrite Hb. simpl. lia.
Defined.

(** No band at all: an empty list and no value. *)
Example no_bands :
  snd (analyze Synthetic.library Synthetic.img_blank) = Analysed [] None.
Proof. vm_compute. reflexivity. Qed.

(** The guard of [analyze]: whatever exception the decoding expression
    raises, the answer carries every band and no value. *)
Lemma value_ohms_guard (cv : Library) (bands : list Band) (e : exn) :
  resistance cv bands = Raise e -> value_ohms cv bands = None.
Proof.
  intros H. rewrite value_ohms_resistance, H.
  now destruct (len_in_3_4_5 bands).
Qed.

(** C7 (amended).  In [analyze], if parsing the concatenated digits fails,
    the exception is caught: the answer is not a failure, it has no
    resistance value and it still lists the bands, one record per band in
    the order of the bands, each with the position, the colour name and
    the digit of its band. *)
Theorem parse_failure_guarded (cv : Library) (bands : list Band) (e : exn) :
  int_of_str (join (map (fun b => str (bdigit b)) (removelast bands)))
    = Raise e ->
  value_ohms cv bands = None /\
  exists records,
    respond cv bands = Analysed records None /\
    lists_bands records bands /\
    List.length records = List.length bands.
Proof.
  intros H.
  assert (Hv : value_ohms cv bands = None).
  { apply (value_ohms_guard cv bands e). unfold resistance. now rewrite H. }
  split; [exact Hv |].
  exists (map band_json bands). split; [| split].
  - unfold respond. now rewrite Hv.
  - apply band_json_lists.
  - apply length_map.
Qed.

Lemma parse_failure_guarded_witness :
  let bands := [band_with 10 1; band_with 20 (-2); band_with 30 3] in
  value_ohms Synthetic.library bands = None /\
  exists records,
    respond Synthetic.library bands = Analysed records None /\
    lists_bands records bands /\
    List.length records = List.length bands.
Proof.
  apply (parse_failure_guarded Synthetic.library
           [band_with 10 1; band_with 20 (-2); band_with 30 3] ValueError).
  reflexivity.
Defined.

(** C7, as stated, fails for [displayResults]: on three bands whose digits
    write the text [1-2] the parse fails and, with no guard around it, the
    exception leaves the function. *)
Lemma parse_failure_unguarded_in_displayResults :
  let bands := [band_with 10 1; band_with 20 (-2); band_with 30 3] in
  int_of_str (join (map (fun b => str (bdigit b)) (removelast bands)))
    = Raise ValueError /\
  outcome (displayResults Synthetic.library bands) = Raise ValueError /\
  ~ (exists t, displayResults Synthetic.library bands = (t, Ok tt)).
Proof.
  repeat split. intros (t & H). vm_compute in H. discriminate H.
Qed.

(** With digits from the colour table the parse cannot fail, in either
    decoder. *)
Lemma parse_never_fails (bands : list Band) :
  (2 <= List.length bands)%nat ->
  Forall candidate bands ->
  exists n,
    int_of_str (join (map (fun b => str (bdigit b)) (removelast bands))) = Ok n.
Proof.
  intros Hlen Hc. exists (decimal_value (map bdigit (removelast bands))).
  rewrite strvalue_text. apply int_of_digits_text.
  - apply removelast_in_range.
    eapply Forall_impl; [| exact Hc]. apply candidate_digit.
  - destruct bands as [| a [| b bands]]; simpl in *; [lia | lia | congruence].
Qed.

End AssemblerFacts.

(** ** Computations with a call log *)

Module MonadFacts.
Import Py Cv.

Lemma bind_Ok {A B : Type} (m : M A) (k : A -> M B) (t : list call) (b : B) :
  bind m k = (t, Ok b) ->
  exists t1 a t2, m = (t1, Ok a) /\ k a = (t2, Ok b) /\ t = t1 ++ t2.
Proof.
  destruct m as [t1 [a | e]]; simpl; [| discriminate].
  destruct (k a) as [t2 r] eqn:Hk. intros [= <- ->].
  exists t1, a, t2. auto.
Qed.

Lemma lift_Ok {A : Type} (r : result A) (t : list call) (a : A) :
  lift r = (t, Ok a) -> r = Ok a /\ t = [].
Proof. unfold lift. intros [= <- ->]. auto. Qed.

Lemma invoke_Ok {A : Type} (c : call) (r : result A) (t : list call) (a : A) :
  invoke c r = (t, Ok a) -> r = Ok a /\ t = [c].
Proof. unfold invoke. intros [= <- ->]. auto. Qed.

Lemma ret_Ok {A : Type} (a b : A) (t : list call) :
  ret a = (t, Ok b) -> a = b /\ t = [].
Proof. unfold ret. intros [= <- ->]. auto. Qed.

Lemma trace_bind {A B : Type} (m : M A) (k : A -> M B) :
  trace (bind m k) =
  trace m ++ match outcome m with Ok a => trace (k a) | Raise _ => [] end.
Proof.
  destruct m as [t [a | e]]; simpl.
  - destruct (k a); reflexivity.
  - now rewrite app_nil_r.
Qed.

(** Break a successful run into the successful runs of its steps. *)
Ltac run_inv H :=
  match type of H with
  | bind _ _ = (_, Ok _) =>
      let t1 := fresh "t" in let a := fresh "a" in let t2 := fresh "t" in
      let H1 := fresh "Hrun" in let H2 := fresh "Hrun" in
      let Ht := fresh "Ht" in
      apply bind_Ok in H; destruct H as (t1 & a & t2 & H1 & H2 & Ht);
      run_inv H1; run_inv H2
  | lift _ = (_, Ok _) =>
      let Ht := fresh "Ht" in apply lift_Ok in H; destruct H as [H Ht]
  | invoke _ _ = (_, Ok _) =>
      let Ht := fresh "Ht" in apply invoke_Ok in H; destruct H as [H Ht]
  | ret _ = (_, Ok _) =>
      let Ht := fresh "Ht" in apply ret_Ok in H; destruct H as [H Ht]
  | _ => idtac
  end.

End MonadFacts.

(** ** Sorting by key *)

Module SortFacts.
Import Builtins Spec.

Section ByKey.
Context {A : Type} (key : A -> Z).

Lemma insert_by_perm (a : A) (xs : list A) :
  Permutation (a :: xs) (insert_by key a xs).
Proof.
  induction xs as [| b xs IH]; simpl; [apply Permutation_refl |].
  destruct (key b <? key a).
  - eapply perm_trans; [apply perm_swap |]. now apply perm_skip.
  - apply Permutation_refl.
Qed.

Lemma insert_by_hd (a : A) (xs : list A) (c : A) :
  key_le key c a -> HdRel (key_le key) c xs -> HdRel (key_le key) c (insert_by key a xs).
Proof.
  intros Hca Hhd. destruct xs as [| b xs]; simpl.
  - now constructor.
  - destruct (key b <? key a); constructor; [now inversion Hhd | exact Hca].
Qed.

Lemma insert_by_sorted (a : A) (xs : list A) :
  Sorted (key_le key) xs -> Sorted (key_le key) (insert_by key a xs).
Proof.
  induction 1 as [| b xs Hs IH Hhd]; simpl.
  - repeat constructor.
  - destruct (key b <? key a) eqn:E.
    + constructor; [exact IH |].
      apply insert_by_hd; [| exact Hhd].
      apply Z.ltb_lt in E. unfold key_le. lia.
    + constructor; [now constructor |].
      constructor. apply Z.ltb_ge in E. exact E.
Qed.

Lemma insert_by_with_key (k : Z) (a : A) (xs : list A) :
  with_key key k (insert_by key a xs) = with_key key k (a :: xs).
Proof.
  unfold with_key. induction xs as [| b xs IH]; [reflexivity |].
  simpl in *. destruct (key b <? key a) eqn:E; [| reflexivity].
  simpl. rewrite IH. apply Z.ltb_lt in E.
  destruct (key a =? k) eqn:Ea; [| reflexivity].
  destruct (key b =? k) eqn:Eb; [| reflexivity].
  apply Z.eqb_eq in Ea, Eb. lia.
Qed.

Lemma sorted_perm (xs : list A) : Permutation xs (sorted key xs).
Proof.
  induction xs as [| a xs IH]; simpl; [constructor |].
  eapply perm_trans; [| apply insert_by_perm]. now constructor.
Qed.

Lemma sorted_Sorted (xs : list A) : Sorted (key_le key) (sorted key xs).
Proof.
  induction xs as [| a xs IH]; simpl; [constructor |].
  now apply insert_by_sorted.
Qed.

(** Stability: elements with equal keys keep their relative order. *)
Lemma sorted_stable (k : Z) (xs : list A) :
  with_key key k (sorted key xs) = with_key key k xs.
Proof.
  induction xs as [| a xs IH]; [reflexivity |].
  simpl sorted. rewrite insert_by_with_key.
  unfold with_key in *. simpl. now rewrite IH.
Qed.

End ByKey.

End SortFacts.

Module SortUnique.
Import Builtins SortFacts Spec.

Section ByKey.
Context {A : Type} (key : A -> Z).

Lemma key_le_trans : RelationClasses.Transitive (key_le key).
Proof. intros a b c. unfold key_le. lia. Qed.

Lemma head_least (a : A) (xs : list A) (b : A) :
  Sorted (key_le key) (a :: xs) -> In b (a :: xs) -> key a <= key b.
Proof.
  intros Hs [<- | Hin]; [lia |].
  pose proof (Sorted_extends key_le_trans Hs) as Hall.
  rewrite Forall_forall in Hall. exact (Hall b Hin).
Qed.

Lemma with_key_head (a : A) (xs : list A) :
  with_key key (key a) (a :: xs) = a :: with_key key (key a) xs.
Proof. unfold with_key. simpl. now rewrite Z.eqb_refl. Qed.

Lemma in_with_key (k : Z) (a : A) (xs : list A) :
  In a (with_key key k xs) -> In a xs.
Proof. unfold with_key. intros H. apply filter_In in H. tauto. Qed.

(** A sorted list is determined by its elements of each key, taken in
    order: whatever stable sort Python runs, it returns the list computed
    by [sorted]. *)
Lemma stable_sorted_unique (ys zs : list A) :
  Sorted (key_le key) ys -> Sorted (key_le key) zs ->
  (forall k, with_key key k ys = with_key key k zs) ->
  ys = zs.
Proof.
  revert zs. induction ys as [| y ys IH]; intros [| z zs] Hy Hz Hk.
  - reflexivity.
  - specialize (Hk (key z)). rewrite with_key_head in Hk. discriminate Hk.
  - specialize (Hk (key y)). rewrite with_key_head in Hk. discriminate Hk.
  - assert (Hyz : key y = key z).
    { pose proof (Hk (key y)) as H1. rewrite with_key_head in H1.
      pose proof (Hk (key z)) as H2. rewrite with_key_head in H2.
      assert (In y (z :: zs)).
      { apply (in_with_key (key y)). rewrite <- H1. now left. }
      assert (In z (y :: ys)).
      { apply (in_with_key (key z)). rewrite H2. now left. }
      pose proof (head_least z zs y Hz H).
      pose proof (head_least y ys z Hy H0). lia. }
    pose proof (Hk (key y)) as H1. rewrite with_key_head in H1.
    rewrite Hyz in H1 at 2. rewrite with_key_head in H1.
    injection H1 as -> H1. f_equal.
    apply IH; [now inversion Hy | now inversion Hz |].
    intros k. specialize (Hk k). unfold with_key in *. simpl in Hk.
    destruct (key z =? k); [now injection Hk | exact Hk].
Qed.

Lemma sorted_is_the_stable_sort (xs ys : list A) :
  Sorted (key_le key) ys ->
  (forall k, with_key key k ys = with_key key k xs) ->
  ys = sorted key xs.
Proof.
  intros Hs Hk. apply stable_sorted_unique; [exact Hs | apply sorted_Sorted |].
  intros k. rewrite Hk. symmetry. apply sorted_stable.
Qed.

End ByKey.

End SortUnique.

(** ** The order of the bands returned by [findBands] *)

Module OrderFacts.
Import Py Cv Builtins Resit MonadFacts SortFacts Spec.

Section WithLibrary.
Context (cv : Library).

Lemma collect_band_Ok (m : Z) (clr : ColourEntry) (cs : list Contour) :
  forall acc t r,
    for_each (collect_band cv m clr) acc cs = (t, Ok r) ->
    r = acc ++ bands_of cv m clr cs.
Proof.
  induction cs as [| c cs IH]; intros acc t r H; simpl in H.
  - run_inv H. subst. simpl. now rewrite app_nil_r.
  - apply bind_Ok in H. destruct H as (t1 & acc' & t2 & Hc & Hrest & _).
    apply IH in Hrest. subst r. unfold collect_band in Hc.
    apply bind_Ok in Hc. destruct Hc as (t3 & ok & t4 & Hv & Hc & _).
    apply lift_Ok in Hv. destruct Hv as [Hv _].
    unfold bands_of at 2. simpl. rewrite Hv.
    destruct ok; cbv beta iota delta [negb] in Hc.
    + apply bind_Ok in Hc. destruct Hc as (t5 & lmp & t6 & Hl & Hc & _).
      apply lift_Ok in Hl. destruct Hl as [Hl _]. rewrite Hl.
      apply ret_Ok in Hc. destruct Hc as [<- _]. unfold bands_of.
      now rewrite <- app_assoc.
    + apply ret_Ok in Hc. destruct Hc as [<- _]. reflexivity.
Qed.

Lemma colour_step_Ok (cfg : Config) (hsv : Image)
  (thresh kernel roi : Plane) (m : Z)
  (st st' : list Band * Image) (clr : ColourEntry) (t : list call) :
  colour_step cv cfg hsv thresh (inRange hsv Red_top_low Red_top_high)
    kernel roi m st clr = (t, Ok st') ->
  exists cs,
    contours_of cv cfg hsv thresh kernel roi clr = Ok cs /\
    fst st' = fst st ++ bands_of cv m clr cs.
Proof.
  destruct st as [bandpos img1]. unfold colour_step. intros H.
  apply bind_Ok in H. destruct H as (? & coloured & ? & H1 & H & _).
  apply lift_Ok in H1. destruct H1 as [H1 _].
  apply bind_Ok in H. destruct H as (? & lit & ? & H2 & H & _).
  apply lift_Ok in H2. destruct H2 as [H2 _].
  apply bind_Ok in H. destruct H as (? & inside & ? & H3 & H & _).
  apply lift_Ok in H3. destruct H3 as [H3 _].
  apply bind_Ok in H. destruct H as (? & mask & ? & H4 & H & _).
  apply bind_Ok in H. destruct H as (? & contours & ? & H5 & H & _).
  apply invoke_Ok in H5. destruct H5 as [H5 _].
  apply bind_Ok in H. destruct H as (? & bp & ? & Hc & H & _).
  apply collect_band_Ok in Hc.
  apply bind_Ok in H. destruct H as (? & ? & ? & _ & H & _).
  apply ret_Ok in H. destruct H as [<- _].
  exists contours. split; [| exact Hc].
  unfold contours_of, searched_mask.
  rewrite H1. cbn [rbind]. rewrite H2. cbn [rbind]. rewrite H3. cbn [rbind].
  destruct (morph_kernel cfg >? 1).
  - apply invoke_Ok in H4. destruct H4 as [H4 _]. rewrite H4. exact H5.
  - apply ret_Ok in H4. destruct H4 as [<- _]. exact H5.
Qed.

Lemma colour_loop_Ok (cfg : Config) (hsv : Image)
  (thresh kernel roi : Plane) (m : Z) (clrs : list ColourEntry) :
  forall st st' t,
    for_each (colour_step cv cfg hsv thresh
                (inRange hsv Red_top_low Red_top_high) kernel roi m) st clrs
    = (t, Ok st') ->
    exists css,
      Forall2 (fun clr cs =>
                 contours_of cv cfg hsv thresh kernel roi clr = Ok cs)
        clrs css /\
      fst st' = fst st ++ flat_map (fun p => bands_of cv m (fst p) (snd p))
                                   (combine clrs css).
Proof.
  induction clrs as [| clr clrs IH]; intros st st' t H; simpl in H.
  - run_inv H. subst. exists []. split; [constructor |].
    simpl. now rewrite app_nil_r.
  - apply bind_Ok in H. destruct H as (t1 & st1 & t2 & Hs & Hrest & _).
    apply colour_step_Ok in Hs. destruct Hs as (cs & Hcs & Hs).
    apply IH in Hrest. destruct Hrest as (css & Hall & Hrest).
    exists (cs :: css). split; [now constructor |].
    rewrite Hrest, Hs. simpl. now rewrite <- app_assoc.
Qed.

(** A run of the detector that returns has gone through the stages of
    [detected]. *)
Lemma detectBands_order (img : Image) (cfg : Config)
  (t : list call) (bandpos : list Band) :
  detectBands cv img cfg = (t, Ok bandpos) ->
  exists min_area css, detected cv img cfg min_area css bandpos.
Proof.
  unfold detectBands. intros H.
  apply bind_Ok in H.
  destruct H as (t0 & [[[img1 gray] hsv] thresh] & ? & Hp & H & _).
  destruct (shape img1) as [h w] eqn:Hshape.
  apply bind_Ok in H. destruct H as (? & m & ? & Hm & H & _).
  apply lift_Ok in Hm. destruct Hm as [Hm _].
  apply bind_Ok in H. destruct H as (? & kernel & ? & Hk & H & _).
  apply invoke_Ok in Hk. destruct Hk as [Hk _].
  apply bind_Ok in H. destruct H as (t1 & roi & ? & Hroi & H & _).
  apply bind_Ok in H. destruct H as (? & st & ? & Hloop & H & _).
  apply colour_loop_Ok in Hloop. destruct Hloop as (css & Hall & Hst).
  apply bind_Ok in H. destruct H as (? & ? & ? & _ & H & _).
  apply bind_Ok in H. destruct H as (? & ? & ? & _ & H & _).
  run_inv H. subst bandpos.
  exists m, css, img1, hsv, thresh, kernel, roi. split; [| split].
  - exists t0, gray, t1. rewrite Hshape. cbn [fst snd]. auto.
  - exact Hall.
  - split; [| exact Hst]. symmetry. exact (Forall2_length Hall).
Qed.

End WithLibrary.

(** C2.  Whenever [findBands] returns, the list is sorted by
    non-decreasing x-coordinate, and it is the detection-order list
    rearranged stably: bands with the same x-coordinate appear in detection
    order.  Detection order is the order of the colour table and, within a
    colour, the order in which [findContours] returned the contours of the
    mask of that colour. *)
Theorem findBands_sorted_stable (cv : Library) (img : Image) (cfg : Config)
  (t : list call) (bands : list Band) :
  findBands cv img cfg = (t, Ok bands) ->
  Sorted (key_le bx) bands /\
  exists min_area css bandpos,
    detected cv img cfg min_area css bandpos /\
    Permutation bandpos bands /\
    (forall x, with_key bx x bands = with_key bx x bandpos) /\
    (forall x,
       with_key bx x bands
       = flat_map (fun p => with_key bx x (bands_of cv min_area (fst p) (snd p)))
           (combine Colour_Range css)).
Proof.
  unfold findBands. intros H.
  apply bind_Ok in H. destruct H as (t1 & bandpos & t2 & Hd & H & Ht).
  run_inv H. subst. split; [apply sorted_Sorted |].
  destruct (detectBands_order cv img cfg t1 bandpos Hd) as (m & css & Hdet).
  exists m, css, bandpos. split; [exact Hdet |]. split; [apply sorted_perm |].
  split; [intros x; apply sorted_stable |].
  intros x. rewrite sorted_stable.
  destruct Hdet as (_ & _ & _ & _ & _ & _ & _ & _ & ->).
  unfold with_key. generalize (combine Colour_Range css). intros l.
  induction l as [| p ps IH]; cbn [flat_map]; [reflexivity |].
  now rewrite filter_app, IH.
Qed.

Lemma findBands_sorted_stable_witness :
  exists t bands,
    map (fun b => (bx b, by_ b, bname b)) bands
      = [(0, 0, "RED"); (0, 0, "ORANGE"); (1, 0, "RED"); (1, 1, "RED")] /\
    findBands Synthetic.library img_column default_Config = (t, Ok bands) /\
    Sorted (key_le bx) bands /\
    exists min_area css bandpos,
      detected Synthetic.library img_column default_Config min_area css
        bandpos /\
      Permutation bandpos bands /\
      (forall x, with_key bx x bands = with_key bx x bandpos) /\
      (forall x,
         with_key bx x bands
         = flat_map (fun p => with_key bx x
                                (bands_of Synthetic.library min_area
                                   (fst p) (snd p)))
             (combine Colour_Range css)).
Proof.
  destruct (findBands Synthetic.library img_column default_Config)
    as [t r] eqn:Hf.
  assert (Hr : exists bands, r = Ok bands /\
            map (fun b => (bx b, by_ b, bname b)) bands
              = [(0, 0, "RED"); (0, 0, "ORANGE"); (1, 0, "RED");
                 (1, 1, "RED")]).
  { vm_compute in Hf. injection Hf as _ <-. eexists. split; reflexivity. }
  destruct Hr as (bands & -> & Hb).
  exists t, bands. split; [exact Hb |]. split; [reflexivity |].
  exact (findBands_sorted_stable Synthetic.library img_column default_Config
           t bands Hf).
Defined.

(** The stable rearrangement of a tie between two colours. *)
Example tie_between_colours :
  option_map (map (fun b => (bx b, bname b)))
    (match outcome (findBands Synthetic.library img_tie default_Config) with
     | Ok bands => Some bands
     | Raise _ => None
     end)
  = Some [(0, "RED"); (0, "ORANGE"); (1, "BLACK")].
Proof. vm_compute. reflexivity. Qed.

End OrderFacts.

(** ** Properties of every logged call *)

Module TraceFacts.
Import Py Cv MonadFacts.

Section Every.
Context (P : call -> Prop).

Lemma every_ret {A : Type} (a : A) : Forall P (trace (ret a)).
Proof. constructor. Qed.

Lemma every_lift {A : Type} (r : result A) : Forall P (trace (lift r)).
Proof. constructor. Qed.

Lemma every_invoke {A : Type} (c : call) (r : result A) :
  P c -> Forall P (trace (invoke c r)).
Proof. intros H. repeat constructor. exact H. Qed.

Lemma every_bind {A B : Type} (m : M A) (k : A -> M B) :
  Forall P (trace m) -> (forall a, Forall P (trace (k a))) ->
  Forall P (trace (bind m k)).
Proof.
  intros Hm Hk. rewrite trace_bind. apply Forall_app. split; [exact Hm |].
  destruct (outcome m); [apply Hk | constructor].
Qed.

Lemma every_bind_outcome {A B : Type} (m : M A) (k : A -> M B) :
  Forall P (trace m) ->
  (forall a, outcome m = Ok a -> Forall P (trace (k a))) ->
  Forall P (trace (bind m k)).
Proof.
  intros Hm Hk. rewrite trace_bind. apply Forall_app. split; [exact Hm |].
  destruct (outcome m) as [a | e]; [now apply Hk | constructor].
Qed.

Lemma every_for_each {A S : Type} (body : S -> A -> M S) (xs : list A) :
  (forall s x, Forall P (trace (body s x))) ->
  forall s, Forall P (trace (for_each body s xs)).
Proof.
  intros Hb. induction xs as [| x xs IH]; intros s.
  - constructor.
  - change (for_each body s (x :: xs))
      with (bind (body s x) (fun s' => for_each body s' xs)).
    apply every_bind; [apply Hb | exact IH].
Qed.

Lemma every_when (c : bool) (body : M unit) :
  Forall P (trace body) -> Forall P (trace (when c body)).
Proof. intros H. destruct c; [exact H | apply every_ret]. Qed.

End Every.

(** Walk through a computation, leaving one goal per logged call. *)
Ltac every_call :=
  repeat first
    [ apply every_ret
    | apply every_lift
    | apply every_invoke
    | apply every_when
    | apply every_bind; [| intros ? ]
    | apply every_for_each; intros ? ?
    | match goal with
      | |- Forall _ (trace (if ?c then _ else _)) => destruct c
      | |- Forall _ (trace (match ?x with _ => _ end)) => destruct x
      | |- Forall _ (trace (let '(_, _) := ?x in _)) => destruct x
      end ].

End TraceFacts.

(** ** Kernel and block sizes *)

Module SizeFacts.
Import Py Cv Resit MonadFacts TraceFacts Spec.

Lemma coerced_valid (size : Z) : valid_size (coerced size).
Proof.
  unfold valid_size, coerced.
  assert (Hodd : Z.odd (Z.lor size 1) = true).
  { rewrite <- Z.bit0_odd, Z.lor_spec. apply orb_true_r. }
  split; [| lia].
  destruct (Z.max_spec 3 (Z.lor size 1)) as [[_ ->] | [_ ->]];
    [exact Hodd | reflexivity].
Qed.

Lemma preprocess_sizes (cv : Library) (img : Image) (cfg : Config) :
  Forall (size_ok cfg) (trace (_preprocess cv img cfg)).
Proof.
  unfold _preprocess, downscaled.
  every_call; simpl; auto;
    repeat split; try reflexivity; apply (coerced_valid _).
Qed.

Lemma roi_sizes (cv : Library) (gray th : Plane) (cfg : Config) :
  Forall (size_ok cfg) (trace (_resistor_roi_mask cv gray th cfg)).
Proof.
  unfold _resistor_roi_mask, roi_step.
  every_call; simpl; auto.
Qed.

Lemma colour_step_sizes (cv : Library) (cfg : Config) (hsv : Image)
  (thresh pre kernel roi : Plane) (m : Z)
  (st : list Band * Image) (clr : ColourEntry) :
  Forall (size_ok cfg)
    (trace (colour_step cv cfg hsv thresh pre kernel roi m st clr)).
Proof.
  unfold colour_step, collect_band.
  every_call; simpl; auto.
Qed.

(** C10.  For every configuration, whatever integers (even, below 3,
    negative) [gaussian_ksize] and [adaptive_block_size] hold, every
    Gaussian blur and every adaptive threshold that [findBands] invokes
    gets the size [max(3, size | 1)], and that number is odd and at
    least 3. *)
Theorem sizes_coerced (cv : Library) (img : Image) (cfg : Config) :
  Forall (size_ok cfg) (trace (findBands cv img cfg)) /\
  Forall (size_ok cfg) (trace (_preprocess cv img cfg)) /\
  (forall size, valid_size (coerced size)).
Proof.
  split; [| split; [apply preprocess_sizes | apply coerced_valid]].
  unfold findBands, detectBands.
  apply every_bind; [| intros; apply every_ret].
  apply every_bind; [apply preprocess_sizes |].
  intros [[[img1 gray] hsv] thresh]. destruct (shape img1) as [h w].
  apply every_bind; [apply every_lift | intros m].
  apply every_bind; [apply every_invoke; exact I | intros kernel].
  apply every_bind; [apply roi_sizes | intros roi].
  apply every_bind.
  { apply every_for_each. intros st clr. apply colour_step_sizes. }
  intros st. every_call; exact I.
Qed.

(** Runs with sizes that would be invalid as configured. *)
Example sizes_coerced_even_and_negative :
  let cfg := {| max_dim := 900; blur := "gaussian"; gaussian_ksize := -4;
                bilateral_d := 9; bilateral_sigma_color := 75;
                bilateral_sigma_space := 75; use_adaptive := true;
                adaptive_block_size := 50; adaptive_C := 2;
                morph_kernel := 3; min_area := 0; debug := false |} in
  trace (_preprocess Synthetic.library Synthetic.img_two cfg)
  = [Call_GaussianBlur (3, 3) 0; Call_cvtColor COLOR_BGR2GRAY;
     Call_cvtColor COLOR_BGR2HSV;
     Call_adaptiveThreshold 255 ADAPTIVE_THRESH_MEAN_C 0 51 2].
Proof. reflexivity. Qed.

End SizeFacts.

(** ** The closing step of the region-of-interest extractor *)

Module RoiFacts.
Import Py Cv Resit MonadFacts TraceFacts Spec.

Lemma roi_closing_calls (cv : Library) (gray th : Plane) (cfg : Config) :
  Forall (closing_ok cv (roi_kernel_size cfg))
         (trace (_resistor_roi_mask cv gray th cfg)).
Proof.
  unfold _resistor_roi_mask. destruct (shape gray) as [h w].
  apply every_bind; [apply every_invoke; exact I | intros edges].
  apply every_bind; [apply every_lift | intros merged].
  apply every_bind_outcome; [apply every_invoke; now split |].
  intros kernel Hk.
  apply every_bind; [apply every_invoke; repeat split; exact Hk |].
  intros closed. unfold roi_step. every_call; simpl; auto.
Qed.

Lemma roi_closing_happens (cv : Library) (gray th : Plane) (cfg : Config)
  (t : list call) (mask : Plane) :
  _resistor_roi_mask cv gray th cfg = (t, Ok mask) ->
  exists kernel,
    getStructuringElement cv MORPH_RECT
      (roi_kernel_size cfg, roi_kernel_size cfg) = Ok kernel /\
    In (Call_morphologyEx MORPH_CLOSE kernel 2) t.
Proof.
  unfold _resistor_roi_mask. destruct (shape gray) as [h w]. intros H.
  apply bind_Ok in H. destruct H as (t1 & edges & t2 & _ & H & ->).
  apply bind_Ok in H. destruct H as (t3 & merged & t4 & _ & H & ->).
  apply bind_Ok in H. destruct H as (t5 & kernel & t6 & Hk & H & ->).
  apply invoke_Ok in Hk. destruct Hk as [Hk _].
  apply bind_Ok in H. destruct H as (t7 & closed & t8 & Hc & H & ->).
  apply invoke_Ok in Hc. destruct Hc as [_ ->].
  exists kernel. split; [exact Hk |].
  do 3 (apply in_or_app; right). apply in_or_app. left. now left.
Qed.

(** C6 (amended).  The closing uses a square structuring element of side
    [max(3, morph_kernel)], for two iterations: every structuring element
    the extractor requests is a rectangle of that size, every morphological
    operation it runs is a closing with that element and two iterations,
    and a run that returns a mask has performed the closing.  The side is
    [morph_kernel] itself exactly when [morph_kernel] is at least 3. *)
Theorem roi_closing (cv : Library) (gray th : Plane) (cfg : Config) :
  let k := Z.max 3 (morph_kernel cfg) in
  Forall (closing_ok cv k) (trace (_resistor_roi_mask cv gray th cfg)) /\
  (forall mask, outcome (_resistor_roi_mask cv gray th cfg) = Ok mask ->
     exists kernel,
       getStructuringElement cv MORPH_RECT (k, k) = Ok kernel /\
       In (Call_morphologyEx MORPH_CLOSE kernel 2)
          (trace (_resistor_roi_mask cv gray th cfg))) /\
  (k = morph_kernel cfg <-> 3 <= morph_kernel cfg).
Proof.
  split; [apply roi_closing_calls | split; [| lia]].
  intros mask Hm.
  destruct (_resistor_roi_mask cv gray th cfg) as [t r] eqn:Hr.
  simpl in Hm. subst r. exact (roi_closing_happens cv gray th cfg t mask Hr).
Qed.

(** C6, as stated, fails for [morph_kernel] 1 (and 2): the closing runs
    with a 3 x 3 element, not a 1 x 1 one. *)
Lemma roi_closing_not_configured_size :
  let cfg := with_morph_kernel 1 in
  let plane := [[0; 0]; [0; 0]] in
  1 <= morph_kernel cfg /\
  filter is_morphology
    (trace (_resistor_roi_mask Synthetic.library plane plane cfg))
  = [Call_getStructuringElement MORPH_RECT (3, 3);
     Call_morphologyEx MORPH_CLOSE (ones 3) 2] /\
  getStructuringElement Synthetic.library MORPH_RECT (1, 1) = Ok (ones 1) /\
  ones 3 <> ones 1.
Proof.
  repeat split; try reflexivity; try (simpl; lia). discriminate.
Qed.

End RoiFacts.

(** ** The colour masks *)

Module MaskFacts.
Import Py Cv Resit Spec.

Lemma pixel_at_map {A B : Type} (f : A -> B) (a : list (list A)) (i j : nat) :
  pixel_at (map (map f) a) i j = option_map f (pixel_at a i j).
Proof.
  unfold pixel_at. rewrite nth_error_map.
  destruct (nth_error a i) as [row |]; simpl; [| reflexivity].
  apply nth_error_map.
Qed.

Lemma zip_with_map {A B C D : Type} (f : B -> C -> D) (g : A -> B) (h : A -> C)
  (xs : list A) :
  zip_with f (map g xs) (map h xs) = Ok (map (fun x => f (g x) (h x)) xs).
Proof.
  induction xs as [| x xs IH]; simpl; [reflexivity |]. now rewrite IH.
Qed.

Lemma zip_rows_map {A B C D : Type} (f : B -> C -> D) (g : A -> B) (h : A -> C)
  (a : list (list A)) :
  zip_rows f (map (map g) a) (map (map h) a)
  = Ok (map (map (fun x => f (g x) (h x))) a).
Proof.
  induction a as [| row a IH]; simpl; [reflexivity |].
  now rewrite zip_with_map, IH.
Qed.

(** The union of two range masks over the same image. *)
Lemma bitwise_or_inRange (hsv : Image) (lo1 hi1 lo2 hi2 : Triple) :
  bitwise_or (inRange hsv lo1 hi1) (inRange hsv lo2 hi2)
  = Ok (map (map (fun p =>
          mask_value (in_range p lo1 hi1 || in_range p lo2 hi2))) hsv).
Proof.
  unfold bitwise_or, inRange. rewrite zip_rows_map. f_equal.
  apply map_ext. intros row. apply map_ext. intros p.
  now destruct (in_range p lo1 hi1), (in_range p lo2 hi2).
Qed.

Lemma inRange_pixel (hsv : Image) (lo hi : Triple) (i j : nat) :
  pixel_at (inRange hsv lo hi) i j = option_map (single lo hi) (pixel_at hsv i j).
Proof. unfold inRange. now rewrite pixel_at_map. Qed.

(** C8.  The mask of the RED entry is the union (bitwise or) of the masks
    of its own bounds and of the second red range, so a pixel is lit when it
    lies in either range, in particular when it lies in the second range
    only; the mask of any other entry is the mask of its own bounds
    alone. *)
Theorem red_mask_is_union (hsv : Image) :
  let pre_red_mask := inRange hsv Red_top_low Red_top_high in
  (forall clr, cname clr = "RED" ->
     exists mask,
       colour_mask hsv pre_red_mask clr = Ok mask /\
       bitwise_or pre_red_mask (inRange hsv (lower clr) (upper clr)) = Ok mask /\
       forall i j p, pixel_at hsv i j = Some p ->
         pixel_at mask i j
         = Some (mask_value (in_range p Red_top_low Red_top_high
                             || in_range p (lower clr) (upper clr))) /\
         (in_range p Red_top_low Red_top_high = true ->
          in_range p (lower clr) (upper clr) = false ->
          pixel_at mask i j = Some 255)) /\
  (forall clr, cname clr <> "RED" ->
     colour_mask hsv pre_red_mask clr
     = Ok (inRange hsv (lower clr) (upper clr)) /\
     forall i j p, pixel_at hsv i j = Some p ->
       pixel_at (inRange hsv (lower clr) (upper clr)) i j
       = Some (mask_value (in_range p (lower clr) (upper clr)))) /\
  (exists red, filter (fun clr => String.eqb (cname clr) "RED") Colour_Range
               = [red]).
Proof.
  intros pre. split; [| split].
  - intros clr Hred. unfold colour_mask.
    apply String.eqb_eq in Hred. rewrite Hred. unfold pre.
    rewrite bitwise_or_inRange. eexists. split; [reflexivity |].
    split; [reflexivity |]. intros i j p Hp.
    rewrite pixel_at_map, Hp. simpl. split; [reflexivity |].
    intros -> ->. reflexivity.
  - intros clr Hne. unfold colour_mask.
    apply String.eqb_neq in Hne. rewrite Hne. split; [reflexivity |].
    intros i j p Hp. now rewrite inRange_pixel, Hp.
  - eexists. reflexivity.
Qed.

(** A pixel of hue 170 is red through the second range only. *)
Example red_wraparound_pixel :
  in_range Synthetic.px_red Red_top_low Red_top_high = true /\
  in_range Synthetic.px_red (0, 30, 80) (10, 255, 200) = false /\
  map (fun b => bname b)
      match outcome (findBands Synthetic.library [[Synthetic.px_red]]
                       default_Config) with
      | Ok bands => bands
      | Raise _ => []
      end
  = ["RED"].
Proof. repeat split; vm_compute; reflexivity. Qed.

End MaskFacts.

(** ** Rounding of doubles *)

Module RoundingFacts.
Import Py Spec.

Lemma digits2_pos_size (p : positive) : digits2_pos p = Pos.size p.
Proof. induction p; simpl; congruence. Qed.

Lemma digits_bounds (p : positive) :
  2 ^ (Z.pos (digits2_pos p) - 1) <= Z.pos p < 2 ^ Z.pos (digits2_pos p).
Proof.
  rewrite digits2_pos_size. split.
  - pose proof (Pos.size_le p) as H.
    apply Pos2Z.pos_le_pos in H. rewrite Pos2Z.inj_pow in H.
    replace (Z.pos (Pos.size p)) with (Z.succ (Z.pos (Pos.size p) - 1)) in H by lia.
    rewrite Z.pow_succ_r in H by lia.
    change (Z.pos p~0) with (2 * Z.pos p) in H. lia.
  - pose proof (Pos.size_gt p) as H.
    apply Pos2Z.pos_lt_pos in H. now rewrite Pos2Z.inj_pow in H.
Qed.

Lemma digits_unique (p : positive) (d : Z) :
  2 ^ (d - 1) <= Z.pos p < 2 ^ d -> Z.pos (digits2_pos p) = d.
Proof.
  intros [Hlo Hhi]. pose proof (digits_bounds p) as [Dlo Dhi].
  set (D := Z.pos (digits2_pos p)) in *.
  assert (0 < D) by (unfold D; lia).
  assert (0 < d).
  { destruct (Z_lt_le_dec 0 d) as [|Hd]; [assumption |].
    assert (2 ^ d <= 2 ^ 0) by (apply Z.pow_le_mono_r; lia).
    simpl in *. lia. }
  assert (D - 1 < d).
  { apply (Z.pow_lt_mono_r_iff 2); lia. }
  assert (d - 1 < D).
  { apply (Z.pow_lt_mono_r_iff 2); lia. }
  lia.
Qed.

(** ** Iterated halving with round and sticky bits *)

Lemma iter_pos_nat {A : Type} (f : A -> A) (p : positive) (x : A) :
  SpecFloat.iter_pos f p x = Nat.iter (Pos.to_nat p) f x.
Proof.
  revert x. induction p as [p IH | p IH |]; intros x; cbn [SpecFloat.iter_pos].
  - rewrite !IH, Pos2Nat.inj_xI, <- Nat.iter_succ_r, <- Nat.iter_add.
    f_equal. lia.
  - rewrite !IH, Pos2Nat.inj_xO, <- Nat.iter_add. f_equal. lia.
  - reflexivity.
Qed.

Lemma shr_1_spec (m : Z) (r s : bool) :
  0 <= m ->
  shr_1 {| shr_m := m; shr_r := r; shr_s := s |}
  = {| shr_m := m / 2; shr_r := Z.odd m; shr_s := orb r s |}.
Proof.
  intros Hm. rewrite <- Z.div2_div.
  destruct m as [| [p | p |] | p]; try reflexivity. lia.
Qed.

Lemma shr_1_located (mrs : shr_record) (num den : Z) :
  located mrs num den -> located (shr_1 mrs) num (2 * den).
Proof.
  destruct mrs as [m r s]. unfold located. cbn [shr_m shr_r shr_s].
  intros (Hm & Hden & Hf & Hr & Hs).
  rewrite (shr_1_spec m r s Hm). cbn [shr_m shr_r shr_s].
  assert (Hs' : orb r s = true <-> num - m * den <> 0).
  { rewrite orb_true_iff. split.
    - intros [H | H]; [apply Hr in H | apply Hs in H]; lia.
    - intros H. destruct (Z_le_gt_dec den (2 * (num - m * den))) as [Hh | Hh].
      + left. now apply Hr.
      + right. apply Hs. lia. }
  pose proof (Z.div2_odd m) as Hdiv. rewrite Z.div2_div in Hdiv.
  set (q := m / 2) in *. clearbody q.
  clear Hr Hs.
  destruct (Z.odd m); cbn [Z.b2z] in Hdiv; subst m.
  - split; [| split; [| split; [| split]]];
      try (rewrite Hs'); clear Hs'; lia.
  - split; [| split; [| split; [| split]]];
      try (rewrite Hs'); clear Hs'; lia.
Qed.

Lemma shr_1_m (mrs : shr_record) :
  0 <= shr_m mrs -> shr_m (shr_1 mrs) = shr_m mrs / 2.
Proof.
  destruct mrs as [m r s]. cbn [shr_m]. intros Hm.
  now rewrite (shr_1_spec m r s Hm).
Qed.

Lemma iter_shr_1 (n : nat) (mrs : shr_record) (num den : Z) :
  located mrs num den ->
  located (Nat.iter n shr_1 mrs) num (2 ^ Z.of_nat n * den) /\
  shr_m (Nat.iter n shr_1 mrs) = shr_m mrs / 2 ^ Z.of_nat n.
Proof.
  intros H. induction n as [| n [IHl IHm]].
  - change (Nat.iter 0 shr_1 mrs) with mrs.
    change (2 ^ Z.of_nat 0) with 1.
    rewrite Z.mul_1_l, Z.div_1_r. now split.
  - change (Nat.iter (S n) shr_1 mrs) with (shr_1 (Nat.iter n shr_1 mrs)).
    rewrite Nat2Z.inj_succ, Z.pow_succ_r by lia. split.
    + rewrite <- Z.mul_assoc. now apply shr_1_located.
    + rewrite shr_1_m, IHm.
      * rewrite Z.div_div by lia. f_equal. lia.
      * destruct IHl as (Hm & _). exact Hm.
Qed.

Lemma record_of_loc_located (m : Z) (l : location) (r d : Z) :
  0 <= m -> 0 <= r < d -> loc_matches l r d ->
  located (shr_record_of_loc m l) (m * d + r) d.
Proof.
  intros Hm Hr Hl. unfold located.
  destruct l as [| []]; cbn [loc_matches shr_record_of_loc shr_m shr_r shr_s] in *;
    (split; [| split; [| split; [| split]]]);
    try lia; split; intros H; try discriminate; try reflexivity; lia.
Qed.

Lemma round_located (mrs : shr_record) (num den : Z) :
  located mrs num den ->
  let m' := round_nearest_even (shr_m mrs) (loc_of_shr_record mrs) in
  (m' = shr_m mrs \/ m' = shr_m mrs + 1) /\
  Z.abs (2 * m' * den - 2 * num) <= den.
Proof.
  destruct mrs as [m r s]. unfold located.
  cbn [shr_m shr_r shr_s loc_of_shr_record].
  intros (Hm & Hden & Hf & Hr & Hs).
  destruct r, s; cbn [loc_of_shr_record round_nearest_even].
  - assert (den <= 2 * (num - m * den)) by now apply Hr.
    assert (2 * (num - m * den) <> den) by now apply Hs.
    clear Hr Hs. split; [now right | lia].
  - assert (den <= 2 * (num - m * den)) by now apply Hr.
    assert (~ (num - m * den <> 0 /\ 2 * (num - m * den) <> den)).
    { intros H'. apply Hs in H'. discriminate. }
    clear Hr Hs. destruct (Z.even m); split; auto; lia.
  - assert (~ den <= 2 * (num - m * den)).
    { intros H'. apply Hr in H'. discriminate. }
    clear Hr Hs. split; [now left | lia].
  - assert (~ den <= 2 * (num - m * den)).
    { intros H'. apply Hr in H'. discriminate. }
    clear Hr Hs. split; [now left | lia].
Qed.

(** ** [binary_round_aux] on values in the normal range *)

Lemma shr_nat (mrs : shr_record) (e n : Z) :
  0 <= n ->
  shr mrs e n = (Nat.iter (Z.to_nat n) shr_1 mrs, e + n).
Proof.
  intros Hn. destruct n as [| p | p]; [| | lia].
  - cbn [shr Z.to_nat]. unfold Nat.iter. cbn [nat_rect]. now rewrite Z.add_0_r.
  - cbn [shr Z.to_nat]. now rewrite iter_pos_nat.
Qed.

Lemma fexp_normal (x : Z) :
  -1074 <= x - 53 -> fexp prec emax x = x - 53.
Proof. unfold fexp, emin, prec, emax. lia. Qed.

Lemma shr_fexp_spec (m : positive) (e : Z) (l : location) :
  53 <= Z.pos (digits2_pos m) ->
  -1074 <= e + Z.pos (digits2_pos m) - 53 ->
  shr_fexp prec emax (Z.pos m) e l
  = (Nat.iter (Z.to_nat (Z.pos (digits2_pos m) - 53)) shr_1
       (shr_record_of_loc (Z.pos m) l),
     e + (Z.pos (digits2_pos m) - 53)).
Proof.
  intros Hd He. unfold shr_fexp. cbn [Zdigits2].
  rewrite fexp_normal by lia.
  replace (Z.pos (digits2_pos m) + e - 53 - e)
    with (Z.pos (digits2_pos m) - 53) by lia.
  apply shr_nat. lia.
Qed.

Lemma pow2_53 : 2 ^ 53 = 9007199254740992.
Proof. reflexivity. Qed.

Lemma pow2_52 : 2 ^ 52 = 4503599627370496.
Proof. reflexivity. Qed.

Lemma bra_correct (M : positive) (e : Z) (l : location) (r d : Z) :
  let dM := Z.pos (digits2_pos M) in
  53 <= dM -> 0 <= r < d -> loc_matches l r d ->
  -1074 <= e + dM - 53 -> e + dM - 52 <= 971 ->
  exists mz k,
    binary_round_aux prec emax false (Z.pos M) e l
    = S754_finite false mz (e + k) /\
    normal (Z.pos mz) /\ (k = dM - 53 \/ k = dM - 52) /\
    Z.abs (2 * (Z.pos mz * 2 ^ k) * d - 2 * (Z.pos M * d + r)) <= 2 ^ k * d.
Proof.
  intros dM HdM Hr Hl Hlo Hhi. unfold binary_round_aux.
  rewrite (shr_fexp_spec M e l HdM Hlo). fold dM.
  set (n := dM - 53) in *.
  assert (Hn : 0 <= n) by (unfold n; lia).
  pose proof (record_of_loc_located (Z.pos M) l r d ltac:(lia) Hr Hl) as Hloc.
  apply (iter_shr_1 (Z.to_nat n)) in Hloc. rewrite Z2Nat.id in Hloc by exact Hn.
  destruct Hloc as [Hloc Hm1].
  set (mrs := Nat.iter (Z.to_nat n) shr_1 (shr_record_of_loc (Z.pos M) l)) in *.
  assert (Hm0 : shr_m (shr_record_of_loc (Z.pos M) l) = Z.pos M)
    by (destruct l as [| []]; reflexivity).
  rewrite Hm0 in Hm1. clear Hm0.
  pose proof (digits_bounds M) as [HMlo HMhi]. fold dM in HMlo, HMhi.
  assert (Hp : 0 < 2 ^ n) by (apply Z.pow_pos_nonneg; lia).
  assert (Hnorm : normal (shr_m mrs)).
  { rewrite Hm1. unfold normal.
    replace dM with (53 + n) in HMhi by (unfold n; lia).
    replace (dM - 1) with (52 + n) in HMlo by (unfold n; lia).
    rewrite Z.pow_add_r in HMlo, HMhi by lia. split.
    - apply Z.div_le_lower_bound; lia.
    - apply Z.div_lt_upper_bound; lia. }
  pose proof (round_located mrs _ _ Hloc) as [Hm2 Herr].
  cbv zeta in Hm2, Herr.
  set (m2 := round_nearest_even (shr_m mrs) (loc_of_shr_record mrs)) in *.
  clearbody m2. clear Hloc. unfold normal in Hnorm.
  rewrite pow2_52, pow2_53 in Hnorm.
  destruct (Z.eq_dec m2 9007199254740992) as [E | E].
  - (* the rounding carried into a 54th digit *)
    subst m2. exists 4503599627370496%positive, (n + 1).
    unfold shr_fexp. cbn [Zdigits2 digits2_pos Pos.succ].
    rewrite fexp_normal by (unfold n; lia).
    replace (54 + (e + n) - 53 - (e + n)) with 1 by lia.
    cbn [shr SpecFloat.iter_pos shr_record_of_loc shr_1 shr_m].
    replace (e + n + 1 <=? emax - prec) with true
      by (symmetry; apply Z.leb_le; unfold emax, prec, n; lia).
    split; [f_equal; lia |]. split; [unfold normal; rewrite pow2_52, pow2_53; lia |].
    split; [right; unfold n; lia |].
    rewrite Z.pow_add_r by lia. change (2 ^ 1) with 2. lia.
  - destruct m2 as [| p2 | p2]; try lia.
    exists p2, n.
    assert (Hd2 : Z.pos (digits2_pos p2) = 53).
    { apply digits_unique. rewrite pow2_53. change (2 ^ (53 - 1)) with (2 ^ 52).
      rewrite pow2_52. lia. }
    rewrite shr_fexp_spec by (rewrite Hd2; unfold n; lia).
    rewrite Hd2. change (Z.to_nat (53 - 53)) with 0%nat.
    cbn [shr_record_of_loc]. unfold Nat.iter. cbn [nat_rect shr_m].
    replace (e + n + (53 - 53) <=? emax - prec) with true
      by (symmetry; apply Z.leb_le; unfold emax, prec, n; lia).
    split; [f_equal; lia |]. split; [unfold normal; rewrite pow2_52, pow2_53; lia |].
    split; [left; reflexivity |]. lia.
Qed.

(** An exact value that already has 53 digits is returned as it is. *)
Lemma bra_exact (M : positive) (e : Z) :
  normal (Z.pos M) -> -1074 <= e <= 971 ->
  binary_round_aux prec emax false (Z.pos M) e loc_Exact
  = S754_finite false M e.
Proof.
  intros HM He.
  assert (Hd : Z.pos (digits2_pos M) = 53).
  { apply digits_unique. exact HM. }
  unfold binary_round_aux.
  rewrite shr_fexp_spec by (rewrite Hd; lia).
  rewrite Hd. change (Z.to_nat (53 - 53)) with 0%nat.
  unfold Nat.iter. cbn [nat_rect shr_record_of_loc shr_m loc_of_shr_record
                        round_nearest_even].
  rewrite shr_fexp_spec by (rewrite Hd; lia).
  rewrite Hd. change (Z.to_nat (53 - 53)) with 0%nat.
  unfold Nat.iter. cbn [nat_rect shr_record_of_loc shr_m].
  replace (e + (53 - 53) + (53 - 53) <=? emax - prec) with true
    by (symmetry; apply Z.leb_le; unfold emax, prec; lia).
  f_equal. lia.
Qed.

Lemma iter_xO (p : positive) (k : positive) :
  Z.pos (Pos.iter xO p k) = Z.pos p * 2 ^ Z.pos k.
Proof.
  revert p. induction k using Pos.peano_ind; intros p.
  - cbn [Pos.iter]. change (Z.pos p~0) with (2 * Z.pos p).
    change (2 ^ 1) with 2. lia.
  - rewrite Pos.iter_succ, Pos2Z.inj_succ, Z.pow_succ_r by lia.
    change (Z.pos (Pos.iter xO p k)~0) with (2 * Z.pos (Pos.iter xO p k)).
    rewrite IHk. lia.
Qed.

(** The double nearest to a positive integer below [2 ^ 53] is the
    integer itself, written with a 53-digit mantissa. *)
Lemma normalize_small (n : positive) :
  Z.pos n < 2 ^ 53 ->
  exists m,
    binary_normalize prec emax (Z.pos n) 0 false
    = S754_finite false m (Z.pos (digits2_pos n) - 53) /\
    normal (Z.pos m) /\
    Z.pos m = Z.pos n * 2 ^ (53 - Z.pos (digits2_pos n)).
Proof.
  intros Hn. pose proof (digits_bounds n) as [Hlo Hhi].
  set (d := Z.pos (digits2_pos n)) in *.
  assert (Hd : 1 <= d <= 53).
  { split; [unfold d; lia |].
    destruct (Z_le_gt_dec d 53) as [| Hgt]; [assumption |].
    assert (2 ^ 53 <= 2 ^ (d - 1)) by (apply Z.pow_le_mono_r; lia). lia. }
  cbn [binary_normalize]. unfold binary_round. fold d.
  rewrite Z.add_0_r, fexp_normal by lia. unfold shl_align.
  destruct (Z.eq_dec d 53) as [E | E].
  - rewrite E in *. change (53 - 53 - 0) with 0. cbv iota beta.
    exists n. change (2 ^ (53 - 53)) with 1. rewrite Z.mul_1_r.
    assert (normal (Z.pos n)) by (unfold normal; split; [exact Hlo | exact Hn]).
    split; [| split; [assumption | reflexivity]].
    apply bra_exact; [assumption | lia].
  - destruct (d - 53 - 0) as [| q | q] eqn:Eq; try lia.
    assert (Hq : Z.pos q = 53 - d) by lia.
    exists (Pos.iter xO n q).
    assert (Hv : Z.pos (Pos.iter xO n q) = Z.pos n * 2 ^ (53 - d)).
    { rewrite iter_xO. now rewrite Hq. }
    assert (Hnorm : normal (Z.pos (Pos.iter xO n q))).
    { rewrite Hv. unfold normal.
      assert (H52 : 2 ^ 52 = 2 ^ (d - 1) * 2 ^ (53 - d))
        by (rewrite <- Z.pow_add_r by lia; f_equal; lia).
      assert (H53 : 2 ^ 53 = 2 ^ d * 2 ^ (53 - d))
        by (rewrite <- Z.pow_add_r by lia; f_equal; lia).
      rewrite H52, H53.
      assert (0 < 2 ^ (53 - d)) by (apply Z.pow_pos_nonneg; lia).
      split; [apply Z.mul_le_mono_nonneg_r; lia | apply Z.mul_lt_mono_pos_r; lia]. }
    split; [| split; [exact Hnorm | exact Hv]].
    apply bra_exact; [exact Hnorm | lia].
Qed.

Lemma new_location_matches (d r : Z) :
  0 <= r < d -> loc_matches (new_location d r) r d.
Proof.
  intros Hr. unfold new_location, new_location_even, new_location_odd.
  destruct (Z.even d) eqn:Ev.
  - destruct (r =? 0) eqn:E0; [apply Z.eqb_eq in E0; exact E0 |].
    apply Z.eqb_neq in E0. clear Ev.
    destruct (2 * r ?= d) eqn:C;
      [apply Z.compare_eq in C | rewrite Z.compare_lt_iff in C
       | rewrite Z.compare_gt_iff in C]; cbn [loc_matches]; lia.
  - destruct (r =? 0) eqn:E0; [apply Z.eqb_eq in E0; exact E0 |].
    apply Z.eqb_neq in E0.
    assert (Hodd : d <> 2 * r).
    { intros ->. rewrite Z.even_mul in Ev. discriminate. }
    clear Ev.
    destruct (2 * r + 1 ?= d) eqn:C;
      [apply Z.compare_eq in C | rewrite Z.compare_lt_iff in C
       | rewrite Z.compare_gt_iff in C]; cbn [loc_matches]; lia.
Qed.

(** Product of two normal positive doubles. *)
Lemma SFmul_normal (mx my : positive) (ex ey : Z) :
  normal (Z.pos mx) -> normal (Z.pos my) ->
  -1074 <= ex + ey + 52 -> ex + ey + 54 <= 971 ->
  exists mz k,
    SFmul prec emax (S754_finite false mx ex) (S754_finite false my ey)
    = S754_finite false mz (ex + ey + k) /\
    normal (Z.pos mz) /\ 52 <= k <= 54 /\
    Z.abs (2 * (Z.pos mz * 2 ^ k) - 2 * (Z.pos mx * Z.pos my)) <= 2 ^ k.
Proof.
  intros Hx Hy Hlo Hhi. cbn [SFmul xorb].
  unfold normal in Hx, Hy. rewrite pow2_52, pow2_53 in Hx, Hy.
  assert (HM : 2 ^ 104 <= Z.pos (mx * my) < 2 ^ 106).
  { rewrite Pos2Z.inj_mul.
    change (2 ^ 104) with (4503599627370496 * 4503599627370496).
    change (2 ^ 106) with (9007199254740992 * 9007199254740992). nia. }
  pose proof (digits_bounds (mx * my)) as [Dlo Dhi].
  set (dM := Z.pos (digits2_pos (mx * my))) in *.
  assert (HdM : 105 <= dM <= 106).
  { split.
    - assert (104 < dM); [| lia]. apply (Z.pow_lt_mono_r_iff 2); lia.
    - assert (dM - 1 < 106); [| lia]. apply (Z.pow_lt_mono_r_iff 2); lia. }
  destruct (bra_correct (mx * my) (ex + ey) loc_Exact 0 1) as (mz & k & Hr & Hn & Hk & He);
    fold dM; try lia; [reflexivity |].
  fold dM in Hk. exists mz, k. split; [exact Hr |]. split; [exact Hn |].
  split; [lia |]. rewrite Pos2Z.inj_mul in He. lia.
Qed.

(** Quotient of two normal positive doubles. *)
Lemma SFdiv_normal (mx my : positive) (ex ey : Z) :
  normal (Z.pos mx) -> normal (Z.pos my) ->
  -1074 <= ex - ey - 53 -> ex - ey - 51 <= 971 ->
  exists mz k,
    SFdiv prec emax (S754_finite false mx ex) (S754_finite false my ey)
    = S754_finite false mz (ex - ey - 53 + k) /\
    normal (Z.pos mz) /\ 0 <= k <= 2 /\
    Z.abs (2 * (Z.pos mz * 2 ^ k) * Z.pos my - 2 * (Z.pos mx * 2 ^ 53))
    <= 2 ^ k * Z.pos my.
Proof.
  intros Hx Hy Hlo Hhi. cbn [SFdiv xorb]. unfold SFdiv_core_binary.
  assert (Hdx : Z.pos (digits2_pos mx) = 53) by (apply digits_unique; exact Hx).
  assert (Hdy : Z.pos (digits2_pos my) = 53) by (apply digits_unique; exact Hy).
  cbn [Zdigits2]. rewrite Hdx, Hdy.
  replace (53 + ex - (53 + ey)) with (ex - ey) by lia.
  rewrite fexp_normal by lia.
  replace (Z.min (ex - ey - 53) (ex - ey)) with (ex - ey - 53) by lia.
  replace (ex - ey - (ex - ey - 53)) with 53 by lia.
  rewrite Z.shiftl_mul_pow2 by lia.
  unfold normal in Hx, Hy. rewrite pow2_52, pow2_53 in Hx, Hy.
  pose proof (Z_div_mod (Z.pos mx * 2 ^ 53) (Z.pos my) ltac:(lia)) as Hdm.
  destruct (Z.div_eucl (Z.pos mx * 2 ^ 53) (Z.pos my)) as [q r].
  destruct Hdm as [Hq Hr]. rewrite pow2_53 in Hq.
  assert (Hqb : 2 ^ 52 <= q < 2 ^ 54).
  { rewrite pow2_52. change (2 ^ 54) with 18014398509481984. nia. }
  destruct q as [| q | q]; try (rewrite pow2_52 in Hqb; lia).
  pose proof (digits_bounds q) as [Dlo Dhi].
  set (dq := Z.pos (digits2_pos q)) in *.
  assert (Hdq : 53 <= dq <= 54).
  { split.
    - assert (52 < dq); [| lia]. apply (Z.pow_lt_mono_r_iff 2); lia.
    - assert (dq - 1 < 54); [| lia]. apply (Z.pow_lt_mono_r_iff 2); lia. }
  destruct (bra_correct q (ex - ey - 53) (new_location (Z.pos my) r) r (Z.pos my))
    as (mz & k & Hres & Hn & Hk & He); fold dq; try lia.
  { apply new_location_matches. lia. }
  fold dq in Hk. exists mz, k. split; [exact Hres |]. split; [exact Hn |].
  split; [lia |]. rewrite pow2_53, Hq.
  replace (Z.pos my * Z.pos q + r) with (Z.pos q * Z.pos my + r) by ring.
  exact He.
Qed.

End RoundingFacts.

(** ** Doubles as rationals *)

Module RationalFacts.
Import Py RoundingFacts Spec.

Lemma pow2_pos (e : Z) : (0 < pow2 e)%Q.
Proof. apply Qpower_0_lt. reflexivity. Qed.

Lemma pow2_add (a b : Z) : (pow2 (a + b) == pow2 a * pow2 b)%Q.
Proof. apply Qpower_plus. discriminate. Qed.

Lemma pow2_le (a b : Z) : a <= b -> (pow2 a <= pow2 b)%Q.
Proof. intros H. apply Qpower_le_compat_l; [exact H | discriminate]. Qed.

Lemma pow2_Z (k : Z) : 0 <= k -> (pow2 k == inject_Z (2 ^ k))%Q.
Proof. intros H. unfold pow2. now rewrite Zpower_Qpower. Qed.

Lemma positive_normal_bounds (f : spec_float) (m : positive) (e : Z) :
  positive_normal f m e ->
  (inject_Z (2 ^ 52) * pow2 e <= B2Q f)%Q /\
  (B2Q f < inject_Z (2 ^ 53) * pow2 e)%Q.
Proof.
  intros [-> [Hlo Hhi]]. cbn [B2Q]. pose proof (pow2_pos e) as Hp. split.
  - apply Qmult_le_compat_r; [| now apply Qlt_le_weak].
    rewrite <- Zle_Qle. exact Hlo.
  - apply Qmult_lt_compat_r; [exact Hp |].
    rewrite <- Zlt_Qlt. exact Hhi.
Qed.

Lemma normalize_Q (n : Z) :
  0 < n < 2 ^ 53 ->
  exists m e,
    positive_normal (binary_normalize prec emax n 0 false) m e /\
    -52 <= e <= 0 /\
    (B2Q (binary_normalize prec emax n 0 false) == inject_Z n)%Q.
Proof.
  intros [Hpos Hn]. destruct n as [| n | n]; try lia.
  destruct (normalize_small n Hn) as (m & Hr & Hnorm & Hv).
  pose proof (digits_bounds n) as [Hlo Hhi].
  set (d := Z.pos (digits2_pos n)) in *.
  assert (Hd : 1 <= d <= 53).
  { split; [unfold d; lia |].
    destruct (Z_le_gt_dec d 53) as [| Hgt]; [assumption |].
    assert (2 ^ 53 <= 2 ^ (d - 1)) by (apply Z.pow_le_mono_r; lia). lia. }
  exists m, (d - 53). split; [split; assumption |]. split; [lia |].
  rewrite Hr. cbn [B2Q]. rewrite Hv, inject_Z_mult.
  rewrite <- pow2_Z by lia. rewrite <- Qmult_assoc, <- pow2_add.
  replace (53 - d + (d - 53)) with 0 by lia.
  unfold pow2. rewrite Qpower_0_r. apply Qmult_1_r.
Qed.

Ltac to_Q H :=
  first [rewrite Zle_Qle in H | rewrite Zlt_Qlt in H];
  repeat first [rewrite inject_Z_plus in H | rewrite inject_Z_mult in H
               | rewrite inject_Z_opp in H].

Ltac to_Z H :=
  repeat first [rewrite <- inject_Z_mult in H | rewrite <- inject_Z_plus in H];
  first [rewrite <- Zle_Qle in H | rewrite <- Zlt_Qlt in H].

(** The product of two positive normal doubles is the product of their
    values, off by at most half a unit in the last place. *)
Lemma fmul_Q (x y : spec_float) (mx my : positive) (ex ey : Z) :
  positive_normal x mx ex -> positive_normal y my ey ->
  -1074 <= ex + ey + 52 -> ex + ey + 54 <= 971 ->
  exists mz ez,
    positive_normal (SFmul prec emax x y) mz ez /\
    ex + ey + 52 <= ez <= ex + ey + 54 /\
    (B2Q x * B2Q y - (1 # 2) * pow2 ez <= B2Q (SFmul prec emax x y))%Q /\
    (B2Q (SFmul prec emax x y) <= B2Q x * B2Q y + (1 # 2) * pow2 ez)%Q.
Proof.
  intros [-> Hx] [-> Hy] Hlo Hhi.
  destruct (SFmul_normal mx my ex ey Hx Hy Hlo Hhi)
    as (mz & k & Hr & Hn & Hk & He).
  exists mz, (ex + ey + k). rewrite Hr.
  split; [split; [reflexivity | exact Hn] |]. split; [lia |].
  assert (Hp : 0 < 2 ^ k) by (apply Z.pow_pos_nonneg; lia).
  assert (H1 : 2 * (Z.pos mz * 2 ^ k) <= 2 ^ k + 2 * (Z.pos mx * Z.pos my)) by lia.
  assert (H2 : 2 * (Z.pos mx * Z.pos my) <= 2 ^ k + 2 * (Z.pos mz * 2 ^ k)) by lia.
  to_Q H1. to_Q H2. to_Q Hp. rewrite <- pow2_Z in H1, H2, Hp by lia.
  cbn [B2Q]. rewrite !pow2_add.
  pose proof (pow2_pos ex). pose proof (pow2_pos ey).
  set (A := inject_Z (Z.pos mz)) in *. set (X := inject_Z (Z.pos mx)) in *.
  set (Y := inject_Z (Z.pos my)) in *. set (K := pow2 k) in *.
  set (P := pow2 ex) in *. set (P' := pow2 ey) in *.
  change (inject_Z 2) with 2%Q in *.
  assert (0 < P * P')%Q by nra. split; nra.
Qed.

(** The quotient of two positive normal doubles is the quotient of their
    values, off by at most half a unit in the last place (stated without
    division). *)
Lemma fdiv_Q (x y : spec_float) (mx my : positive) (ex ey : Z) :
  positive_normal x mx ex -> positive_normal y my ey ->
  -1074 <= ex - ey - 53 -> ex - ey - 51 <= 971 ->
  exists mz ez,
    positive_normal (SFdiv prec emax x y) mz ez /\
    ex - ey - 53 <= ez <= ex - ey - 51 /\
    ((B2Q (SFdiv prec emax x y) - (1 # 2) * pow2 ez) * B2Q y <= B2Q x)%Q /\
    (B2Q x <= (B2Q (SFdiv prec emax x y) + (1 # 2) * pow2 ez) * B2Q y)%Q.
Proof.
  intros [-> Hx] [-> Hy] Hlo Hhi.
  destruct (SFdiv_normal mx my ex ey Hx Hy Hlo Hhi)
    as (mz & k & Hr & Hn & Hk & He).
  exists mz, (ex - ey - 53 + k). rewrite Hr.
  split; [split; [reflexivity | exact Hn] |]. split; [lia |].
  assert (Hp : 0 < 2 ^ k) by (apply Z.pow_pos_nonneg; lia).
  assert (Hy0 : 0 < Z.pos my) by lia.
  rewrite pow2_53 in He.
  assert (H1 : 2 * (Z.pos mz * 2 ^ k) * Z.pos my
               <= 2 ^ k * Z.pos my + 2 * (Z.pos mx * 9007199254740992)) by lia.
  assert (H2 : 2 * (Z.pos mx * 9007199254740992)
               <= 2 ^ k * Z.pos my + 2 * (Z.pos mz * 2 ^ k) * Z.pos my) by lia.
  to_Q H1. to_Q H2. to_Q Hp. to_Q Hy0.
  rewrite <- pow2_Z in H1, H2, Hp by lia.
  cbn [B2Q].
  assert (HE : (pow2 (ex - ey - 53 + k) * pow2 ey * inject_Z 9007199254740992
                == pow2 k * pow2 ex)%Q).
  { change 9007199254740992 with (2 ^ 53). rewrite <- pow2_Z by lia.
    rewrite <- !pow2_add. replace (ex - ey - 53 + k + ey + 53) with (k + ex) by lia.
    reflexivity. }
  pose proof (pow2_pos ex). pose proof (pow2_pos ey).
  set (E := pow2 (ex - ey - 53 + k)) in *.
  set (A := inject_Z (Z.pos mz)) in *. set (X := inject_Z (Z.pos mx)) in *.
  set (Y := inject_Z (Z.pos my)) in *. set (K := pow2 k) in *.
  set (P := pow2 ex) in *. set (P' := pow2 ey) in *.
  change (inject_Z 2) with 2%Q in *.
  change (inject_Z 9007199254740992) with 9007199254740992%Q in *.
  change (inject_Z 0) with 0%Q in *.
  assert (Hm1 : ((2 * (A * K) * Y - 2 * (X * 9007199254740992) - K * Y) * P <= 0)%Q) by nra.
  assert (Hm2 : (0 <= (2 * (A * K) * Y - 2 * (X * 9007199254740992) + K * Y) * P)%Q) by nra.
  assert (E1 : (A * Y * (K * P) == A * Y * (E * P' * 9007199254740992))%Q)
    by (rewrite HE; reflexivity).
  assert (E2 : (Y * (K * P) == Y * (E * P' * 9007199254740992))%Q)
    by (rewrite HE; reflexivity).
  split; lra.
Qed.

End RationalFacts.

(** ** The float expressions of the program *)

Module PyFloatFacts.
Import Py RoundingFacts RationalFacts Spec.

Lemma float_of_int_zero : float_of_int 0 = Ok (S754_zero false).
Proof. reflexivity. Qed.

Lemma float_of_int_pos (n : Z) :
  0 < n < 2 ^ 53 ->
  exists f m e,
    float_of_int n = Ok f /\ positive_normal f m e /\ -52 <= e <= 0 /\
    (B2Q f == inject_Z n)%Q.
Proof.
  intros Hn. destruct (normalize_Q n Hn) as (m & e & Hpn & He & Hv).
  exists (binary_normalize prec emax n 0 false), m, e.
  split; [| auto]. unfold float_of_int.
  destruct Hpn as [-> _]. reflexivity.
Qed.

Lemma int_of_float_pos (m : positive) (e : Z) :
  exists n,
    int_of_float (S754_finite false m e) = Ok n /\
    (inject_Z n <= B2Q (S754_finite false m e))%Q /\
    (B2Q (S754_finite false m e) < inject_Z (n + 1))%Q.
Proof.
  cbn [int_of_float B2Q]. destruct (0 <=? e) eqn:E.
  - apply Z.leb_le in E. exists (Z.pos m * 2 ^ e). split; [reflexivity |].
    rewrite pow2_Z by exact E. rewrite <- inject_Z_mult.
    rewrite <- Zle_Qle, <- Zlt_Qlt. lia.
  - apply Z.leb_gt in E. exists (Z.pos m / 2 ^ (- e)). split; [reflexivity |].
    assert (Hp : 0 < 2 ^ (- e)) by (apply Z.pow_pos_nonneg; lia).
    pose proof (Z.mul_div_le (Z.pos m) (2 ^ (- e)) Hp) as Hlo.
    pose proof (Z.mul_succ_div_gt (Z.pos m) (2 ^ (- e)) Hp) as Hhi.
    unfold Z.succ in Hhi.
    set (n := Z.pos m / 2 ^ (- e)) in *. clearbody n.
    to_Q Hlo. to_Q Hhi. to_Q Hp.
    rewrite <- pow2_Z in Hlo, Hhi, Hp by lia.
    assert (Hinv : (pow2 e * pow2 (- e) == 1)%Q).
    { rewrite <- pow2_add. replace (e + - e) with 0 by lia. reflexivity. }
    pose proof (pow2_pos e) as He.
    rewrite inject_Z_plus. change (inject_Z 1) with 1%Q.
    change (inject_Z 1) with 1%Q in *. change (inject_Z 0) with 0%Q in *.
    set (P := pow2 e) in *. set (P' := pow2 (- e)) in *.
    set (A := inject_Z (Z.pos m)) in *. set (N := inject_Z n) in *.
    clearbody P P' A N.
    assert (E2 : (P' * P == 1)%Q) by (rewrite (Qmult_comm P' P); exact Hinv).
    assert (H1 : ((P' * N) * P <= A * P)%Q) by nra.
    assert (H2 : (A * P < (P' * (N + 1)) * P)%Q) by nra.
    assert (E3 : ((P' * N) * P == N * (P' * P))%Q) by ring.
    assert (E4 : ((P' * (N + 1)) * P == (N + 1) * (P' * P))%Q) by ring.
    rewrite E3 in H1. rewrite E4 in H2. rewrite E2 in H1, H2.
    split; lra.
Qed.

(** Comparison of positive finite doubles is lexicographic on exponent
    and mantissa. *)
Lemma SFltb_lex (m1 m2 : positive) (e1 e2 : Z) :
  SFltb (S754_finite false m1 e1) (S754_finite false m2 e2)
  = (e1 <? e2) || ((e1 =? e2) && (Z.pos m1 <? Z.pos m2)).
Proof.
  unfold SFltb. cbn [SFcompare].
  destruct (Z.compare_spec e1 e2) as [E | E | E].
  - subst. rewrite Z.ltb_irrefl, Z.eqb_refl. cbn [orb andb].
    change (Pos.compare_cont Eq m1 m2) with (Pos.compare m1 m2).
    destruct (Pos.compare_spec m1 m2) as [H | H | H]; symmetry;
      [apply Z.ltb_ge | apply Z.ltb_lt | apply Z.ltb_ge]; lia.
  - replace (e1 <? e2) with true by (symmetry; apply Z.ltb_lt; lia). reflexivity.
  - replace (e1 <? e2) with false by (symmetry; apply Z.ltb_ge; lia).
    replace (e1 =? e2) with false by (symmetry; apply Z.eqb_neq; lia). reflexivity.
Qed.

Lemma f_0_40_normal : positive_normal f_0_40 7205759403792794 (-54).
Proof. split; [reflexivity |]. unfold normal. rewrite pow2_52, pow2_53. lia. Qed.

Lemma pow2_m54 : (pow2 (-54) == 1 # 18014398509481984)%Q.
Proof. reflexivity. Qed.

Lemma pow2_m53 : (pow2 (-53) == 1 # 9007199254740992)%Q.
Proof. reflexivity. Qed.

Lemma pow2_m55 : (pow2 (-55) == 1 # 36028797018963968)%Q.
Proof. reflexivity. Qed.

(** The ratio test of [validContours], in exact terms: for bounding boxes
    that fit 32-bit integers, [float(w) / h > 0.40] holds exactly when
    [w / h > 2 / 5]. *)
Lemma ratio_test_exact (w h : Z) :
  0 < w < 2 ^ 31 -> 0 < h < 2 ^ 31 ->
  exists fw fh ratio,
    float_of_int w = Ok fw /\ float_of_int h = Ok fh /\
    fdiv fw fh = Ok ratio /\
    fgt ratio f_0_40 = (2 * h <? 5 * w).
Proof.
  intros Hw Hh.
  destruct (float_of_int_pos w) as (fw & mw & ew & Hfw & Hnw & Hew & Hvw);
    [change (2 ^ 53) with 9007199254740992; change (2 ^ 31) with 2147483648 in Hw; lia |].
  destruct (float_of_int_pos h) as (fh & mh & eh & Hfh & Hnh & Heh & Hvh);
    [change (2 ^ 53) with 9007199254740992; change (2 ^ 31) with 2147483648 in Hh; lia |].
  exists fw, fh, (SFdiv prec emax fw fh).
  split; [exact Hfw |]. split; [exact Hfh |]. split.
  { unfold fdiv. destruct Hnh as [-> _]. reflexivity. }
  destruct (fdiv_Q fw fh mw mh ew eh Hnw Hnh) as (mz & ez & [Hr Hn] & Hez & Hlo & Hhi);
    [lia | lia |].
  rewrite Hvw, Hvh in Hlo, Hhi. rewrite Hr in Hlo, Hhi |- *. cbn [B2Q] in Hlo, Hhi.
  unfold fgt, f_0_40. rewrite SFltb_lex.
  unfold normal in Hn. rewrite pow2_52, pow2_53 in Hn.
  change (2 ^ 31) with 2147483648 in Hw, Hh.
  assert (HW : (0 < inject_Z w < 2147483648)%Q).
  { split; [change 0%Q with (inject_Z 0) | change 2147483648%Q with (inject_Z 2147483648)];
      rewrite <- Zlt_Qlt; lia. }
  assert (HH : (0 < inject_Z h < 2147483648)%Q).
  { split; [change 0%Q with (inject_Z 0) | change 2147483648%Q with (inject_Z 2147483648)];
      rewrite <- Zlt_Qlt; lia. }
  assert (HA : (4503599627370496 <= inject_Z (Z.pos mz) < 9007199254740992)%Q).
  { split; [change 4503599627370496%Q with (inject_Z 4503599627370496); rewrite <- Zle_Qle
           | change 9007199254740992%Q with (inject_Z 9007199254740992); rewrite <- Zlt_Qlt]; lia. }
  pose proof (pow2_pos ez) as Hu.
  (* the claim, over the rationals *)
  assert (Hgoal : forall b : bool,
            (b = true -> (2 * inject_Z h < 5 * inject_Z w)%Q) ->
            (b = false -> (5 * inject_Z w < 2 * inject_Z h + 1)%Q) ->
            b = (2 * h <? 5 * w)).
  { intros b Ht Hf. destruct b; symmetry.
    - apply Z.ltb_lt. specialize (Ht eq_refl).
      rewrite Zlt_Qlt, !inject_Z_mult. exact Ht.
    - apply Z.ltb_ge. specialize (Hf eq_refl).
      assert (5 * w < 2 * h + 1); [| lia].
      rewrite Zlt_Qlt, inject_Z_plus, !inject_Z_mult. exact Hf. }
  apply Hgoal; clear Hgoal; intros Hb.
  - (* the ratio exceeds 0.40 *)
    apply orb_true_iff in Hb. destruct Hb as [Hb | Hb].
    + apply Z.ltb_lt in Hb. pose proof (pow2_le (-53) ez ltac:(lia)) as Hp.
      rewrite pow2_m53 in Hp.
      set (A := inject_Z (Z.pos mz)) in *. set (u := pow2 ez) in *.
      set (W := inject_Z w) in *. set (H := inject_Z h) in *.
      clearbody A u W H.
      assert ((1 # 4) <= A * u - (1 # 2) * u)%Q by nra.
      nra.
    + apply andb_true_iff in Hb. destruct Hb as [He Hm].
      apply Z.eqb_eq in He. apply Z.ltb_lt in Hm. subst ez.
      rewrite pow2_m54 in *.
      assert (HA' : (7205759403792795 <= inject_Z (Z.pos mz))%Q).
      { change 7205759403792795%Q with (inject_Z 7205759403792795).
        rewrite <- Zle_Qle. lia. }
      set (A := inject_Z (Z.pos mz)) in *.
      set (W := inject_Z w) in *. set (H := inject_Z h) in *.
      clearbody A W H.
      assert ((4000000000000000001 # 10000000000000000000)
              <= A * (1 # 18014398509481984) - (1 # 2) * (1 # 18014398509481984))%Q by lra.
      nra.
  - (* the ratio does not exceed 0.40 *)
    apply orb_false_iff in Hb. destruct Hb as [Hb1 Hb2].
    apply Z.ltb_ge in Hb1. apply andb_false_iff in Hb2.
    destruct (Z.eq_dec ez (-54)) as [He | He].
    + destruct Hb2 as [Hb2 | Hb2]; [apply Z.eqb_neq in Hb2; lia |].
      apply Z.ltb_ge in Hb2. subst ez. rewrite pow2_m54 in *.
      assert (HA' : (inject_Z (Z.pos mz) <= 7205759403792794)%Q).
      { change 7205759403792794%Q with (inject_Z 7205759403792794).
        rewrite <- Zle_Qle. lia. }
      set (A := inject_Z (Z.pos mz)) in *.
      set (W := inject_Z w) in *. set (H := inject_Z h) in *.
      clearbody A W H.
      assert (A * (1 # 18014398509481984) + (1 # 2) * (1 # 18014398509481984)
              <= (2 # 5) + (1 # 4294967296))%Q by lra.
      nra.
    + pose proof (pow2_le ez (-55) ltac:(lia)) as Hp. rewrite pow2_m55 in Hp.
      set (A := inject_Z (Z.pos mz)) in *. set (u := pow2 ez) in *.
      set (W := inject_Z w) in *. set (H := inject_Z h) in *.
      clearbody A u W H.
      assert (A * u + (1 # 2) * u <= (3 # 10))%Q by nra.
      nra.
Qed.

Lemma inject_Z_bounds (n lo hi : Z) :
  lo <= n < hi -> (inject_Z lo <= inject_Z n < inject_Z hi)%Q.
Proof. intros [H1 H2]. split; [rewrite <- Zle_Qle | rewrite <- Zlt_Qlt]; assumption. Qed.

(** Bounds of a positive normal double in terms of its unit in the last
    place. *)
Lemma normal_ulp (f : spec_float) (m : positive) (e : Z) :
  positive_normal f m e ->
  (4503599627370496 * pow2 e <= B2Q f)%Q /\
  (B2Q f < 9007199254740992 * pow2 e)%Q.
Proof.
  intros H. destruct (positive_normal_bounds f m e H) as [Hlo Hhi].
  rewrite pow2_52 in Hlo. rewrite pow2_53 in Hhi. split; assumption.
Qed.

(** Scaling a side: [int(x * (m / float(L)))] is [floor(x * m / L)] or one
    less, for sides below [2 ^ 24]. *)
Lemma scaled_side (m L x : Z) :
  0 < m < L -> L < 2 ^ 24 -> 0 < x <= L ->
  exists fL fm scale fx n,
    float_of_int L = Ok fL /\ float_of_int m = Ok fm /\
    fdiv fm fL = Ok scale /\ float_of_int x = Ok fx /\
    int_of_float (fmul fx scale) = Ok n /\
    x * m / L - 1 <= n <= x * m / L.
Proof.
  intros Hm HL Hx. change (2 ^ 24) with 16777216 in HL.
  destruct (float_of_int_pos L) as (fL & mL & eL & HfL & HnL & HeL & HvL);
    [change (2 ^ 53) with 9007199254740992; lia |].
  destruct (float_of_int_pos m) as (fm & mm & em & Hfm & Hnm & Hem & Hvm);
    [change (2 ^ 53) with 9007199254740992; lia |].
  destruct (float_of_int_pos x) as (fx & mx & ex & Hfx & Hnx & Hex & Hvx);
    [change (2 ^ 53) with 9007199254740992; lia |].
  destruct (fdiv_Q fm fL mm mL em eL Hnm HnL) as (ms & es & Hns & Hes & Hslo & Hshi);
    [lia | lia |].
  set (scale := SFdiv prec emax fm fL) in *.
  destruct (fmul_Q fx scale mx ms ex es Hnx Hns) as (mp & ep & Hnp & Hep & Hplo & Hphi);
    [lia | lia |].
  fold (fmul fx scale) in *. set (p := fmul fx scale) in *.
  assert (Hp : p = S754_finite false mp ep) by (destruct Hnp as [Hp _]; exact Hp).
  destruct (int_of_float_pos mp ep) as (n & Hn & Hnlo & Hnhi).
  rewrite <- Hp in Hn, Hnlo, Hnhi.
  exists fL, fm, scale, fx, n.
  split; [exact HfL |]. split; [exact Hfm |]. split.
  { unfold fdiv. destruct HnL as [-> _]. reflexivity. }
  split; [exact Hfx |]. split; [exact Hn |].
  pose proof (normal_ulp _ _ _ Hns) as [Hsu1 Hsu2].
  pose proof (normal_ulp _ _ _ Hnp) as [Hpu1 Hpu2].
  rewrite HvL, Hvm in Hslo, Hshi. rewrite Hvx in Hplo, Hphi.
  pose proof (pow2_pos es) as Hus. pose proof (pow2_pos ep) as Hup.
  pose proof (inject_Z_bounds L 1 16777216 ltac:(lia)) as HLq.
  pose proof (inject_Z_bounds m 1 16777216 ltac:(lia)) as Hmq.
  pose proof (inject_Z_bounds x 1 16777216 ltac:(lia)) as Hxq.
  rewrite inject_Z_plus in Hnhi.
  change (inject_Z 1) with 1%Q in *.
  change (inject_Z 16777216) with 16777216%Q in *.
  (* the two integer inequalities, over the rationals *)
  assert (Hq : (inject_Z n * inject_Z L < inject_Z x * inject_Z m + 1)%Q /\
               (inject_Z x * inject_Z m < (inject_Z n + 1) * inject_Z L + 1)%Q).
  { set (N := inject_Z n) in *. set (Lq := inject_Z L) in *.
    set (M := inject_Z m) in *. set (X := inject_Z x) in *.
    set (vs := B2Q scale) in *. set (vp := B2Q p) in *.
    set (us := pow2 es) in *. set (up := pow2 ep) in *.
    clearbody N Lq M X vs vp us up.
    set (k := (9007199254740991 # 9007199254740992)%Q) in *.
    set (k' := (9007199254740993 # 9007199254740992)%Q) in *.
    assert (Hxm : (X * M < 281474976710656)%Q) by (unfold k, k' in *; nra).
    assert (Hxm0 : (0 < X * M)%Q) by nra.
    assert (S1 : (k * vs <= vs - (1 # 2) * us)%Q) by (unfold k; lra).
    assert (S2 : (k * vs * Lq <= M)%Q) by (unfold k in *; nra).
    assert (S3 : (k * vp <= X * vs)%Q) by (unfold k; lra).
    assert (S4 : (k * (k * vp) * Lq <= X * M)%Q).
    { assert ((k * (k * vp)) * Lq <= (k * (X * vs)) * Lq)%Q by (unfold k in *; nra).
      assert ((k * (X * vs)) * Lq == X * (k * vs * Lq))%Q by ring.
      assert (X * (k * vs * Lq) <= X * M)%Q by nra.
      lra. }
    assert (T1 : (vs + (1 # 2) * us <= k' * vs)%Q) by (unfold k'; lra).
    assert (T2 : (M <= k' * vs * Lq)%Q) by (unfold k' in *; nra).
    assert (T3 : (X * vs <= k' * vp)%Q) by (unfold k'; lra).
    assert (T4 : (X * M <= k' * (k' * vp) * Lq)%Q).
    { assert (X * M <= X * (k' * vs * Lq))%Q by nra.
      assert (X * (k' * vs * Lq) == (k' * (X * vs)) * Lq)%Q by ring.
      assert ((k' * (X * vs)) * Lq <= (k' * (k' * vp)) * Lq)%Q by (unfold k' in *; nra).
      lra. }
    assert (Hvp0 : (0 <= vp)%Q) by lra.
    assert (U1 : (N * Lq <= vp * Lq)%Q) by nra.
    assert (U2 : (vp * Lq < (N + 1) * Lq)%Q) by nra.
    assert (S5 : (k * (k * vp) * Lq == (k * k) * (vp * Lq))%Q) by ring.
    assert (T5 : (k' * (k' * vp) * Lq == (k' * k') * (vp * Lq))%Q) by ring.
    rewrite S5 in S4. rewrite T5 in T4.
    unfold k, k' in *. split; lra. }
  destruct Hq as [Hq1 Hq2].
  change 1%Q with (inject_Z 1) in Hq1, Hq2.
  to_Z Hq1. to_Z Hq2.
  split.
  - assert (x * m / L < n + 2); [| lia].
    apply Z.div_lt_upper_bound; nia.
  - apply Z.div_le_lower_bound; nia.
Qed.

Lemma f_0_0005_normal : positive_normal f_0_0005 4611686018427388 (-63).
Proof. split; [reflexivity |]. unfold normal. rewrite pow2_52, pow2_53. lia. Qed.

Lemma f_0_0005_value :
  (B2Q f_0_0005 == 1152921504606847 # 2305843009213693952)%Q.
Proof. reflexivity. Qed.

(** The automatic minimum area: [int(0.0005 * h * w)] is
    [floor(h * w / 2000)] or one less, for images of fewer than [2 ^ 50]
    pixels. *)
Lemma auto_area (h w : Z) :
  0 < h < 2 ^ 25 -> 0 < w < 2 ^ 25 ->
  exists fh fw n,
    float_of_int h = Ok fh /\ float_of_int w = Ok fw /\
    int_of_float (fmul (fmul f_0_0005 fh) fw) = Ok n /\
    0 <= n /\ h * w / 2000 - 1 <= n <= h * w / 2000.
Proof.
  intros Hh Hw. change (2 ^ 25) with 33554432 in Hh, Hw.
  destruct (float_of_int_pos h) as (fh & mh & eh & Hfh & Hnh & Heh & Hvh);
    [change (2 ^ 53) with 9007199254740992; lia |].
  destruct (float_of_int_pos w) as (fw & mw & ew & Hfw & Hnw & Hew & Hvw);
    [change (2 ^ 53) with 9007199254740992; lia |].
  destruct (fmul_Q f_0_0005 fh _ mh _ eh f_0_0005_normal Hnh)
    as (ma & ea & Hna & Hea & Halo & Hahi); [lia | lia |].
  fold (fmul f_0_0005 fh) in *. set (a := fmul f_0_0005 fh) in *.
  destruct (fmul_Q a fw ma mw ea ew Hna Hnw)
    as (mb & eb & Hnb & Heb & Hblo & Hbhi); [lia | lia |].
  fold (fmul a fw) in *. set (b := fmul a fw) in *.
  assert (Hb : b = S754_finite false mb eb) by (destruct Hnb as [Hb _]; exact Hb).
  destruct (int_of_float_pos mb eb) as (n & Hn & Hnlo & Hnhi).
  rewrite <- Hb in Hn, Hnlo, Hnhi.
  exists fh, fw, n. split; [exact Hfh |]. split; [exact Hfw |]. split; [exact Hn |].
  pose proof (normal_ulp _ _ _ Hna) as [Hau1 Hau2].
  pose proof (normal_ulp _ _ _ Hnb) as [Hbu1 Hbu2].
  rewrite Hvh, f_0_0005_value in Halo, Hahi. rewrite Hvw in Hblo, Hbhi.
  pose proof (pow2_pos ea) as Hua. pose proof (pow2_pos eb) as Hub.
  pose proof (inject_Z_bounds h 1 33554432 ltac:(lia)) as Hhq.
  pose proof (inject_Z_bounds w 1 33554432 ltac:(lia)) as Hwq.
  rewrite inject_Z_plus in Hnhi.
  change (inject_Z 1) with 1%Q in *.
  change (inject_Z 33554432) with 33554432%Q in *.
  assert (Hq : (2000 * inject_Z n < inject_Z h * inject_Z w + 1)%Q /\
               (inject_Z h * inject_Z w < 2000 * (inject_Z n + 1) + 1)%Q /\
               (0 < inject_Z n + 1)%Q).
  { set (N := inject_Z n) in *. set (H := inject_Z h) in *.
    set (W := inject_Z w) in *.
    set (va := B2Q a) in *. set (vb := B2Q b) in *.
    set (ua := pow2 ea) in *. set (ub := pow2 eb) in *.
    clearbody N H W va vb ua ub.
    set (k := (9007199254740991 # 9007199254740992)%Q) in *.
    set (k' := (9007199254740993 # 9007199254740992)%Q) in *.
    set (c := (1152921504606847 # 2305843009213693952)%Q) in *.
    assert (Hhw : (H * W < 1125899906842624)%Q) by nra.
    assert (Hhw0 : (0 < H * W)%Q) by nra.
    assert (S1 : (k * va <= c * H)%Q) by (unfold k; lra).
    assert (S2 : (k * vb <= va * W)%Q) by (unfold k; lra).
    assert (S3 : (k * (k * vb) <= c * (H * W))%Q).
    { assert (k * (k * vb) <= k * (va * W))%Q by (unfold k in *; nra).
      assert (k * (va * W) == (k * va) * W)%Q by ring.
      assert ((k * va) * W <= (c * H) * W)%Q by nra.
      assert ((c * H) * W == c * (H * W))%Q by ring.
      lra. }
    assert (T1 : (c * H <= k' * va)%Q) by (unfold k'; lra).
    assert (T2 : (va * W <= k' * vb)%Q) by (unfold k'; lra).
    assert (T3 : (c * (H * W) <= k' * (k' * vb))%Q).
    { assert (c * (H * W) == (c * H) * W)%Q by ring.
      assert ((c * H) * W <= (k' * va) * W)%Q by nra.
      assert ((k' * va) * W == k' * (va * W))%Q by ring.
      assert (k' * (va * W) <= k' * (k' * vb))%Q by (unfold k' in *; nra).
      lra. }
    unfold k, k', c in *. repeat split; lra. }
  destruct Hq as (Hq1 & Hq2 & Hq3).
  change 1%Q with (inject_Z 1) in Hq1, Hq2, Hq3.
  change 2000%Q with (inject_Z 2000) in Hq1, Hq2.
  change 0%Q with (inject_Z 0) in Hq3.
  to_Z Hq1. to_Z Hq2. to_Z Hq3.
  split; [lia |]. split.
  - assert (h * w / 2000 < n + 2); [| lia].
    apply Z.div_lt_upper_bound; lia.
  - apply Z.div_le_lower_bound; lia.
Qed.

End PyFloatFacts.

(** ** The region validity filter *)

Module FilterFacts.
Import Py Cv Resit RoundingFacts RationalFacts PyFloatFacts Spec.

(** [flt_int] compares exact values. *)
Lemma flt_int_exact (x : float) (n : Z) :
  is_finite x -> (flt_int x n = true <-> (B2Q x < inject_Z n)%Q).
Proof.
  destruct x as [s | s | | s m e]; cbn [is_finite]; try contradiction; intros _.
  - cbn [flt_int B2Q]. rewrite Z.ltb_lt, Zlt_Qlt. reflexivity.
  - cbn [flt_int B2Q].
    set (v := if s then Z.neg m else Z.pos m).
    assert (Hv : ((if s then - inject_Z (Z.pos m) else inject_Z (Z.pos m))
                  == inject_Z v)%Q).
    { unfold v. destruct s; [| reflexivity].
      rewrite <- inject_Z_opp. reflexivity. }
    rewrite Hv. clearbody v. clear Hv.
    destruct (0 <=? e) eqn:E.
    + apply Z.leb_le in E. rewrite Z.ltb_lt, pow2_Z by exact E.
      rewrite <- inject_Z_mult, <- Zlt_Qlt. reflexivity.
    + apply Z.leb_gt in E. rewrite Z.ltb_lt.
      assert (Hp : 0 <= - e) by lia.
      rewrite Zlt_Qlt, inject_Z_mult, <- pow2_Z by exact Hp.
      assert (Hinv : (pow2 e * pow2 (- e) == 1)%Q).
      { rewrite <- pow2_add. replace (e + - e) with 0 by lia. reflexivity. }
      pose proof (pow2_pos e) as H1. pose proof (pow2_pos (- e)) as H2.
      set (P := pow2 e) in *. set (P' := pow2 (- e)) in *.
      set (V := inject_Z v). set (N := inject_Z n).
      clearbody P P' V N. split; intros H.
      * assert ((V * P) < (N * P') * P)%Q by nra.
        assert ((N * P') * P == N * (P * P'))%Q by ring.
        rewrite Hinv in *. lra.
      * assert ((V * P) * P' < N * P')%Q by nra.
        assert ((V * P) * P' == V * (P * P'))%Q by ring.
        rewrite Hinv in *. lra.
Qed.

(** The ratio test for a bounding box that fits 32-bit integers. *)
Lemma ratio_test (w h : Z) :
  0 <= w < 2 ^ 31 -> 0 < h < 2 ^ 31 ->
  rbind (float_of_int w) (fun fw =>
  rbind (float_of_int h) (fun fh =>
  rbind (fdiv fw fh) (fun ratio =>
  if fgt ratio f_0_40 then Ok false else Ok true)))
  = Ok (5 * w <=? 2 * h).
Proof.
  intros Hw Hh. destruct (Z.eq_dec w 0) as [-> | Hw0].
  - rewrite float_of_int_zero. cbn [rbind].
    destruct (float_of_int_pos h) as (fh & mh & eh & Hfh & [-> _] & _);
      [change (2 ^ 53) with 9007199254740992; change (2 ^ 31) with 2147483648 in Hh; lia |].
    rewrite Hfh.
    replace (5 * 0 <=? 2 * h) with true by (symmetry; apply Z.leb_le; lia).
    reflexivity.
  - destruct (ratio_test_exact w h) as (fw & fh & ratio & Hfw & Hfh & Hr & Hg);
      [lia | lia |].
    rewrite Hfw. cbn [rbind]. rewrite Hfh. cbn [rbind]. rewrite Hr. cbn [rbind].
    rewrite Hg. rewrite Z.leb_antisym. now destruct (2 * h <? 5 * w).
Qed.

(** [int(0.0005 * h * w)] for an image of [h] rows and [w] columns. *)
Lemma auto_area_any (h w : Z) :
  0 <= h < 2 ^ 25 -> 0 <= w < 2 ^ 25 ->
  exists n,
    rbind (float_of_int h) (fun fh =>
    rbind (float_of_int w) (fun fw =>
    int_of_float (fmul (fmul f_0_0005 fh) fw))) = Ok n /\
    0 <= n /\ h * w / 2000 - 1 <= n <= h * w / 2000.
Proof.
  intros Hh Hw.
  destruct (Z.eq_dec h 0) as [-> | Hh0]; [| destruct (Z.eq_dec w 0) as [-> | Hw0]].
  - exists 0. rewrite float_of_int_zero. cbn [rbind].
    destruct (Z.eq_dec w 0) as [-> | Hw0].
    + split; [reflexivity |]. change (0 * 0 / 2000) with 0. lia.
    + destruct (float_of_int_pos w) as (fw & mw & ew & Hfw & [-> _] & _);
        [change (2 ^ 53) with 9007199254740992; change (2 ^ 25) with 33554432 in Hw; lia |].
      rewrite Hfw. split; [reflexivity |]. rewrite Z.mul_0_l. change (0 / 2000) with 0. lia.
  - exists 0.
    destruct (float_of_int_pos h) as (fh & mh & eh & Hfh & Hnh & Heh & _);
      [change (2 ^ 53) with 9007199254740992; change (2 ^ 25) with 33554432 in Hh; lia |].
    rewrite Hfh, float_of_int_zero. cbn [rbind].
    destruct (fmul_Q f_0_0005 fh _ mh _ eh f_0_0005_normal Hnh)
      as (ma & ea & [Ha _] & _); [lia | lia |].
    fold (fmul f_0_0005 fh) in Ha. rewrite Ha.
    split; [reflexivity |]. rewrite Z.mul_0_r. change (0 / 2000) with 0. lia.
  - destruct (auto_area h w) as (fh & fw & n & Hfh & Hfw & Hn & Hb); [lia | lia |].
    exists n. rewrite Hfh. cbn [rbind]. rewrite Hfw. cbn [rbind].
    split; [exact Hn | exact Hb].
Qed.

Lemma validContours_exact (cv : Library) (cont : Contour) (m : Z) :
  is_finite (contourArea cv cont) ->
  0 <= box_w cv cont < 2 ^ 31 -> 0 <= box_h cv cont < 2 ^ 31 ->
  (validContours cv cont m = Ok true <-> accepted cv cont m) /\
  (validContours cv cont m = Ok false <-> ~ accepted cv cont m).
Proof.
  unfold accepted, box_w, box_h, validContours. intros Hfin Hw Hh.
  pose proof (flt_int_exact (contourArea cv cont) m Hfin) as Harea.
  destruct (boundingRect cv cont) as [[[x y] w] h].
  destruct (flt_int (contourArea cv cont) m) eqn:Ea.
  - assert (B2Q (contourArea cv cont) < inject_Z m)%Q by now apply Harea.
    split; split; try discriminate; try reflexivity.
    + intros (Hc & _). lra.
    + intros _ (Hc & _). lra.
  - assert (Hge : (inject_Z m <= B2Q (contourArea cv cont))%Q).
    { destruct (Qlt_le_dec (B2Q (contourArea cv cont)) (inject_Z m)) as [Hlt | Hle];
        [| exact Hle]. apply Harea in Hlt. discriminate. }
    destruct (h =? 0) eqn:Eh.
    + apply Z.eqb_eq in Eh. subst h.
      split; split; try discriminate; try reflexivity.
      * intros (_ & Hc & _). congruence.
      * intros _ (_ & Hc & _). congruence.
    + apply Z.eqb_neq in Eh. rewrite (ratio_test w h) by lia.
      destruct (5 * w <=? 2 * h) eqn:Er.
      * apply Z.leb_le in Er.
        split; split; try discriminate; try reflexivity; try tauto.
      * apply Z.leb_gt in Er.
        split; split; try discriminate; try reflexivity.
        -- intros (_ & _ & Hc). lia.
        -- intros _ (_ & _ & Hc). lia.
Qed.

Lemma estimate_min_area_exact (h w : Z) (cfg : Config) :
  0 <= h < 2 ^ 25 -> 0 <= w < 2 ^ 25 ->
  exists eff,
    _estimate_min_area h w cfg = Ok eff /\
    (0 < min_area cfg -> eff = min_area cfg) /\
    (min_area cfg <= 0 ->
     eff = Z.max 50 (h * w / 2000) \/ eff = Z.max 50 (h * w / 2000 - 1)).
Proof.
  intros Hh Hw. unfold _estimate_min_area.
  destruct (min_area cfg >? 0) eqn:E.
  - exists (min_area cfg). split; [reflexivity |]. split; [reflexivity | lia].
  - destruct (auto_area_any h w Hh Hw) as (n & Hn & Hn0 & Hb).
    exists (Z.max 50 n). split.
    + destruct (float_of_int h) as [fh | e]; [| discriminate Hn].
      cbn [rbind] in Hn |- *.
      destruct (float_of_int w) as [fw | e]; [| discriminate Hn].
      cbn [rbind] in Hn |- *. rewrite Hn. reflexivity.
    + split; [lia |]. intros _.
      destruct (Z.eq_dec n (h * w / 2000)) as [-> | Hne]; [now left |].
      right. f_equal. lia.
Qed.

End FilterFacts.

(** ** Downscaling *)

Module ScaleFacts.
Import Py Cv Resit RoundingFacts RationalFacts PyFloatFacts Spec.

Lemma resize_dsize_exact (h w : Z) (cfg : Config) :
  0 < max_dim cfg < Z.max h w -> Z.max h w < 2 ^ 24 -> 1 <= h -> 1 <= w ->
  exists nw nh,
    resize_dsize h w cfg = Ok (nw, nh) /\
    w * max_dim cfg / Z.max h w - 1 <= nw <= w * max_dim cfg / Z.max h w /\
    h * max_dim cfg / Z.max h w - 1 <= nh <= h * max_dim cfg / Z.max h w /\
    max_dim cfg - 1 <= Z.max nw nh <= max_dim cfg.
Proof.
  intros Hm HL Hh Hw.
  set (m := max_dim cfg) in *. set (L := Z.max h w) in *.
  destruct (scaled_side m L w Hm HL ltac:(unfold L; lia))
    as (fL & fm & scale & fw & nw & HfL & Hfm & Hs & Hfw & Hnw & Hbw).
  destruct (scaled_side m L h Hm HL ltac:(unfold L; lia))
    as (fL' & fm' & scale' & fh & nh & HfL' & Hfm' & Hs' & Hfh & Hnh & Hbh).
  assert (fL' = fL) by congruence. subst fL'.
  assert (fm' = fm) by congruence. subst fm'.
  assert (scale' = scale) by congruence. subst scale'.
  exists nw, nh. split.
  - unfold resize_dsize. fold m L.
    rewrite HfL. cbn [rbind]. rewrite Hfm. cbn [rbind]. rewrite Hs. cbn [rbind].
    rewrite Hfw. cbn [rbind]. rewrite Hnw. cbn [rbind].
    rewrite Hfh. cbn [rbind]. rewrite Hnh. reflexivity.
  - split; [exact Hbw |]. split; [exact Hbh |].
    assert (HLm : L * m / L = m) by (rewrite Z.mul_comm; apply Z.div_mul; lia).
    assert (Hwle : w * m / L <= m).
    { apply Z.div_le_upper_bound; [lia |]. unfold L. nia. }
    assert (Hhle : h * m / L <= m).
    { apply Z.div_le_upper_bound; [lia |]. unfold L. nia. }
    destruct (Z.max_spec h w) as [[Hlt HL'] | [Hlt HL']]; fold L in HL'.
    + rewrite <- HL' in Hbw. rewrite HLm in Hbw. lia.
    + rewrite <- HL' in Hbh. rewrite HLm in Hbh. lia.
Qed.

End ScaleFacts.

(** ** The downscaling step of the preprocessor *)

Module ResizeFacts.
Import Py Cv Resit Spec MonadFacts ScaleFacts.




(** An image within the cap is left alone. *)
Example within_cap_untouched :
  downscaled Synthetic.library (blank 6 9) default_Config = ret (blank 6 9).
Proof. reflexivity. Qed.

End ResizeFacts.

(** ** The region validity filter and the minimum area *)

Module ValidityFacts.
Import Py Cv Resit Spec MonadFacts SortFacts OrderFacts FilterFacts.

(** C5, as stated, fails: the automatic minimum area is computed in double
    precision, and for a 145 x 800 image [0.0005 * 145 * 800] comes out
    just below 58, so the minimum is 57, not
    [max(50, floor(0.0005 * 145 * 800)) = 58]. *)
Lemma min_area_below_exact :
  min_area default_Config = 0 /\
  _estimate_min_area 145 800 default_Config = Ok 57 /\
  Z.max 50 (5 * 145 * 800 / 10000) = 58.
Proof. repeat split; vm_compute; reflexivity. Qed.

(** The minimum area of a run, by the rows and columns it was estimated
    for. *)
Lemma estimated_area (rows cols : Z) (cfg : Config) (eff : Z) :
  _estimate_min_area rows cols cfg = Ok eff ->
  (0 < min_area cfg -> eff = min_area cfg) /\
  (min_area cfg <= 0 -> 0 <= rows < 2 ^ 25 -> 0 <= cols < 2 ^ 25 ->
   eff = Z.max 50 (rows * cols / 2000) \/
   eff = Z.max 50 (rows * cols / 2000 - 1)).
Proof.
  intros He. split.
  - intros Hpos. unfold _estimate_min_area in He.
    replace (min_area cfg >? 0) with true in He
      by (symmetry; apply Z.gtb_lt; lia).
    now injection He.
  - intros Hm Hr Hc.
    destruct (estimate_min_area_exact rows cols cfg Hr Hc)
      as (eff' & He' & _ & Ha).
    rewrite He in He'. injection He' as <-. now apply Ha.
Qed.

(** C5 (amended).  In a run of [findBands] the bands are those of the
    contours found that pass the validity filter, and the filter is run
    with the effective minimum area of the processed image: the configured
    [min_area] when that is positive, otherwise
    [max(50, int(0.0005 * rows * cols))] for the rows and columns of the
    processed image, evaluated in double precision, where the integer part
    is [floor(rows * cols / 2000)] or one less.  A contour passes exactly
    when its area is at least that minimum, the height of its bounding box
    is not zero and the width-to-height ratio is at most 0.40, that is
    [5 * w <= 2 * h] (bounding boxes within 32 bits). *)
Theorem region_validity (cv : Library) (img : Image) (cfg : Config)
  (t : list call) (bands : list Band) (cont : Contour) :
  findBands cv img cfg = (t, Ok bands) ->
  is_finite (contourArea cv cont) ->
  0 <= box_w cv cont < 2 ^ 31 -> 0 <= box_h cv cont < 2 ^ 31 ->
  exists img1 hsv thresh kernel roi eff css bandpos,
    prepared cv img cfg img1 hsv thresh kernel roi eff /\
    found_contours cv cfg hsv thresh kernel roi css /\
    in_detection_order cv eff css bandpos /\
    Permutation bandpos bands /\
    _estimate_min_area (fst (shape img1)) (snd (shape img1)) cfg = Ok eff /\
    (0 < min_area cfg -> eff = min_area cfg) /\
    (min_area cfg <= 0 ->
     fst (shape img1) < 2 ^ 25 -> snd (shape img1) < 2 ^ 25 ->
     eff = Z.max 50 (fst (shape img1) * snd (shape img1) / 2000) \/
     eff = Z.max 50 (fst (shape img1) * snd (shape img1) / 2000 - 1)) /\
    (validContours cv cont eff = Ok true <-> accepted cv cont eff) /\
    (validContours cv cont eff = Ok false <-> ~ accepted cv cont eff).
Proof.
  intros Hf Hfin Hw Hh. unfold findBands in Hf.
  apply bind_Ok in Hf. destruct Hf as (t1 & bandpos & t2 & Hd & Hf & _).
  apply ret_Ok in Hf. destruct Hf as [<- _].
  destruct (detectBands_order cv img cfg t1 bandpos Hd)
    as (eff & css & img1 & hsv & thresh & kernel & roi & Hp & Hc & Ho).
  exists img1, hsv, thresh, kernel, roi, eff, css, bandpos.
  split; [exact Hp |]. split; [exact Hc |]. split; [exact Ho |].
  split; [apply sorted_perm |].
  destruct Hp as (t0 & gray & t3 & _ & He & _).
  split; [exact He |].
  destruct (estimated_area _ _ cfg eff He) as [Hpos Hauto].
  split; [exact Hpos |]. split.
  - intros Hm Hr Hcols. apply Hauto; [exact Hm | |];
      unfold shape; cbn [fst snd]; unfold shape in Hr, Hcols;
      cbn [fst snd] in Hr, Hcols; lia.
  - exact (validContours_exact cv cont eff Hfin Hw Hh).
Qed.

Lemma region_validity_witness :
  let cv := Synthetic.library in
  let img := Synthetic.img_220k in
  let cont := [(3, 0)] in
  exists t bands,
    findBands cv img default_Config = (t, Ok bands) /\
    List.length bands = 4%nat /\
    exists img1 hsv thresh kernel roi eff css bandpos,
      prepared cv img default_Config img1 hsv thresh kernel roi eff /\
      found_contours cv default_Config hsv thresh kernel roi css /\
      in_detection_order cv eff css bandpos /\
      Permutation bandpos bands /\
      _estimate_min_area (fst (shape img1)) (snd (shape img1)) default_Config
      = Ok eff /\
      (0 < min_area default_Config -> eff = min_area default_Config) /\
      (min_area default_Config <= 0 ->
       fst (shape img1) < 2 ^ 25 -> snd (shape img1) < 2 ^ 25 ->
       eff = Z.max 50 (fst (shape img1) * snd (shape img1) / 2000) \/
       eff = Z.max 50 (fst (shape img1) * snd (shape img1) / 2000 - 1)) /\
      (validContours cv cont eff = Ok true <-> accepted cv cont eff) /\
      (validContours cv cont eff = Ok false <-> ~ accepted cv cont eff).
Proof.
  intros cv img cont.
  destruct (findBands cv img default_Config) as [t r] eqn:Hf.
  assert (Hr : exists bands, r = Ok bands /\ List.length bands = 4%nat).
  { vm_compute in Hf. injection Hf as _ <-. eexists. split; reflexivity. }
  destruct Hr as (bands & -> & Hlen).
  exists t, bands. split; [reflexivity |]. split; [exact Hlen |].
  apply (region_validity cv img default_Config t bands cont Hf).
  - exact I.
  - split; [discriminate | reflexivity].
  - split; [discriminate | reflexivity].
Defined.

(** The synthetic region (area 100, box 1 x 3) passes the filter for a
    145 x 800 image, whose effective minimum area is 57. *)
Example synthetic_region_accepted :
  _estimate_min_area 145 800 default_Config = Ok 57 /\
  validContours Synthetic.library [(3, 0)] 57 = Ok true.
Proof. split; vm_compute; reflexivity. Qed.

End ValidityFacts.

(** ** What the detector hands to the decoders *)

Module DetectedFacts.
Import Py Cv Builtins Resit App MonadFacts SortFacts OrderFacts DecodeFacts Spec.

Lemma bands_of_candidates (cv : Library) (m : Z) (clr : ColourEntry)
  (cs : list Contour) :
  In clr Colour_Range -> Forall candidate (bands_of cv m clr cs).
Proof.
  intros Hin. unfold bands_of. apply Forall_forall. intros b Hb.
  apply in_flat_map in Hb. destruct Hb as (c & _ & Hb).
  destruct (validContours cv c m) as [[|] | e]; try contradiction.
  destruct (leftmost c) as [lmp | e]; try contradiction.
  destruct Hb as [<- | []]. exists clr. repeat split; auto.
Qed.

Lemma detection_order_candidates (cv : Library) (m : Z)
  (css : list (list Contour)) (bandpos : list Band) :
  in_detection_order cv m css bandpos -> Forall candidate bandpos.
Proof.
  intros (_ & ->). apply Forall_forall. intros b Hb.
  apply in_flat_map in Hb. destruct Hb as ([clr cs] & Hin & Hb).
  apply in_combine_l in Hin.
  pose proof (bands_of_candidates cv m clr cs Hin) as Hall.
  rewrite Forall_forall in Hall. now apply Hall.
Qed.

Lemma findBands_candidates (cv : Library) (img : Image) (cfg : Config)
  (t : list call) (bands : list Band) :
  findBands cv img cfg = (t, Ok bands) -> Forall candidate bands.
Proof.
  unfold findBands. intros H.
  apply bind_Ok in H. destruct H as (t1 & bandpos & t2 & Hd & H & _).
  apply ret_Ok in H. destruct H as [<- _].
  apply detectBands_order in Hd.
  destruct Hd as (m & css & _ & _ & _ & _ & _ & _ & _ & Hd).
  apply detection_order_candidates in Hd.
  eapply Permutation_Forall; [apply sorted_perm | exact Hd].
Qed.

Lemma findBands_digits (cv : Library) (img : Image) (cfg : Config)
  (t : list call) (bands : list Band) :
  findBands cv img cfg = (t, Ok bands) -> Forall digit_in_range bands.
Proof.
  intros H. eapply Forall_impl; [| exact (findBands_candidates _ _ _ _ _ H)].
  apply candidate_digit.
Qed.

(** The decoding expression on what [findBands] returned. *)
Lemma detected_resistance (cv : Library) (img : Image) (cfg : Config)
  (t : list call) (bands : list Band) :
  findBands cv img cfg = (t, Ok bands) ->
  len_in_3_4_5 bands = true ->
  resistance cv bands = Ok (Int (spec_ohms bands)).
Proof.
  intros H Hlen. apply resistance_value.
  - apply len_in_3_4_5_spec in Hlen. lia.
  - exact (findBands_digits cv img cfg t bands H).
Qed.

(** X1.  Every band [findBands] returns carries the name, the digit and
    the display colour of one entry of the colour table; so its digit is a
    decimal digit, and bands of the same name have the same digit. *)
Theorem bands_from_table (cv : Library) (img : Image) (cfg : Config)
  (t : list call) (bands : list Band) :
  findBands cv img cfg = (t, Ok bands) ->
  Forall candidate bands /\
  Forall (fun b => 0 <= bdigit b <= 9) bands /\
  (forall b b', In b bands -> In b' bands ->
     bname b = bname b' -> bdigit b = bdigit b' /\ bdisplay b = bdisplay b').
Proof.
  intros H. pose proof (findBands_candidates cv img cfg t bands H) as Hc.
  split; [exact Hc |]. split; [exact (findBands_digits cv img cfg t bands H) |].
  intros b b' Hb Hb' Hn. rewrite Forall_forall in Hc.
  destruct (Hc b Hb) as (c & Hin & Hcn & Hcd & Hcc).
  destruct (Hc b' Hb') as (c' & Hin' & Hcn' & Hcd' & Hcc').
  rewrite Hcd, Hcd', Hcc, Hcc'.
  assert (E : cname c = cname c') by congruence.
  clear - Hin Hin' E. simpl in Hin, Hin'.
  repeat (destruct Hin as [<- | Hin]);
    repeat (destruct Hin' as [<- | Hin']);
    try contradiction; try discriminate E; split; reflexivity.
Qed.

Lemma bands_from_table_witness :
  exists t bands,
    findBands Synthetic.library Synthetic.img_220k default_Config
    = (t, Ok bands) /\
    map bname bands = ["RED"; "RED"; "BLACK"; "ORANGE"] /\
    Forall candidate bands /\
    Forall (fun b => 0 <= bdigit b <= 9) bands /\
    (forall b b', In b bands -> In b' bands ->
       bname b = bname b' -> bdigit b = bdigit b' /\ bdisplay b = bdisplay b').
Proof.
  destruct (findBands Synthetic.library Synthetic.img_220k default_Config)
    as [t r] eqn:Hf.
  assert (Hr : exists bands, r = Ok bands /\
            map bname bands = ["RED"; "RED"; "BLACK"; "ORANGE"]).
  { vm_compute in Hf. injection Hf as _ <-. eexists. split; reflexivity. }
  destruct Hr as (bands & -> & Hn).
  exists t, bands. split; [reflexivity |]. split; [exact Hn |].
  exact (bands_from_table Synthetic.library Synthetic.img_220k default_Config
           t bands Hf).
Defined.

(** X2.  Whenever [findBands] returns, [analyze] answers with every band
    in the order of the list and, for 3, 4 or 5 bands, with the integer
    the digits write: the guarded decoding never falls back to [None] and
    never yields a float on detected bands. *)
Theorem analyze_decodes_detected (cv : Library) (bgr : Image)
  (t : list call) (bands : list Band) :
  findBands cv bgr default_Config = (t, Ok bands) ->
  analyze cv bgr
  = (t, Analysed (map band_json bands)
          (if len_in_3_4_5 bands then Some (Int (spec_ohms bands)) else None)) /\
  map App.x (map band_json bands) = map bx bands /\
  Sorted Z.le (map App.x (map band_json bands)).
Proof.
  intros H. split; [| split].
  - unfold analyze, respond. rewrite H. rewrite value_ohms_resistance.
    destruct (len_in_3_4_5 bands) eqn:Hlen; [| reflexivity].
    now rewrite (detected_resistance cv bgr default_Config t bands H Hlen).
  - rewrite map_map. reflexivity.
  - rewrite map_map. cbn [band_json App.x].
    unfold findBands in H.
    apply bind_Ok in H. destruct H as (t1 & bandpos & t2 & _ & H & _).
    apply ret_Ok in H. destruct H as [<- _].
    pose proof (sorted_Sorted bx bandpos) as Hs.
    induction Hs as [| b l Hs IH Hhd]; simpl; constructor; [exact IH |].
    destruct Hhd; simpl; constructor. assumption.
Qed.

Lemma analyze_decodes_detected_witness :
  exists t bands,
    analyze Synthetic.library Synthetic.img_220k
    = (t, Analysed (map band_json bands) (Some (Int 220000))) /\
    map App.x (map band_json bands) = map bx bands /\
    Sorted Z.le (map App.x (map band_json bands)).
Proof.
  destruct (findBands Synthetic.library Synthetic.img_220k default_Config)
    as [t r] eqn:Hf.
  assert (Hr : exists bands, r = Ok bands /\
            (if len_in_3_4_5 bands then Some (Int (spec_ohms bands)) else None)
            = Some (Int 220000)).
  { vm_compute in Hf. injection Hf as _ <-. eexists. split; reflexivity. }
  destruct Hr as (bands & -> & Hv).
  exists t, bands. rewrite <- Hv.
  exact (analyze_decodes_detected Synthetic.library Synthetic.img_220k
           t bands Hf).
Defined.

End DetectedFacts.

(** ** The command-line program *)

Module CliFacts.
Import Py Cv Builtins Resit MonadFacts DecodeFacts DetectedFacts Spec Notions.

(** X3.  Once the image is read and [findBands] has returned, the
    command-line program cannot fail in the decoding: [displayResults]
    prints the resistance exactly when there are 3, 4 or 5 bands, the
    integer the digits write, and the program goes on to wait for a key and
    to close the windows. *)
Theorem main_decodes_detected (host : Cli.Host) (cv : Library)
  (args : Cli.Args) (img : Image) (t : list call) (bands : list Band) :
  Cli.imread host (Cli.image args) = Some img ->
  findBands cv img (Cli.config_of args) = (t, Ok bands) ->
  displayResults cv bands = (printed bands, Ok tt) /\
  Cli.main host cv args
  = (Cli.Imread (Cli.image args) :: map Cli.Pipeline (t ++ printed bands)
       ++ fst (closing host),
     snd (closing host)).
Proof.
  intros Hread Hfind.
  assert (Hd : displayResults cv bands = (printed bands, Ok tt)).
  { unfold displayResults, printed.
    destruct (len_in_3_4_5 bands) eqn:Hlen; [| reflexivity].
    now rewrite (detected_resistance cv img _ t bands Hfind Hlen). }
  split; [exact Hd |].
  unfold Cli.main, closing. rewrite Hread, Hfind, Hd.
  destruct (Cli.waitKey host 0) as [k | e]; [| reflexivity].
  destruct (Cli.destroyAllWindows host) as [u | e]; reflexivity.
Qed.

Lemma main_decodes_detected_witness :
  exists t bands,
    printed bands = [Call_print_resistance (Int 220000)] /\
    displayResults Synthetic.library bands = (printed bands, Ok tt) /\
    Cli.main (host_with Synthetic.img_220k) Synthetic.library Cli.default_Args
    = ((Cli.Imread "testresistor.jpg" :: map Cli.Pipeline (t ++ printed bands))
         ++ [Cli.WaitKey 0; Cli.DestroyAllWindows],
       Cli.Finished).
Proof.
  destruct (findBands Synthetic.library Synthetic.img_220k
              (Cli.config_of Cli.default_Args)) as [t r] eqn:Hf.
  assert (Hr : exists bands, r = Ok bands /\
            printed bands = [Call_print_resistance (Int 220000)]).
  { vm_compute in Hf. injection Hf as _ <-. eexists. split; reflexivity. }
  destruct Hr as (bands & -> & Hp).
  exists t, bands. split; [exact Hp |].
  exact (main_decodes_detected (host_with Synthetic.img_220k)
           Synthetic.library Cli.default_Args Synthetic.img_220k t bands
           eq_refl Hf).
Defined.

End CliFacts.

(** ** Runs and their logs *)

Module LogFacts.
Import Py Cv MonadFacts.

Lemma bind_run {A B : Type} (m : M A) (k : A -> M B)
  (t1 t2 : list call) (a : A) (r : result B) :
  m = (t1, Ok a) -> k a = (t2, r) -> bind m k = (t1 ++ t2, r).
Proof. intros -> Hk. simpl. now rewrite Hk. Qed.

Lemma filter_none {A : Type} (p : A -> bool) (xs : list A) :
  Forall (fun x => p x = false) xs -> filter p xs = [].
Proof.
  induction 1 as [| x xs Hx _ IH]; simpl; [reflexivity |]. now rewrite Hx.
Qed.

Lemma filter_all {A : Type} (p : A -> bool) (xs : list A) :
  Forall (fun x => p x = true) xs -> filter p xs = xs.
Proof.
  induction 1 as [| x xs Hx _ IH]; simpl; [reflexivity |].
  now rewrite Hx, IH.
Qed.

Lemma trace_run {A : Type} (m : M A) (t : list call) (r : result A) :
  m = (t, r) -> trace m = t.
Proof. now intros ->. Qed.

End LogFacts.

(** ** Calls that draw, show or print *)

Module DisplayFacts.
Import Py Cv Builtins Resit App MonadFacts TraceFacts LogFacts Spec Notions.

Lemma preprocess_silent (cv : Library) (img : Image) (cfg : Config) :
  Forall silent (trace (_preprocess cv img cfg)).
Proof.
  unfold _preprocess, downscaled. every_call; reflexivity.
Qed.

Lemma roi_silent (cv : Library) (gray th : Plane) (cfg : Config) :
  Forall silent (trace (_resistor_roi_mask cv gray th cfg)).
Proof.
  unfold _resistor_roi_mask, roi_step. every_call; reflexivity.
Qed.

Lemma collect_silent (cv : Library) (m : Z) (clr : ColourEntry)
  (cs : list Contour) (acc : list Band) :
  Forall silent (trace (for_each (collect_band cv m clr) acc cs)).
Proof.
  revert acc. apply every_for_each. intros acc c.
  unfold collect_band. every_call.
Qed.

Lemma colour_step_silent (cv : Library) (cfg : Config) (hsv : Image)
  (thresh pre kernel roi : Plane) (m : Z)
  (st : list Band * Image) (clr : ColourEntry) :
  debug cfg = false ->
  Forall silent (trace (colour_step cv cfg hsv thresh pre kernel roi m st clr)).
Proof.
  intros Hd. unfold colour_step, collect_band. rewrite Hd.
  every_call; reflexivity.
Qed.

Lemma findBands_silent (cv : Library) (img : Image) (cfg : Config) :
  debug cfg = false -> Forall silent (trace (findBands cv img cfg)).
Proof.
  intros Hd. unfold findBands, detectBands.
  apply every_bind; [| intros; apply every_ret].
  apply every_bind; [apply preprocess_silent |].
  intros [[[img1 gray] hsv] thresh]. destruct (shape img1) as [h w].
  apply every_bind; [apply every_lift | intros m].
  apply every_bind; [apply every_invoke; reflexivity | intros kernel].
  apply every_bind; [apply roi_silent | intros roi].
  apply every_bind.
  { apply every_for_each. intros st clr. now apply colour_step_silent. }
  intros st. rewrite Hd. every_call.
Qed.

(** X4.  Without the debug flag, [findBands] neither draws nor shows nor
    prints anything, whatever the image and however the run ends; the
    [/analyze] endpoint, which runs it with [Config(debug=False)], never
    opens a window. *)
Theorem quiet_without_debug (cv : Library) (img : Image) (cfg : Config) :
  debug cfg = false ->
  Forall (fun c => is_display c = false) (trace (findBands cv img cfg)) /\
  Forall (fun c => is_display c = false) (fst (analyze cv img)).
Proof.
  intros Hd. split; [now apply findBands_silent |].
  unfold analyze.
  pose proof (findBands_silent cv img default_Config eq_refl) as H.
  destruct (findBands cv img default_Config) as [t [bands | e]]; exact H.
Qed.

Lemma quiet_without_debug_witness :
  Forall (fun c => is_display c = false)
    (trace (findBands Synthetic.library Synthetic.img_220k default_Config)) /\
  Forall (fun c => is_display c = false)
    (fst (analyze Synthetic.library Synthetic.img_220k)).
Proof.
  apply (quiet_without_debug Synthetic.library Synthetic.img_220k
           default_Config).
  reflexivity.
Defined.

End DisplayFacts.

(** ** The opening of the colour masks *)

Module OpeningFacts.
Import Py Cv Builtins Resit App MonadFacts TraceFacts LogFacts Spec Notions.

Lemma preprocess_unopened (cv : Library) (img : Image) (cfg : Config) :
  Forall unopened (trace (_preprocess cv img cfg)).
Proof.
  unfold _preprocess, downscaled. every_call; reflexivity.
Qed.

Lemma roi_unopened (cv : Library) (gray th : Plane) (cfg : Config) :
  Forall unopened (trace (_resistor_roi_mask cv gray th cfg)).
Proof.
  unfold _resistor_roi_mask, roi_step. every_call; reflexivity.
Qed.

Lemma collect_unopened (cv : Library) (m : Z) (clr : ColourEntry)
  (cs : list Contour) (acc : list Band) :
  Forall unopened (trace (for_each (collect_band cv m clr) acc cs)).
Proof.
  revert acc. apply every_for_each. intros acc c.
  unfold collect_band. every_call.
Qed.

(** The openings one colour asks for, in a round that completes. *)
Lemma colour_step_openings (cv : Library) (cfg : Config) (hsv : Image)
  (thresh pre kernel roi : Plane) (m : Z)
  (st st' : list Band * Image) (clr : ColourEntry) (t : list call) :
  colour_step cv cfg hsv thresh pre kernel roi m st clr = (t, Ok st') ->
  filter is_opening t
  = if morph_kernel cfg >? 1 then [Call_morphologyEx MORPH_OPEN kernel 1]
    else [].
Proof.
  destruct st as [bandpos img1]. unfold colour_step. intros H.
  apply bind_Ok in H. destruct H as (t1 & mask1 & t1' & H1 & H & ->).
  apply lift_Ok in H1. destruct H1 as [_ ->].
  apply bind_Ok in H. destruct H as (t2 & mask2 & t2' & H2 & H & ->).
  apply lift_Ok in H2. destruct H2 as [_ ->].
  apply bind_Ok in H. destruct H as (t3 & mask3 & t3' & H3 & H & ->).
  apply lift_Ok in H3. destruct H3 as [_ ->].
  apply bind_Ok in H. destruct H as (t4 & mask4 & t4' & H4 & H & ->).
  apply bind_Ok in H. destruct H as (t5 & contours & t5' & H5 & H & ->).
  apply invoke_Ok in H5. destruct H5 as [_ ->].
  apply bind_Ok in H. destruct H as (t6 & bp & t6' & H6 & H & ->).
  apply bind_Ok in H. destruct H as (t7 & img' & t7' & H7 & H & ->).
  apply ret_Ok in H. destruct H as [_ ->].
  pose proof (collect_unopened cv m clr contours bandpos) as Hc.
  rewrite (trace_run _ _ _ H6) in Hc.
  rewrite !filter_app, (filter_none _ _ Hc). cbn [filter is_opening app].
  assert (E7 : filter is_opening t7 = []).
  { destruct (debug cfg).
    - apply invoke_Ok in H7. destruct H7 as [_ ->]. reflexivity.
    - apply ret_Ok in H7. destruct H7 as [_ ->]. reflexivity. }
  rewrite E7, !app_nil_r.
  destruct (morph_kernel cfg >? 1).
  - apply invoke_Ok in H4. destruct H4 as [_ ->]. reflexivity.
  - apply ret_Ok in H4. destruct H4 as [_ ->]. reflexivity.
Qed.

Lemma colour_loop_openings (cv : Library) (cfg : Config) (hsv : Image)
  (thresh pre kernel roi : Plane) (m : Z) (clrs : list ColourEntry) :
  forall st st' t,
    for_each (colour_step cv cfg hsv thresh pre kernel roi m) st clrs
    = (t, Ok st') ->
    filter is_opening t
    = if morph_kernel cfg >? 1
      then repeat (Call_morphologyEx MORPH_OPEN kernel 1) (List.length clrs)
      else [].
Proof.
  induction clrs as [| clr clrs IH]; intros st st' t H; simpl in H.
  - apply ret_Ok in H. destruct H as [_ ->]. now destruct (morph_kernel cfg >? 1).
  - apply bind_Ok in H. destruct H as (t1 & st1 & t2 & Hs & Hrest & ->).
    apply colour_step_openings in Hs. apply IH in Hrest.
    rewrite filter_app, Hs, Hrest.
    now destruct (morph_kernel cfg >? 1).
Qed.

(** X5.  A run of [findBands] that returns has asked for a square
    structuring element of side [morph_kernel] as configured, without the
    lower bound of 3 the region-of-interest step applies and also when no
    opening will use it, and the library has supplied it; the colour masks
    are then opened once per colour of the table with that element, one
    iteration, when [morph_kernel] exceeds 1, and not at all otherwise. *)
Theorem opening_per_colour (cv : Library) (img : Image) (cfg : Config)
  (t : list call) (bands : list Band) :
  findBands cv img cfg = (t, Ok bands) ->
  let k := morph_kernel cfg in
  exists kernel,
    getStructuringElement cv MORPH_RECT (k, k) = Ok kernel /\
    In (Call_getStructuringElement MORPH_RECT (k, k)) t /\
    filter is_opening t
    = if k >? 1 then repeat (Call_morphologyEx MORPH_OPEN kernel 1) 10
      else [].
Proof.
  intros H k. unfold findBands in H.
  apply bind_Ok in H. destruct H as (td & bandpos & tr & Hd & H & ->).
  apply ret_Ok in H. destruct H as [_ ->]. rewrite app_nil_r.
  unfold detectBands in Hd.
  apply bind_Ok in Hd.
  destruct Hd as (t1 & [[[img1 gray] hsv] thresh] & t1' & H1 & H & ->).
  destruct (shape img1) as [h w].
  apply bind_Ok in H. destruct H as (t2 & m & t2' & H2 & H & ->).
  apply lift_Ok in H2. destruct H2 as [_ ->].
  apply bind_Ok in H. destruct H as (t3 & kernel & t3' & H3 & H & ->).
  apply invoke_Ok in H3. destruct H3 as [Hk ->].
  apply bind_Ok in H. destruct H as (t4 & roi & t4' & H4 & H & ->).
  apply bind_Ok in H. destruct H as (t5 & st & t5' & H5 & H & ->).
  apply bind_Ok in H. destruct H as (t6 & u6 & t6' & H6 & H & ->).
  apply bind_Ok in H. destruct H as (t7 & u7 & t7' & H7 & H & ->).
  apply ret_Ok in H. destruct H as [_ ->].
  exists kernel. split; [exact Hk |]. split.
  { apply in_or_app. right. apply in_or_app. right. now left. }
  pose proof (preprocess_unopened cv img cfg) as Hp.
  rewrite (trace_run _ _ _ H1) in Hp.
  pose proof (roi_unopened cv gray thresh cfg) as Hr.
  rewrite (trace_run _ _ _ H4) in Hr.
  apply colour_loop_openings in H5.
  assert (E6 : filter is_opening t6 = []).
  { apply filter_none. rewrite <- (trace_run _ _ _ H6).
    unfold when. every_call; reflexivity. }
  assert (E7 : filter is_opening t7 = []).
  { apply filter_none. rewrite <- (trace_run _ _ _ H7).
    unfold when. every_call; reflexivity. }
  rewrite !filter_app, (filter_none _ _ Hp), (filter_none _ _ Hr), H5, E6, E7.
  cbn [filter is_opening app]. rewrite !app_nil_r. reflexivity.
Qed.

Lemma opening_per_colour_witness :
  exists t bands kernel,
    findBands Synthetic.library Synthetic.img_220k default_Config
    = (t, Ok bands) /\
    getStructuringElement Synthetic.library MORPH_RECT (3, 3) = Ok kernel /\
    In (Call_getStructuringElement MORPH_RECT (3, 3)) t /\
    filter is_opening t = repeat (Call_morphologyEx MORPH_OPEN kernel 1) 10.
Proof.
  destruct (findBands Synthetic.library Synthetic.img_220k default_Config)
    as [t r] eqn:Hf.
  assert (Hr : exists bands, r = Ok bands).
  { vm_compute in Hf. injection Hf as _ <-. eexists. reflexivity. }
  destruct Hr as (bands & ->).
  destruct (opening_per_colour Synthetic.library Synthetic.img_220k
              default_Config t bands Hf) as (kernel & Hk & Hin & Ho).
  exists t, bands, kernel. auto.
Defined.

End OpeningFacts.

(** ** The debug flag and the result *)

Module DebugFacts.
Import Py Cv Builtins Resit App MonadFacts TraceFacts LogFacts DisplayFacts.
Import Spec Notions.

Lemma bind_lift_Ok {A B : Type} (a : A) (k : A -> M B) :
  bind (lift (Ok a)) k = k a.
Proof. unfold bind, lift. now destruct (k a). Qed.

Lemma bind_ret {A B : Type} (a : A) (k : A -> M B) : bind (ret a) k = k a.
Proof. unfold bind, ret. now destruct (k a). Qed.

Lemma bind_invoke_Ok {A B : Type} (c : call) (a : A) (k : A -> M B) :
  bind (invoke c (Ok a)) k = (c :: trace (k a), outcome (k a)).
Proof. unfold bind, invoke. now destruct (k a). Qed.

Lemma bind_Ok_run {A B : Type} (m : M A) (k : A -> M B)
  (t : list call) (a : A) :
  m = (t, Ok a) -> bind m k = (t ++ trace (k a), outcome (k a)).
Proof. intros ->. unfold bind. now destruct (k a). Qed.

Lemma undisplayed_app (t1 t2 : list call) :
  undisplayed (t1 ++ t2) = undisplayed t1 ++ undisplayed t2.
Proof. apply filter_app. Qed.

Lemma undisplayed_silent (t : list call) :
  Forall silent t -> undisplayed t = t.
Proof.
  intros H. apply filter_all. eapply Forall_impl; [| exact H].
  intros c Hc. unfold silent in Hc. now rewrite Hc.
Qed.

Lemma preprocess_debug (cv : Library) (img : Image) (cfg : Config) (b : bool) :
  _preprocess cv img (with_debug b cfg) = _preprocess cv img cfg.
Proof. reflexivity. Qed.

Lemma roi_debug (cv : Library) (gray th : Plane) (cfg : Config) (b : bool) :
  _resistor_roi_mask cv gray th (with_debug b cfg)
  = _resistor_roi_mask cv gray th cfg.
Proof. reflexivity. Qed.

(** One colour, with and without the debug flag: the same bands, the
    same calls but for the drawing. *)
Lemma colour_step_debug (cv : Library) (cfg : Config) (hsv : Image)
  (thresh pre kernel roi : Plane) (m : Z)
  (st st' : list Band * Image) (clr : ColourEntry) (t : list call) :
  colour_step cv (with_debug true cfg) hsv thresh pre kernel roi m st clr
  = (t, Ok st') ->
  forall img2,
    colour_step cv (with_debug false cfg) hsv thresh pre kernel roi m
      (fst st, img2) clr
    = (undisplayed t, Ok (fst st', img2)).
Proof.
  destruct st as [bandpos img1]. unfold colour_step.
  cbn [debug morph_kernel with_debug fst]. intros H img2.
  apply bind_Ok in H. destruct H as (t1 & mask1 & t1' & H1 & H & ->).
  apply lift_Ok in H1. destruct H1 as [H1 ->].
  apply bind_Ok in H. destruct H as (t2 & mask2 & t2' & H2 & H & ->).
  apply lift_Ok in H2. destruct H2 as [H2 ->].
  apply bind_Ok in H. destruct H as (t3 & mask3 & t3' & H3 & H & ->).
  apply lift_Ok in H3. destruct H3 as [H3 ->].
  apply bind_Ok in H. destruct H as (t4 & mask4 & t4' & H4 & H & ->).
  apply bind_Ok in H. destruct H as (t5 & contours & t5' & H5 & H & ->).
  apply invoke_Ok in H5. destruct H5 as [H5 ->].
  apply bind_Ok in H. destruct H as (t6 & bp & t6' & H6 & H & ->).
  apply bind_Ok in H. destruct H as (t7 & img' & t7' & H7 & H & ->).
  apply invoke_Ok in H7. destruct H7 as [H7 ->].
  apply ret_Ok in H. destruct H as [<- ->].
  rewrite H1, bind_lift_Ok, H2, bind_lift_Ok, H3, bind_lift_Ok.
  rewrite (bind_Ok_run _ _ _ _ H4), H5, bind_invoke_Ok.
  rewrite (bind_Ok_run _ _ _ _ H6), bind_ret. cbn [trace outcome ret fst snd].
  f_equal.
  pose proof (collect_silent cv m clr contours bandpos) as Hc.
  rewrite (trace_run _ _ _ H6) in Hc.
  assert (E4 : undisplayed t4 = t4).
  { apply undisplayed_silent. rewrite <- (trace_run _ _ _ H4).
    every_call; reflexivity. }
  rewrite !undisplayed_app, E4, (undisplayed_silent _ Hc).
  cbn [undisplayed filter is_display negb app]. now rewrite ?app_nil_r.
Qed.

Lemma colour_loop_debug (cv : Library) (cfg : Config) (hsv : Image)
  (thresh pre kernel roi : Plane) (m : Z) (clrs : list ColourEntry) :
  forall st st' t,
    for_each (colour_step cv (with_debug true cfg) hsv thresh pre kernel roi m)
      st clrs = (t, Ok st') ->
    forall img2,
      for_each (colour_step cv (with_debug false cfg) hsv thresh pre kernel
                  roi m) (fst st, img2) clrs
      = (undisplayed t, Ok (fst st', img2)).
Proof.
  induction clrs as [| clr clrs IH]; intros st st' t H img2.
  - cbn [for_each] in H |- *. apply ret_Ok in H. destruct H as [<- ->].
    reflexivity.
  - cbn [for_each] in H |- *.
    apply bind_Ok in H. destruct H as (t1 & st1 & t2 & Hs & Hrest & ->).
    rewrite (bind_Ok_run _ _ _ _ (colour_step_debug _ _ _ _ _ _ _ _ _ _ _ _ Hs img2)).
    rewrite (IH _ _ _ Hrest img2). cbn [trace outcome fst snd].
    now rewrite undisplayed_app.
Qed.

(** X6.  The debug flag does not change the result: when [findBands]
    returns with the flag set, it returns the same bands without it, and
    its calls are the same in the same order, but for the drawing, the two
    windows and the timing line. *)
Theorem debug_keeps_bands (cv : Library) (img : Image) (cfg : Config)
  (t : list call) (bands : list Band) :
  findBands cv img (with_debug true cfg) = (t, Ok bands) ->
  findBands cv img (with_debug false cfg) = (undisplayed t, Ok bands).
Proof.
  unfold findBands. intros H.
  apply bind_Ok in H. destruct H as (td & bandpos & tr & Hd & H & ->).
  apply ret_Ok in H. destruct H as [<- ->]. rewrite app_nil_r.
  assert (Hq : detectBands cv img (with_debug false cfg)
               = (undisplayed td, Ok bandpos)).
  2: { rewrite (bind_Ok_run _ _ _ _ Hq). cbn [trace outcome ret fst snd].
       now rewrite app_nil_r. }
  unfold detectBands in Hd |- *.
  rewrite preprocess_debug in Hd |- *.
  apply bind_Ok in Hd.
  destruct Hd as (t1 & [[[img1 gray] hsv] thresh] & t1' & H1 & H & ->).
  rewrite (bind_Ok_run _ _ _ _ H1). cbv beta iota zeta.
  destruct (shape img1) as [h w].
  apply bind_Ok in H. destruct H as (t2 & m & t2' & H2 & H & ->).
  apply lift_Ok in H2. destruct H2 as [H2 ->].
  change (_estimate_min_area h w (with_debug false cfg))
    with (_estimate_min_area h w (with_debug true cfg)).
  rewrite H2, bind_lift_Ok.
  cbn [morph_kernel with_debug] in H |- *.
  apply bind_Ok in H. destruct H as (t3 & kernel & t3' & H3 & H & ->).
  apply invoke_Ok in H3. destruct H3 as [H3 ->].
  rewrite H3, bind_invoke_Ok.
  rewrite roi_debug in H |- *.
  apply bind_Ok in H. destruct H as (t4 & roi & t4' & H4 & H & ->).
  rewrite (bind_Ok_run _ _ _ _ H4).
  apply bind_Ok in H. destruct H as (t5 & st & t5' & H5 & H & ->).
  pose proof (colour_loop_debug _ _ _ _ _ _ _ _ _ _ _ _ H5 img1) as H5'.
  cbn [fst] in H5'. rewrite (bind_Ok_run _ _ _ _ H5').
  cbn [debug with_debug when] in H |- *.
  apply bind_Ok in H. destruct H as (t6 & u6 & t6' & H6 & H & ->).
  apply bind_Ok in H6. destruct H6 as (t61 & u61 & t62 & H61 & H62 & ->).
  apply invoke_Ok in H61. destruct H61 as [_ ->].
  apply invoke_Ok in H62. destruct H62 as [_ ->].
  apply bind_Ok in H. destruct H as (t7 & u7 & t7' & H7 & H & ->).
  apply invoke_Ok in H7. destruct H7 as [_ ->].
  apply ret_Ok in H. destruct H as [<- ->].
  rewrite !bind_ret. cbn [trace outcome ret fst snd].
  f_equal.
  pose proof (preprocess_silent cv img cfg) as Hp.
  rewrite (trace_run _ _ _ H1) in Hp.
  pose proof (roi_silent cv gray thresh cfg) as Hr.
  rewrite (trace_run _ _ _ H4) in Hr.
  rewrite !undisplayed_app.
  rewrite (undisplayed_silent _ Hp), (undisplayed_silent _ Hr).
  cbn [undisplayed filter is_display negb app]. now rewrite ?app_nil_r.
Qed.

Lemma debug_keeps_bands_witness :
  exists t bands,
    findBands Synthetic.library Synthetic.img_220k
      (with_debug true default_Config) = (t, Ok bands) /\
    List.length t = (List.length (undisplayed t) + 13)%nat /\
    findBands Synthetic.library Synthetic.img_220k
      (with_debug false default_Config) = (undisplayed t, Ok bands).
Proof.
  destruct (findBands Synthetic.library Synthetic.img_220k
              (with_debug true default_Config)) as [t r] eqn:Hf.
  assert (Hr : exists bands, r = Ok bands /\
            List.length t = (List.length (undisplayed t) + 13)%nat).
  { vm_compute in Hf. injection Hf as <- <-. eexists. split; reflexivity. }
  destruct Hr as (bands & -> & Hl).
  exists t, bands. split; [reflexivity |]. split; [exact Hl |].
  exact (debug_keeps_bands Synthetic.library Synthetic.img_220k
           default_Config t bands Hf).
Defined.

End DebugFacts.

(** ** The order of doubles *)

Module FloatOrderFacts.
Import Py Spec Notions.

Lemma SFltb_rank (x y : float) :
  not_nan x -> not_nan y ->
  (SFltb x y = true <-> lex_lt (rank x) (rank y)).
Proof.
  unfold SFltb.
  destruct x as [sx | sx | | sx mx e1], y as [sy | sy | | sy my e2];
    cbn [not_nan]; try contradiction; intros _ _;
    try destruct sx; try destruct sy; cbn [SFcompare rank lex_lt];
    try (split; [discriminate | lia]);
    try (split; [intros _; lia | reflexivity]).
  - (* two negative finite doubles *)
    change (Pos.compare_cont Eq mx my) with (Pos.compare mx my).
    destruct (Z.compare_spec e1 e2) as [E | E | E].
    + subst. destruct (Pos.compare_spec mx my) as [H | H | H];
        cbn [CompOpp]; split; try discriminate; try reflexivity; lia.
    + split; [discriminate | lia].
    + split; [intros _; lia | reflexivity].
  - (* two positive finite doubles *)
    change (Pos.compare_cont Eq mx my) with (Pos.compare mx my).
    destruct (Z.compare_spec e1 e2) as [E | E | E].
    + subst. destruct (Pos.compare_spec mx my) as [H | H | H];
        split; try discriminate; try reflexivity; lia.
    + split; [intros _; lia | reflexivity].
    + split; [discriminate | lia].
Qed.

Lemma SFltb_not_nan (x y : float) :
  SFltb x y = true -> not_nan x /\ not_nan y.
Proof.
  unfold SFltb. destruct x, y; cbn [SFcompare not_nan]; auto; discriminate.
Qed.

Lemma lex_lt_trans (a b c : Z * Z * Z) :
  lex_lt a b -> lex_lt b c -> lex_lt a c.
Proof.
  destruct a as [[a1 a2] a3], b as [[b1 b2] b3], c as [[c1 c2] c3].
  unfold lex_lt. lia.
Qed.

Lemma lex_lt_below (a b c : Z * Z * Z) :
  ~ lex_lt b a -> lex_lt b c -> lex_lt a c.
Proof.
  destruct a as [[a1 a2] a3], b as [[b1 b2] b3], c as [[c1 c2] c3].
  unfold lex_lt. lia.
Qed.

Lemma SFltb_irrefl (x : float) : SFltb x x = false.
Proof.
  destruct x as [s | s | | s m e].
  - reflexivity.
  - now destruct s.
  - reflexivity.
  - destruct (SFltb (S754_finite s m e) (S754_finite s m e)) eqn:E;
      [| reflexivity].
    apply SFltb_rank in E; try exact I.
    destruct s; cbn [rank lex_lt] in E; lia.
Qed.

Lemma SFltb_trans (x y z : float) :
  SFltb x y = true -> SFltb y z = true -> SFltb x z = true.
Proof.
  intros Hxy Hyz.
  destruct (SFltb_not_nan x y Hxy) as [Nx Ny].
  destruct (SFltb_not_nan y z Hyz) as [_ Nz].
  apply SFltb_rank in Hxy; try assumption.
  apply SFltb_rank in Hyz; try assumption.
  apply SFltb_rank; try assumption.
  eapply lex_lt_trans; eassumption.
Qed.

(** [x] is not above [y], and [y] is below [z]: then [x] is below [z]. *)
Lemma SFltb_below (x y z : float) :
  not_nan x -> SFltb y x = false -> SFltb y z = true -> SFltb x z = true.
Proof.
  intros Nx Hyx Hyz.
  destruct (SFltb_not_nan y z Hyz) as [Ny Nz].
  apply SFltb_rank in Hyz; try assumption.
  apply SFltb_rank; try assumption.
  apply (lex_lt_below _ (rank y)); [| exact Hyz].
  intros H. apply SFltb_rank in H; try assumption. congruence.
Qed.

(** [x] is below [y], and [z] is not above [x]... *)
Lemma SFltb_above (x y z : float) :
  SFltb x y = true -> SFltb x z = false -> SFltb y z = false.
Proof.
  intros Hxy Hxz. destruct (SFltb y z) eqn:E; [| reflexivity].
  rewrite (SFltb_trans x y z Hxy E) in Hxz. discriminate.
Qed.

End FloatOrderFacts.

(** ** The choice of the resistor body *)

Module ChoiceFacts.
Import Py Cv Builtins Resit MonadFacts TraceFacts LogFacts FloatOrderFacts.
Import Spec Notions.

Section WithLibrary.
Context (cv : Library) (h w : Z).

(** One round of the choice, in terms of floor and score. *)
Lemma roi_step_Ok (best : option Contour) (bs : float) (c : Contour)
  (t : list call) (st' : option Contour * float) :
  roi_step cv h w (best, bs) c = (t, Ok st') ->
  t = [] /\
  exists floor,
    area_floor h w = Ok floor /\
    ((flt (contourArea cv c) floor = true /\ st' = (best, bs)) \/
     (flt (contourArea cv c) floor = false /\
      exists s, roi_score cv c = Ok s /\
        st' = if fgt s bs then (Some c, s) else (best, bs))).
Proof.
  unfold roi_step, area_floor, roi_score. intros H.
  apply bind_Ok in H. destruct H as (t1 & fh & t1' & H1 & H & ->).
  apply lift_Ok in H1. destruct H1 as [H1 ->].
  apply bind_Ok in H. destruct H as (t2 & fw & t2' & H2 & H & ->).
  apply lift_Ok in H2. destruct H2 as [H2 ->].
  rewrite H1, H2. cbn [rbind].
  destruct (flt (contourArea cv c) (fmul (fmul f_0_001 fh) fw)) eqn:Ef.
  - apply ret_Ok in H. destruct H as [<- ->].
    split; [reflexivity |]. eexists. split; [reflexivity |]. left. auto.
  - destruct (boundingRect cv c) as [[[x y] ww] hh].
    apply bind_Ok in H. destruct H as (t3 & fmin & t3' & H3 & H & ->).
    apply lift_Ok in H3. destruct H3 as [H3 ->].
    apply bind_Ok in H. destruct H as (t4 & fmx & t4' & H4 & H & ->).
    apply lift_Ok in H4. destruct H4 as [H4 ->].
    apply bind_Ok in H. destruct H as (t5 & ar & t5' & H5 & H & ->).
    apply lift_Ok in H5. destruct H5 as [H5 ->].
    rewrite H3, H4. cbn [rbind]. rewrite H5. cbn [rbind].
    set (s := fmul (contourArea cv c) (if fgt ar f_1_5 then ar else f_1_0)) in *.
    assert (Hr : t5' = [] /\ st' = if fgt s bs then (Some c, s) else (best, bs)).
    { destruct (fgt s bs); apply ret_Ok in H; destruct H as [<- ->]; auto. }
    destruct Hr as [-> ->]. split; [reflexivity |].
    eexists. split; [reflexivity |]. right. split; [exact Ef |].
    exists s. auto.
Qed.

Lemma contender_score (c : Contour) (s s' : float) :
  contender cv h w c s -> contender cv h w c s' -> s = s'.
Proof.
  intros (f & _ & _ & Hs) (f' & _ & _ & Hs'). congruence.
Qed.

Lemma above_start (best : option Contour) (score : float) (seen : list Contour) :
  chosen cv h w seen best score -> fgt f_neg_1_0 score = false.
Proof.
  intros [_ H]. destruct best as [b |].
  - destruct H as [H _]. unfold fgt in *.
    destruct (SFltb score f_neg_1_0) eqn:E; [| reflexivity].
    pose proof (SFltb_trans _ _ _ E H) as Hc.
    rewrite SFltb_irrefl in Hc. discriminate.
  - subst. unfold fgt. apply SFltb_irrefl.
Qed.

Lemma chosen_not_nan (best : option Contour) (score : float)
  (seen : list Contour) :
  chosen cv h w seen best score -> not_nan score.
Proof.
  intros [_ H]. destruct best as [b |].
  - destruct H as [H _]. unfold fgt in H.
    now destruct (SFltb_not_nan _ _ H).
  - subst. exact I.
Qed.

(** The invariant of the loop. *)
Lemma roi_step_chosen (seen : list Contour) (best : option Contour)
  (bs : float) (c : Contour) (t : list call) (st' : option Contour * float) :
  chosen cv h w seen best bs ->
  roi_step cv h w (best, bs) c = (t, Ok st') ->
  t = [] /\ chosen cv h w (seen ++ [c]) (fst st') (snd st').
Proof.
  intros Hinv H. apply roi_step_Ok in H.
  destruct H as (-> & floor & Hfloor & H). split; [reflexivity |].
  pose proof (above_start _ _ _ Hinv) as Hstart.
  pose proof (chosen_not_nan _ _ _ Hinv) as Hnn.
  destruct Hinv as [Hall Hbest].
  assert (Hkeep : forall after b before,
            seen = before ++ b :: after ->
            seen ++ [c] = before ++ b :: (after ++ [c])).
  { intros after b before ->. now rewrite <- app_assoc. }
  destruct H as [[Hf ->] | (Hf & s & Hs & ->)]; cbn [fst snd].
  - (* too small: not a contender *)
    split.
    + intros c' s' Hin Hc. apply in_app_or in Hin.
      destruct Hin as [Hin | [<- | []]]; [now apply (Hall c' s') |].
      destruct Hc as (f' & Hf' & Hsmall & _).
      rewrite Hfloor in Hf'. injection Hf' as <-. congruence.
    + destruct best as [b |]; [| exact Hbest].
      destruct Hbest as (Hgt & before & after & Hseen & Hb & Hlt).
      split; [exact Hgt |]. exists before, (after ++ [c]).
      split; [now apply Hkeep |]. auto.
  - assert (Hc : contender cv h w c s) by (exists floor; auto).
    destruct (fgt s bs) eqn:Eg; cbn [fst snd].
    + (* a new best *)
      unfold fgt in Eg. split.
      * intros c' s' Hin Hc'. apply in_app_or in Hin.
        destruct Hin as [Hin | [<- | []]].
        -- unfold fgt. apply (SFltb_above bs s s' Eg).
           exact (Hall c' s' Hin Hc').
        -- rewrite (contender_score _ _ _ Hc' Hc). apply SFltb_irrefl.
      * split.
        -- unfold fgt in *. destruct (SFltb_not_nan _ _ Eg) as [_ Ns].
           apply (SFltb_below f_neg_1_0 bs s); [exact I | exact Hstart | exact Eg].
        -- exists seen, []. split; [reflexivity |]. split; [exact Hc |].
           intros c' s' Hin Hc' Ns'. unfold flt.
           apply (SFltb_below s' bs s); [exact Ns' | | exact Eg].
           exact (Hall c' s' Hin Hc').
    + (* not better than the best so far *)
      split.
      * intros c' s' Hin Hc'. apply in_app_or in Hin.
        destruct Hin as [Hin | [<- | []]]; [now apply (Hall c' s') |].
        now rewrite (contender_score _ _ _ Hc' Hc).
      * destruct best as [b |]; [| exact Hbest].
        destruct Hbest as (Hgt & before & after & Hseen & Hb & Hlt).
        split; [exact Hgt |]. exists before, (after ++ [c]).
        split; [now apply Hkeep |]. auto.
Qed.

Lemma roi_loop_chosen (cs : list Contour) :
  forall seen best bs t st',
    chosen cv h w seen best bs ->
    for_each (roi_step cv h w) (best, bs) cs = (t, Ok st') ->
    t = [] /\ chosen cv h w (seen ++ cs) (fst st') (snd st').
Proof.
  induction cs as [| c cs IH]; intros seen best bs t st' Hinv H.
  - cbn [for_each] in H. apply ret_Ok in H. destruct H as [<- ->].
    rewrite app_nil_r. auto.
  - cbn [for_each] in H.
    apply bind_Ok in H. destruct H as (t1 & [b1 s1] & t2 & H1 & H2 & ->).
    destruct (roi_step_chosen seen best bs c t1 (b1, s1) Hinv H1) as [-> Hinv1].
    cbn [fst snd] in Hinv1.
    destruct (IH (seen ++ [c]) b1 s1 t2 st' Hinv1 H2) as [-> Hinv2].
    split; [reflexivity |]. now rewrite <- app_assoc in Hinv2.
Qed.

End WithLibrary.

Lemma roi_choice_chosen (cv : Library) (h w : Z) (cs : list Contour)
  (t : list call) (best : option Contour) (score : float) :
  for_each (roi_step cv h w) (None, f_neg_1_0) cs = (t, Ok (best, score)) ->
  t = [] /\ chosen cv h w cs best score.
Proof.
  intros H.
  assert (H0 : chosen cv h w [] None f_neg_1_0).
  { split; [intros c s [] | reflexivity]. }
  exact (roi_loop_chosen cv h w cs [] None f_neg_1_0 t (best, score) H0 H).
Qed.

(** X7.  Among the contours whose area reaches 0.1 percent of the image,
    the region-of-interest step picks one whose score no other reaches
    beyond: no such contour scores more than the one picked, those before
    it in the list score strictly less (of equal scores the first wins),
    and the score picked is above the initial -1.0.  When it picks none,
    no large-enough contour scores above -1.0.  The loop itself calls
    nothing. *)
Theorem roi_choice_maximal (cv : Library) (h w : Z) (cs : list Contour)
  (t : list call) (best : option Contour) (score : float) :
  for_each (roi_step cv h w) (None, f_neg_1_0) cs = (t, Ok (best, score)) ->
  t = [] /\
  (forall c s, In c cs -> contender cv h w c s -> fgt s score = false) /\
  match best with
  | None => score = f_neg_1_0
  | Some b =>
      fgt score f_neg_1_0 = true /\
      exists before after,
        cs = before ++ b :: after /\
        contender cv h w b score /\
        forall c s, In c before -> contender cv h w c s -> not_nan s ->
          flt s score = true
  end.
Proof.
  intros H. destruct (roi_choice_chosen cv h w cs t best score H) as [-> Hc].
  split; [reflexivity |]. exact Hc.
Qed.

Lemma roi_choice_maximal_witness :
  let cv := Synthetic.library in
  let cs := [[(5, 0)]; [(2, 0)]] in
  exists score,
    for_each (roi_step cv 10 10) (None, f_neg_1_0) cs
    = ([], Ok (Some [(5, 0)], score)) /\
    (forall c s, In c cs -> contender cv 10 10 c s -> fgt s score = false) /\
    fgt score f_neg_1_0 = true /\
    exists before after,
      cs = before ++ [(5, 0)] :: after /\
      contender cv 10 10 [(5, 0)] score /\
      forall c s, In c before -> contender cv 10 10 c s -> not_nan s ->
        flt s score = true.
Proof.
  intros cv cs.
  destruct (for_each (roi_step cv 10 10) (None, f_neg_1_0) cs) as [t r] eqn:Hf.
  assert (Hr : exists score, t = [] /\ r = Ok (Some [(5, 0)], score)).
  { vm_compute in Hf. injection Hf as <- <-. eexists. split; reflexivity. }
  destruct Hr as (score & -> & ->). exists score.
  split; [reflexivity |].
  destruct (roi_choice_maximal cv 10 10 cs [] (Some [(5, 0)]) score Hf)
    as (_ & Hall & Hbest).
  split; [exact Hall | exact Hbest].
Defined.

End ChoiceFacts.

(** ** The mask of the region of interest *)

Module RoiMaskFacts.
Import Py Cv Builtins Resit MonadFacts TraceFacts LogFacts ChoiceFacts.
Import Spec Notions.

Lemma full_255_zeros {A : Type} (a : list (list A)) :
  full_255 (zeros_like a) = full_255 a.
Proof.
  unfold full_255, zeros_like. rewrite map_map. apply map_ext.
  intros row. now rewrite map_map.
Qed.

Lemma full_255_shape {A : Type} (a : list (list A)) :
  same_shape (full_255 a) a.
Proof.
  unfold same_shape, full_255. rewrite map_map. apply map_ext.
  intros row. apply length_map.
Qed.

Lemma full_255_pixel {A : Type} (a : list (list A)) (i j : nat) (v : Z) :
  pixel_at (full_255 a) i j = Some v -> v = 255.
Proof.
  unfold pixel_at, full_255. rewrite nth_error_map.
  destruct (nth_error a i) as [row |]; cbn [option_map]; [| discriminate].
  rewrite nth_error_map. destruct (nth_error row j); cbn [option_map];
    [| discriminate].
  now intros [= <-].
Qed.

Lemma land_255 (v : Z) : 0 <= v <= 255 -> Z.land v 255 = v.
Proof.
  intros Hv. change 255 with (Z.ones 8). rewrite Z.land_ones by lia.
  apply Z.mod_small. change (2 ^ 8) with 256. lia.
Qed.

(** The choice made in a run of the extractor that returns. *)
Lemma roi_mask_Ok (cv : Library) (gray th : Plane) (cfg : Config)
  (t : list call) (mask : Plane) :
  _resistor_roi_mask cv gray th cfg = (t, Ok mask) ->
  exists closed contours best score,
    findContours cv closed RETR_EXTERNAL CHAIN_APPROX_SIMPLE = Ok contours /\
    for_each (roi_step cv (fst (shape gray)) (snd (shape gray)))
      (None, f_neg_1_0) contours = ([], Ok (best, score)) /\
    match best with
    | None =>
        mask = full_255 gray /\
        filter is_fill t = []
    | Some b =>
        fillContours cv (zeros_like gray) [b] (-1) 255 FILLED = Ok mask /\
        filter is_fill t
        = [Call_fillContours (-1) 255 FILLED]
    end.
Proof.
  unfold _resistor_roi_mask. destruct (shape gray) as [h w]. cbn [fst snd].
  intros H.
  apply bind_Ok in H. destruct H as (t1 & edges & t1' & H1 & H & ->).
  apply invoke_Ok in H1. destruct H1 as [_ ->].
  apply bind_Ok in H. destruct H as (t2 & merged & t2' & H2 & H & ->).
  apply lift_Ok in H2. destruct H2 as [_ ->].
  apply bind_Ok in H. destruct H as (t3 & kernel & t3' & H3 & H & ->).
  apply invoke_Ok in H3. destruct H3 as [_ ->].
  apply bind_Ok in H. destruct H as (t4 & closed & t4' & H4 & H & ->).
  apply invoke_Ok in H4. destruct H4 as [_ ->].
  apply bind_Ok in H. destruct H as (t5 & contours & t5' & H5 & H & ->).
  apply invoke_Ok in H5. destruct H5 as [H5 ->].
  exists closed, contours.
  destruct contours as [| c0 contours].
  - apply ret_Ok in H. destruct H as [<- ->].
    exists None, f_neg_1_0. split; [exact H5 |]. split; [reflexivity |].
    split; reflexivity.
  - apply bind_Ok in H. destruct H as (t6 & [best score] & t6' & H6 & H & ->).
    pose proof (roi_choice_chosen cv h w _ _ _ _ H6) as [-> _].
    exists best, score. split; [exact H5 |]. split; [exact H6 |].
    cbn [fst] in H. destruct best as [b |].
    + apply invoke_Ok in H. destruct H as [H ->]. split; [exact H |].
      reflexivity.
    + apply ret_Ok in H. destruct H as [<- ->]. split; [| reflexivity].
      apply full_255_zeros.
Qed.

Lemma zip_rows_full {A : Type} (m : Plane) (gray : list (list A)) :
  same_shape m gray -> eight_bit m ->
  bitwise_and m (full_255 gray) = Ok m.
Proof.
  unfold bitwise_and, same_shape, eight_bit, full_255.
  revert gray. induction m as [| row m IH]; intros [| g gray] Hs Hv;
    try discriminate; [reflexivity |].
  cbn [map] in Hs. injection Hs as Hlen Hs.
  inversion Hv as [| ? ? Hv1 Hv2]; subst. cbn [map zip_rows].
  assert (Hrow : zip_with Z.land row (map (fun _ : A => 255) g) = Ok row).
  { clear - Hlen Hv1. revert g Hlen.
    induction row as [| v row IHr]; intros [| o g] Hlen;
      try discriminate; [reflexivity |].
    inversion Hv1 as [| ? ? Hx Hy]; subst. cbn [map zip_with].
    rewrite IHr by (auto; simpl in Hlen; lia). cbn [rbind].
    now rewrite land_255. }
  rewrite Hrow. cbn [rbind]. now rewrite IH.
Qed.

(** X8.  When the region-of-interest step finds no contour, or none that
    is large enough and scores above -1.0, it allows the whole image: the
    mask has the shape of the grey image, every pixel is 255, nothing is
    filled, and combining any 8-bit mask of that shape with it leaves that
    mask unchanged.  Otherwise the mask is the contour picked, filled with
    255 on a black image of that shape, and that is the only filling. *)
Theorem roi_mask_cases (cv : Library) (gray th : Plane) (cfg : Config)
  (t : list call) (mask : Plane) :
  _resistor_roi_mask cv gray th cfg = (t, Ok mask) ->
  exists closed contours best score,
    findContours cv closed RETR_EXTERNAL CHAIN_APPROX_SIMPLE = Ok contours /\
    chosen cv (fst (shape gray)) (snd (shape gray)) contours best score /\
    match best with
    | None =>
        mask = full_255 gray /\
        same_shape mask gray /\
        (forall i j v, pixel_at mask i j = Some v -> v = 255) /\
        (forall m, same_shape m gray -> eight_bit m ->
           bitwise_and m mask = Ok m) /\
        filter is_fill t = []
    | Some b =>
        In b contours /\
        fillContours cv (zeros_like gray) [b] (-1) 255 FILLED = Ok mask /\
        filter is_fill t = [Call_fillContours (-1) 255 FILLED]
    end.
Proof.
  intros H. apply roi_mask_Ok in H.
  destruct H as (closed & contours & best & score & Hc & Hloop & Hm).
  exists closed, contours, best, score. split; [exact Hc |].
  apply roi_choice_chosen in Hloop. destruct Hloop as [_ Hch].
  split; [exact Hch |].
  destruct best as [b |].
  - destruct Hm as [Hfill Ht]. split; [| split; [exact Hfill | exact Ht]].
    destruct Hch as (_ & _ & before & after & -> & _).
    apply in_or_app. right. now left.
  - destruct Hm as [-> Ht]. split; [reflexivity |].
    split; [apply full_255_shape |].
    split; [intros i j v; apply full_255_pixel |].
    split; [intros m; apply zip_rows_full | exact Ht].
Qed.

Lemma roi_mask_cases_witness :
  let cv := Synthetic.library in
  let gray := [[7; 7; 7]; [7; 7; 7]] in
  let mask := [[255; 255; 255]; [255; 255; 255]] in
  exists closed contours best score,
    findContours cv closed RETR_EXTERNAL CHAIN_APPROX_SIMPLE = Ok contours /\
    chosen cv (fst (shape gray)) (snd (shape gray)) contours best score /\
    match best with
    | None =>
        mask = full_255 gray /\
        same_shape mask gray /\
        (forall i j v, pixel_at mask i j = Some v -> v = 255) /\
        (forall m, same_shape m gray -> eight_bit m ->
           bitwise_and m mask = Ok m) /\
        filter is_fill
          (trace (_resistor_roi_mask cv gray (zeros_like gray) default_Config))
        = []
    | Some b =>
        In b contours /\
        fillContours cv (zeros_like gray) [b] (-1) 255 FILLED = Ok mask /\
        filter is_fill
          (trace (_resistor_roi_mask cv gray (zeros_like gray) default_Config))
        = [Call_fillContours (-1) 255 FILLED]
    end.
Proof.
  intros cv gray mask.
  apply (roi_mask_cases cv gray (zeros_like gray) default_Config).
  reflexivity.
Defined.

(** A lit pixel of the foreground becomes the region of interest. *)
Example roi_from_foreground :
  let gray := [[7; 7; 7]; [7; 7; 7]] in
  let th := [[0; 255; 0]; [0; 0; 0]] in
  filter is_fill
    (trace (_resistor_roi_mask Synthetic.library gray th default_Config))
  = [Call_fillContours (-1) 255 FILLED].
Proof. vm_compute. reflexivity. Qed.

End RoiMaskFacts.

(** ** The position of a band *)

Module PositionFacts.
Import Py Cv Builtins Resit Spec Notions.

Lemma leftmost_from_spec (rest : Contour) :
  forall (best : Point) (pre mid : Contour),
    Forall (fun q => fst best < fst q) pre ->
    Forall (fun q => fst best <= fst q) mid ->
    exists before after,
      pre ++ best :: mid ++ rest
      = before ++ leftmost_from best rest :: after /\
      Forall (fun q => fst (leftmost_from best rest) < fst q) before /\
      Forall (fun q => fst (leftmost_from best rest) <= fst q) after.
Proof.
  induction rest as [| q rest IH]; intros best pre mid Hpre Hmid.
  - exists pre, mid. rewrite app_nil_r. auto.
  - cbn [leftmost_from]. destruct (fst q <? fst best) eqn:E.
    + apply Z.ltb_lt in E.
      destruct (IH q (pre ++ best :: mid) []) as (before & after & Heq & Hb & Ha).
      * apply Forall_app. split.
        -- eapply Forall_impl; [| exact Hpre]. cbv beta. intros; lia.
        -- constructor; [exact E |].
           eapply Forall_impl; [| exact Hmid]. cbv beta. intros; lia.
      * constructor.
      * exists before, after. split; [| auto].
        rewrite <- Heq. cbn [app]. now rewrite <- app_assoc.
    + apply Z.ltb_ge in E.
      destruct (IH best pre (mid ++ [q])) as (before & after & Heq & Hb & Ha).
      * exact Hpre.
      * apply Forall_app. split; [exact Hmid |]. now constructor.
      * exists before, after. split; [| auto].
        rewrite <- Heq. now rewrite <- app_assoc.
Qed.

(** X9.  The position recorded for a band is a point of its contour with
    the least x-coordinate, the first such point of the contour: every
    point before it lies strictly to the right, every point after it not
    to the left.  Only an empty contour has no such point, and then the
    lookup raises [ValueError]. *)
Theorem leftmost_point (cont : Contour) (clr : ColourEntry) :
  match leftmost cont with
  | Ok p =>
      first_leftmost cont p /\
      bx (band_at p clr) = fst p /\ by_ (band_at p clr) = snd p
  | Raise e => cont = [] /\ e = ValueError
  end.
Proof.
  destruct cont as [| p rest]; cbn [leftmost]; [split; reflexivity |].
  split; [| split; reflexivity].
  destruct (leftmost_from_spec rest p [] []) as (before & after & Heq & Hb & Ha);
    try constructor.
  exists before, after. auto.
Qed.

(** Of two points with the same least x-coordinate, the first is kept. *)
Example leftmost_tie :
  leftmost [(4, 1); (2, 9); (7, 0); (2, 3)] = Ok (2, 9).
Proof. reflexivity. Qed.

End PositionFacts.

(** ** Overlapping colour ranges *)

Module OverlapFacts.
Import Py Cv Builtins Resit MaskFacts Spec Notions.

(** X10.  The bounds of YELLOW (digit 4) lie inside the bounds of GREEN
    (digit 5): every pixel within the bounds of YELLOW is within those of
    GREEN, and for every image every pixel lit in the colour mask of
    YELLOW is lit in the colour mask of GREEN as well.  The converse fails:
    some pixel is within the bounds of GREEN only. *)
Theorem yellow_within_green (hsv : Image) (pre_red_mask : Plane) :
  exists yellow green,
    named "YELLOW" = [yellow] /\ named "GREEN" = [green] /\
    Resit.digit yellow = 4 /\ Resit.digit green = 5 /\
    (forall p, in_range p (lower yellow) (upper yellow) = true ->
       in_range p (lower green) (upper green) = true) /\
    (exists p, in_range p (lower green) (upper green) = true /\
       in_range p (lower yellow) (upper yellow) = false) /\
    exists my mg,
      colour_mask hsv pre_red_mask yellow = Ok my /\
      colour_mask hsv pre_red_mask green = Ok mg /\
      forall i j, pixel_at my i j = Some 255 -> pixel_at mg i j = Some 255.
Proof.
  eexists. eexists. split; [reflexivity |]. split; [reflexivity |].
  split; [reflexivity |]. split; [reflexivity |].
  assert (Hin : forall p,
            in_range p (50, 100, 100) (70, 255, 255) = true ->
            in_range p (45, 100, 50) (75, 255, 255) = true).
  { intros [[p0 p1] p2]. unfold in_range.
    rewrite !andb_true_iff, !Z.leb_le. lia. }
  cbn [lower upper]. split; [exact Hin |]. split.
  { exists (46, 100, 50). split; reflexivity. }
  eexists. eexists. split; [reflexivity |]. split; [reflexivity |].
  intros i j. rewrite !inRange_pixel.
  destruct (pixel_at hsv i j) as [p |]; cbn [option_map]; [| discriminate].
  unfold single. cbn [lower upper].
  destruct (in_range p (50, 100, 100) (70, 255, 255)) eqn:E;
    cbn [mask_value]; [| discriminate].
  now rewrite (Hin p E).
Qed.

End OverlapFacts.

(** ** Regions too small to be bands *)

Module SmallRegionFacts.
Import Py Cv Builtins Resit FilterFacts Spec Notions.

(** X11.  The minimum area [findBands] filters with is never below 1, and
    never below 50 when it is chosen automatically ([min_area] not
    positive); so a contour of area below 1, and in automatic mode any
    contour of area below 50, is never a band, whatever its shape. *)
Theorem small_regions_rejected (cv : Library) (cfg : Config) (h w eff : Z)
  (cont : Contour) :
  _estimate_min_area h w cfg = Ok eff ->
  is_finite (contourArea cv cont) ->
  1 <= eff /\
  (min_area cfg <= 0 -> 50 <= eff) /\
  ((B2Q (contourArea cv cont) < 1)%Q ->
   validContours cv cont eff = Ok false) /\
  (min_area cfg <= 0 -> (B2Q (contourArea cv cont) < 50)%Q ->
   validContours cv cont eff = Ok false).
Proof.
  intros He Hfin.
  assert (Hb : 1 <= eff /\ (min_area cfg <= 0 -> 50 <= eff)).
  { unfold _estimate_min_area in He.
    destruct (min_area cfg >? 0) eqn:E.
    - injection He as <-. lia.
    - destruct (float_of_int h) as [fh | e]; [| discriminate].
      cbn [rbind] in He.
      destruct (float_of_int w) as [fw | e]; [| discriminate].
      cbn [rbind] in He.
      destruct (int_of_float (fmul (fmul f_0_0005 fh) fw)) as [n | e];
        [| discriminate].
      cbn [rbind] in He. injection He as <-. lia. }
  destruct Hb as [H1 H50]. split; [exact H1 |]. split; [exact H50 |].
  assert (Hrej : forall k, (B2Q (contourArea cv cont) < inject_Z k)%Q ->
            k <= eff -> validContours cv cont eff = Ok false).
  { intros k Hk Hle. unfold validContours.
    replace (flt_int (contourArea cv cont) eff) with true; [reflexivity |].
    symmetry. apply (flt_int_exact _ _ Hfin).
    rewrite Zle_Qle in Hle. lra. }
  split.
  - intros Ha. apply (Hrej 1); [exact Ha | exact H1].
  - intros Hm Ha. apply (Hrej 50); [exact Ha | auto].
Qed.

Lemma small_regions_rejected_witness :
  let cv := with_area (S754_zero false) Synthetic.library in
  let cont := [(3, 0)] in
  1 <= 57 /\
  (min_area default_Config <= 0 -> 50 <= 57) /\
  ((B2Q (contourArea cv cont) < 1)%Q ->
   validContours cv cont 57 = Ok false) /\
  (min_area default_Config <= 0 -> (B2Q (contourArea cv cont) < 50)%Q ->
   validContours cv cont 57 = Ok false).
Proof.
  intros cv cont.
  apply (small_regions_rejected cv default_Config 145 800 57 cont).
  - vm_compute. reflexivity.
  - exact I.
Defined.

End SmallRegionFacts.

(** ** Signs and zeros of doubles *)

Module SignFacts.
Import Py RoundingFacts Spec Notions.

Lemma bra_signed (s : bool) (m e : Z) (l : location) :
  signed s (binary_round_aux prec emax s m e l).
Proof.
  unfold binary_round_aux.
  destruct (shr_fexp prec emax m e l) as [mrs' e'].
  destruct (shr_fexp prec emax _ e' loc_Exact) as [mrs'' e''].
  destruct (shr_m mrs''); [reflexivity | | exact I].
  destruct (e'' <=? emax - prec); reflexivity.
Qed.

Lemma bra_opp (s : bool) (m e : Z) (l : location) :
  binary_round_aux prec emax (negb s) m e l
  = SFopp (binary_round_aux prec emax s m e l).
Proof.
  unfold binary_round_aux.
  destruct (shr_fexp prec emax m e l) as [mrs' e'].
  destruct (shr_fexp prec emax _ e' loc_Exact) as [mrs'' e''].
  destruct (shr_m mrs''); [reflexivity | | reflexivity].
  destruct (e'' <=? emax - prec); reflexivity.
Qed.

Lemma SFmul_signed (sx sy : bool) (x y : float) :
  signed sx x -> signed sy y -> signed (xorb sx sy) (SFmul prec emax x y).
Proof.
  destruct x as [s1 | s1 | | s1 m1 e1], y as [s2 | s2 | | s2 m2 e2];
    cbn [signed SFmul]; try (intros <- <-; reflexivity); auto.
  intros <- <-. apply bra_signed.
Qed.

Lemma SFdiv_signed (sx sy : bool) (x y : float) :
  signed sx x -> signed sy y -> signed (xorb sx sy) (SFdiv prec emax x y).
Proof.
  destruct x as [s1 | s1 | | s1 m1 e1], y as [s2 | s2 | | s2 m2 e2];
    cbn [signed SFdiv]; try (intros <- <-; reflexivity); auto.
  intros <- <-.
  destruct (SFdiv_core_binary prec emax (Z.pos m1) e1 (Z.pos m2) e2)
    as [[mz ez] lz].
  apply bra_signed.
Qed.

Lemma SFmul_opp_r (x y : float) :
  SFmul prec emax x (SFopp y) = SFopp (SFmul prec emax x y).
Proof.
  destruct x as [s1 | s1 | | s1 m1 e1], y as [s2 | s2 | | s2 m2 e2];
    cbn [SFmul SFopp]; try reflexivity;
    try (now rewrite xorb_negb_r || now destruct s1, s2).
  replace (xorb s1 (negb s2)) with (negb (xorb s1 s2)) by (now destruct s1, s2).
  apply bra_opp.
Qed.

Lemma SFdiv_opp_l (x y : float) :
  SFdiv prec emax (SFopp x) y = SFopp (SFdiv prec emax x y).
Proof.
  destruct x as [s1 | s1 | | s1 m1 e1], y as [s2 | s2 | | s2 m2 e2];
    cbn [SFdiv SFopp]; try reflexivity; try (now destruct s1, s2).
  destruct (SFdiv_core_binary prec emax (Z.pos m1) e1 (Z.pos m2) e2)
    as [[mz ez] lz].
  replace (xorb (negb s1) s2) with (negb (xorb s1 s2)) by (now destruct s1, s2).
  apply bra_opp.
Qed.

Lemma int_of_float_opp (x : float) :
  int_of_float (SFopp x)
  = match int_of_float x with Ok n => Ok (- n) | Raise e => Raise e end.
Proof.
  destruct x as [s | s | | s m e]; cbn [SFopp int_of_float]; try reflexivity.
  destruct s; cbn [negb]; f_equal; lia.
Qed.

Lemma int_of_float_signed (x : float) (n : Z) :
  int_of_float x = Ok n ->
  (signed false x -> 0 <= n) /\ (signed true x -> n <= 0).
Proof.
  destruct x as [s | s | | s m e]; unfold int_of_float, signed;
    try discriminate.
  - intros [= <-]. lia.
  - cbv zeta.
    set (mag := if 0 <=? e then Z.pos m * 2 ^ e else Z.pos m / 2 ^ (- e)).
    assert (Hm : 0 <= mag).
    { unfold mag. destruct (0 <=? e) eqn:E.
      - apply Z.leb_le in E.
        assert (0 < 2 ^ e) by (apply Z.pow_pos_nonneg; lia).
        apply Z.mul_nonneg_nonneg; lia.
      - apply Z.leb_gt in E. apply Z.div_pos; [lia |].
        apply Z.pow_pos_nonneg; lia. }
    clearbody mag.
    destruct s; intros [= <-]; split; intros Hs; try discriminate Hs; lia.
Qed.

Lemma binary_round_opp (p : positive) (e : Z) :
  binary_round prec emax true p e = SFopp (binary_round prec emax false p e).
Proof.
  unfold binary_round.
  destruct (shl_align p e _) as [mz ez]. apply (bra_opp false).
Qed.

Lemma float_of_int_opp (n : Z) :
  n <> 0 ->
  float_of_int (- n)
  = match float_of_int n with Ok f => Ok (SFopp f) | Raise e => Raise e end.
Proof.
  unfold float_of_int. destruct n as [| p | p]; [congruence | |]; intros _.
  - cbn [Z.opp binary_normalize]. rewrite binary_round_opp.
    now destruct (binary_round prec emax false p 0) as [s | [|] | | s m e].
  - cbn [Z.opp binary_normalize]. rewrite binary_round_opp.
    now destruct (binary_round prec emax false p 0)
      as [[|] | [|] | | [|] m e].
Qed.

Lemma float_of_int_signed (n : Z) (f : float) :
  float_of_int n = Ok f -> signed (n <? 0) f.
Proof.
  unfold float_of_int. destruct n as [| p | p]; cbn [binary_normalize].
  - intros [= <-]. reflexivity.
  - unfold binary_round. destruct (shl_align p 0 _) as [mz ez].
    pose proof (bra_signed false (Z.pos mz) ez loc_Exact) as H.
    destruct (binary_round_aux prec emax false (Z.pos mz) ez loc_Exact);
      try discriminate; intros [= <-]; exact H.
  - unfold binary_round. destruct (shl_align p 0 _) as [mz ez].
    pose proof (bra_signed true (Z.pos mz) ez loc_Exact) as H.
    destruct (binary_round_aux prec emax true (Z.pos mz) ez loc_Exact);
      try discriminate; intros [= <-]; exact H.
Qed.

Lemma float_of_int_raises (n : Z) (e : exn) :
  float_of_int n = Raise e -> e = OverflowError.
Proof.
  unfold float_of_int.
  destruct (binary_normalize prec emax n 0 false); try discriminate.
  now intros [= <-].
Qed.

Lemma int_of_float_raises (x : float) (e : exn) :
  int_of_float x = Raise e -> e = OverflowError \/ e = ValueError.
Proof.
  destruct x; cbn [int_of_float]; try discriminate; intros [= <-]; auto.
Qed.

(** ** Large mantissas never round to zero *)

Lemma shr_m_iter (n : nat) (mrs : shr_record) :
  0 <= shr_m mrs ->
  shr_m (Nat.iter n shr_1 mrs) = shr_m mrs / 2 ^ Z.of_nat n.
Proof.
  intros Hm. induction n as [| n IH].
  - change (2 ^ Z.of_nat 0) with 1. now rewrite Z.div_1_r.
  - change (Nat.iter (S n) shr_1 mrs) with (shr_1 (Nat.iter n shr_1 mrs)).
    rewrite shr_1_m.
    + rewrite IH, Nat2Z.inj_succ, Z.pow_succ_r by lia.
      rewrite Z.div_div by lia. f_equal. lia.
    + rewrite IH. apply Z.div_pos; [exact Hm | lia].
Qed.

Lemma shifted_large (m : positive) (l : location) :
  53 <= Z.pos (digits2_pos m) ->
  2 ^ 52 <= shr_m (Nat.iter (Z.to_nat (Z.pos (digits2_pos m) - 53)) shr_1
                     (shr_record_of_loc (Z.pos m) l)).
Proof.
  intros Hd. rewrite shr_m_iter.
  2: { destruct l as [| []]; cbn [shr_record_of_loc shr_m]; lia. }
  replace (shr_m (shr_record_of_loc (Z.pos m) l)) with (Z.pos m)
    by (destruct l as [| []]; reflexivity).
  rewrite Z2Nat.id by lia.
  pose proof (digits_bounds m) as [Hlo _].
  set (d := Z.pos (digits2_pos m)) in *.
  apply Z.div_le_lower_bound; [apply Z.pow_pos_nonneg; lia |].
  rewrite <- Z.pow_add_r by lia. replace (d - 53 + 52) with (d - 1) by lia.
  exact Hlo.
Qed.

Lemma round_nearest_even_ge (m : Z) (l : location) :
  m <= round_nearest_even m l.
Proof.
  destruct l as [| []]; cbn [round_nearest_even]; try lia.
  destruct (Z.even m); lia.
Qed.

Lemma large_digits (p : positive) : 2 ^ 52 <= Z.pos p -> 53 <= Z.pos (digits2_pos p).
Proof.
  intros Hp. pose proof (digits_bounds p) as [_ Hhi].
  assert (52 < Z.pos (digits2_pos p)); [| lia].
  apply (Z.pow_lt_mono_r_iff 2); lia.
Qed.

(** A mantissa of at least 53 digits, well above the subnormal range,
    rounds to a finite non-zero double or overflows. *)
Lemma bra_large (s : bool) (M : positive) (e : Z) (l : location) :
  53 <= Z.pos (digits2_pos M) ->
  -1074 <= e + Z.pos (digits2_pos M) - 53 ->
  (exists m' e', binary_round_aux prec emax s (Z.pos M) e l
                 = S754_finite s m' e') \/
  binary_round_aux prec emax s (Z.pos M) e l = S754_infinity s.
Proof.
  intros Hd He. unfold binary_round_aux.
  rewrite (shr_fexp_spec M e l Hd He).
  pose proof (shifted_large M l Hd) as Hbig.
  set (mrs := Nat.iter _ shr_1 (shr_record_of_loc (Z.pos M) l)) in *.
  pose proof (round_nearest_even_ge (shr_m mrs) (loc_of_shr_record mrs)) as Hr.
  destruct (round_nearest_even (shr_m mrs) (loc_of_shr_record mrs))
    as [| p2 | p2] eqn:E2;
    try (rewrite pow2_52 in Hbig; lia).
  assert (Hd2 : 53 <= Z.pos (digits2_pos p2)) by (apply large_digits; lia).
  rewrite shr_fexp_spec by lia.
  pose proof (shifted_large p2 loc_Exact Hd2) as Hbig2.
  set (mrs2 := Nat.iter _ shr_1 (shr_record_of_loc (Z.pos p2) loc_Exact)) in *.
  destruct (shr_m mrs2) as [| m3 | m3]; try (rewrite pow2_52 in Hbig2; lia).
  destruct (_ <=? emax - prec); [left; eauto | right; reflexivity].
Qed.

Lemma binary_round_large (s : bool) (p : positive) :
  (exists m e, binary_round prec emax s p 0 = S754_finite s m e) \/
  binary_round prec emax s p 0 = S754_infinity s.
Proof.
  unfold binary_round.
  pose proof (digits_bounds p) as [Hlo Hhi].
  set (d := Z.pos (digits2_pos p)) in *.
  assert (Hd1 : 1 <= d) by (unfold d; lia).
  rewrite Z.add_0_r, fexp_normal by lia. unfold shl_align.
  destruct (d - 53 - 0) as [| q | q] eqn:Eq.
  - apply bra_large; fold d; lia.
  - apply bra_large; fold d; lia.
  - assert (Hq : Z.pos q = 53 - d) by lia.
    assert (Hv : Z.pos (Pos.iter xO p q) = Z.pos p * 2 ^ (53 - d)).
    { rewrite iter_xO. now rewrite Hq. }
    assert (Hdig : Z.pos (digits2_pos (Pos.iter xO p q)) = 53).
    { apply digits_unique. rewrite Hv.
      assert (H52 : 2 ^ (53 - 1) = 2 ^ (d - 1) * 2 ^ (53 - d))
        by (rewrite <- Z.pow_add_r by lia; f_equal; lia).
      assert (H53 : 2 ^ 53 = 2 ^ d * 2 ^ (53 - d))
        by (rewrite <- Z.pow_add_r by lia; f_equal; lia).
      rewrite H52, H53.
      assert (0 < 2 ^ (53 - d)) by (apply Z.pow_pos_nonneg; lia).
      split; [apply Z.mul_le_mono_nonneg_r; lia
             | apply Z.mul_lt_mono_pos_r; lia]. }
    apply bra_large; rewrite Hdig; lia.
Qed.

(** [float(n)] is zero only for [n = 0]. *)
Lemma float_of_int_nonzero (n : Z) (f : float) :
  n <> 0 -> float_of_int n = Ok f -> is_zero f = false.
Proof.
  intros Hn. unfold float_of_int.
  destruct n as [| p | p]; [congruence | |]; cbn [binary_normalize].
  - destruct (binary_round_large false p) as [(m & e & ->) | ->];
      [| discriminate]. now intros [= <-].
  - destruct (binary_round_large true p) as [(m & e & ->) | ->];
      [| discriminate]. now intros [= <-].
Qed.

End SignFacts.

(** ** Divisions *)

Module DivisionFacts.
Import Py Cv Builtins Resit MonadFacts SignFacts Spec Notions.

Lemma outcome_bind {A B : Type} (m : M A) (k : A -> M B) :
  outcome (bind m k)
  = match outcome m with Ok a => outcome (k a) | Raise e => Raise e end.
Proof.
  destruct m as [t [a | e]]; cbn [bind outcome snd]; [| reflexivity].
  now destruct (k a).
Qed.

(** The divisor [max(1.0, x)] is never zero. *)
Lemma fmax_one_nonzero (x : float) : is_zero (fmax f_1_0 x) = false.
Proof.
  unfold fmax, fgt. destruct (SFltb f_1_0 x) eqn:E; [| reflexivity].
  destruct x as [s | s | | s m e]; try reflexivity. discriminate E.
Qed.

Lemma fdiv_nonzero (x y : float) :
  is_zero y = false -> fdiv x y = Ok (SFdiv prec emax x y).
Proof. intros H. unfold fdiv. now rewrite H. Qed.

Lemma validContours_no_zero_division (cv : Library) (cont : Contour) (m : Z) :
  validContours cv cont m <> Raise ZeroDivisionError.
Proof.
  unfold validContours.
  destruct (flt_int (contourArea cv cont) m); [discriminate |].
  destruct (boundingRect cv cont) as [[[x y] w] h].
  destruct (h =? 0) eqn:Eh; [discriminate |]. apply Z.eqb_neq in Eh.
  destruct (float_of_int w) as [fw | e] eqn:Ew; cbn [rbind].
  2: { apply float_of_int_raises in Ew. subst. discriminate. }
  destruct (float_of_int h) as [fh | e] eqn:Efh; cbn [rbind].
  2: { apply float_of_int_raises in Efh. subst. discriminate. }
  rewrite (fdiv_nonzero fw fh (float_of_int_nonzero h fh Eh Efh)).
  cbn [rbind]. destruct (fgt _ f_0_40); discriminate.
Qed.

Lemma roi_step_no_zero_division (cv : Library) (h w : Z)
  (st : option Contour * float) (c : Contour) :
  outcome (roi_step cv h w st c) <> Raise ZeroDivisionError.
Proof.
  unfold roi_step. destruct st as [best bs].
  rewrite outcome_bind. cbn [outcome lift snd].
  destruct (float_of_int h) as [fh | e] eqn:Eh.
  2: { apply float_of_int_raises in Eh. subst. discriminate. }
  rewrite outcome_bind. cbn [outcome lift snd].
  destruct (float_of_int w) as [fw | e] eqn:Ew.
  2: { apply float_of_int_raises in Ew. subst. discriminate. }
  destruct (flt _ _); [discriminate |].
  destruct (boundingRect cv c) as [[[x y] ww] hh].
  rewrite outcome_bind. cbn [outcome lift snd].
  destruct (float_of_int (Z.min ww hh)) as [fmin | e] eqn:Emin.
  2: { apply float_of_int_raises in Emin. subst. discriminate. }
  rewrite outcome_bind. cbn [outcome lift snd].
  destruct (float_of_int (Z.max ww hh)) as [fmx | e] eqn:Emx.
  2: { apply float_of_int_raises in Emx. subst. discriminate. }
  rewrite outcome_bind. cbn [outcome lift snd].
  rewrite (fdiv_nonzero fmx _ (fmax_one_nonzero fmin)).
  destruct (fgt _ bs); discriminate.
Qed.

Lemma resize_dsize_no_zero_division (h w : Z) (cfg : Config) :
  Z.max h w <> 0 -> resize_dsize h w cfg <> Raise ZeroDivisionError.
Proof.
  intros HL. unfold resize_dsize.
  destruct (float_of_int (Z.max h w)) as [fm | e] eqn:Em; cbn [rbind].
  2: { apply float_of_int_raises in Em. subst. discriminate. }
  destruct (float_of_int (max_dim cfg)) as [fd | e] eqn:Ed; cbn [rbind].
  2: { apply float_of_int_raises in Ed. subst. discriminate. }
  rewrite (fdiv_nonzero fd fm (float_of_int_nonzero _ fm HL Em)).
  cbn [rbind].
  destruct (float_of_int w) as [fw | e] eqn:Ew; cbn [rbind].
  2: { apply float_of_int_raises in Ew. subst. discriminate. }
  destruct (int_of_float (fmul fw _)) as [nw | e] eqn:Enw; cbn [rbind].
  2: { apply int_of_float_raises in Enw. destruct Enw; subst; discriminate. }
  destruct (float_of_int h) as [fh | e] eqn:Eh; cbn [rbind].
  2: { apply float_of_int_raises in Eh. subst. discriminate. }
  destruct (int_of_float (fmul fh _)) as [nh | e] eqn:Enh; cbn [rbind].
  2: { apply int_of_float_raises in Enh. destruct Enh; subst; discriminate. }
  discriminate.
Qed.

(** X12.  None of the three divisions of the detector can divide by zero
    on an image that has a pixel: the ratio test of [validContours] is
    guarded by [h == 0] and [float(h)] is zero only for [h = 0], whatever
    the size of [h]; the aspect ratio of the region-of-interest step
    divides by [max(1.0, ...)]; the scale of the preprocessor divides by
    the longer side of the image.  With a positive [max_dim] the last one
    holds for an empty image too. *)
Theorem no_division_by_zero (cv : Library) :
  (forall cont m, validContours cv cont m <> Raise ZeroDivisionError) /\
  (forall h w st c,
     outcome (roi_step cv h w st c) <> Raise ZeroDivisionError) /\
  (forall h w cfg, Z.max h w <> 0 ->
     resize_dsize h w cfg <> Raise ZeroDivisionError) /\
  (forall h w cfg, 0 <= h -> 0 <= w -> 0 <= max_dim cfg ->
     needs_resize h w cfg = true ->
     resize_dsize h w cfg <> Raise ZeroDivisionError).
Proof.
  split; [apply validContours_no_zero_division |].
  split; [apply roi_step_no_zero_division |].
  split; [apply resize_dsize_no_zero_division |].
  intros h w cfg Hh Hw Hm Hn. apply resize_dsize_no_zero_division.
  unfold needs_resize in Hn. apply andb_true_iff in Hn.
  destruct Hn as [_ Hn]. apply Z.gtb_lt in Hn. lia.
Qed.

(** The one division by zero: an image without pixels and a negative
    [max_dim]. *)
Example empty_image_negative_cap :
  let cfg := with_max_dim (-1) default_Config in
  shape (@nil (list Triple)) = (0, 0) /\
  needs_resize 0 0 cfg = true /\
  outcome (downscaled Synthetic.library [] cfg) = Raise ZeroDivisionError.
Proof. repeat split. Qed.

End DivisionFacts.

(** ** Edge cases of the downscaling *)

Module ScaleEdgeFacts.
Import Py Cv Builtins Resit MonadFacts SignFacts ScaleFacts Spec Notions.

Lemma shape_nonneg {A : Type} (a : list (list A)) :
  0 <= fst (shape a) /\ 0 <= snd (shape a).
Proof. unfold shape. cbn [fst snd]. lia. Qed.

(** Both sides of the requested size carry the sign of [max_dim]. *)
Lemma resize_dsize_signs (h w : Z) (cfg : Config) (nw nh : Z) :
  0 <= h -> 0 <= w -> resize_dsize h w cfg = Ok (nw, nh) ->
  (0 <= max_dim cfg -> 0 <= nw /\ 0 <= nh) /\
  (max_dim cfg < 0 -> nw <= 0 /\ nh <= 0).
Proof.
  intros Hh Hw. unfold resize_dsize.
  destruct (float_of_int (Z.max h w)) as [fm | e] eqn:Em; cbn [rbind];
    [| discriminate].
  destruct (float_of_int (max_dim cfg)) as [fd | e] eqn:Ed; cbn [rbind];
    [| discriminate].
  unfold fdiv. destruct (is_zero fm); cbn [rbind]; [discriminate |].
  destruct (float_of_int w) as [fw | e] eqn:Ew; cbn [rbind]; [| discriminate].
  destruct (int_of_float (fmul fw _)) as [a | e] eqn:Ea; cbn [rbind];
    [| discriminate].
  destruct (float_of_int h) as [fh | e] eqn:Eh; cbn [rbind]; [| discriminate].
  destruct (int_of_float (fmul fh _)) as [b | e] eqn:Eb; cbn [rbind];
    [| discriminate].
  intros [= <- <-].
  apply float_of_int_signed in Em, Ed, Ew, Eh.
  replace (Z.max h w <? 0) with false in Em by (symmetry; apply Z.ltb_ge; lia).
  replace (w <? 0) with false in Ew by (symmetry; apply Z.ltb_ge; lia).
  replace (h <? 0) with false in Eh by (symmetry; apply Z.ltb_ge; lia).
  pose proof (SFdiv_signed _ _ _ _ Ed Em) as Hs. rewrite xorb_false_r in Hs.
  pose proof (SFmul_signed _ _ _ _ Ew Hs) as Hsw. rewrite xorb_false_l in Hsw.
  pose proof (SFmul_signed _ _ _ _ Eh Hs) as Hsh. rewrite xorb_false_l in Hsh.
  apply int_of_float_signed in Ea, Eb. unfold fmul in Ea, Eb.
  split; intros Hm.
  - replace (max_dim cfg <? 0) with false in *
      by (symmetry; apply Z.ltb_ge; lia).
    split; [apply (proj1 Ea Hsw) | apply (proj1 Eb Hsh)].
  - replace (max_dim cfg <? 0) with true in *
      by (symmetry; apply Z.ltb_lt; lia).
    split; [apply (proj2 Ea Hsw) | apply (proj2 Eb Hsh)].
Qed.

(** Negating [max_dim] negates the requested size. *)
Lemma resize_dsize_opp (h w : Z) (cfg : Config) :
  max_dim cfg <> 0 ->
  resize_dsize h w (with_max_dim (- max_dim cfg) cfg)
  = opposite (resize_dsize h w cfg).
Proof.
  intros Hm. unfold resize_dsize. cbn [max_dim with_max_dim].
  destruct (float_of_int (Z.max h w)) as [fm | e]; cbn [rbind];
    [| reflexivity].
  rewrite (float_of_int_opp _ Hm).
  destruct (float_of_int (max_dim cfg)) as [fd | e]; cbn [rbind];
    [| reflexivity].
  unfold fdiv. destruct (is_zero fm); cbn [rbind]; [reflexivity |].
  rewrite SFdiv_opp_l.
  destruct (float_of_int w) as [fw | e]; cbn [rbind]; [| reflexivity].
  unfold fmul. rewrite SFmul_opp_r, int_of_float_opp.
  destruct (int_of_float (SFmul prec emax fw _)) as [a | e]; cbn [rbind];
    [| reflexivity].
  destruct (float_of_int h) as [fh | e]; cbn [rbind]; [| reflexivity].
  rewrite SFmul_opp_r, int_of_float_opp.
  destruct (int_of_float (SFmul prec emax fh _)) as [b | e]; cbn [rbind];
    reflexivity.
Qed.

(** The requested size depends on the configuration through [max_dim]
    alone. *)
Lemma resize_dsize_max_dim (h w : Z) (cfg cfg' : Config) :
  max_dim cfg = max_dim cfg' -> resize_dsize h w cfg = resize_dsize h w cfg'.
Proof. intros E. unfold resize_dsize. now rewrite E. Qed.

(** X13.  Downscaling truncates each side separately, so a thin image can
    lose its short side: with the longer side [L] above a positive
    [max_dim] (sides below [2 ^ 24]), no requested side is negative, a side
    [s] with [s * max_dim < L] is requested as 0, and a side with
    [2 * L <= s * max_dim] is requested as at least 1. *)
Theorem thin_image_loses_side (cv : Library) (img : Image) (cfg : Config) :
  let h := fst (shape img) in
  let w := snd (shape img) in
  let m := max_dim cfg in
  let L := Z.max h w in
  0 < m < L -> L < 2 ^ 24 -> 1 <= h -> 1 <= w ->
  exists nw nh,
    downscaled cv img cfg
    = invoke (Call_resize (nw, nh) INTER_AREA)
             (resize cv img (nw, nh) INTER_AREA) /\
    0 <= nw /\ 0 <= nh /\
    (w * m < L -> nw = 0) /\ (h * m < L -> nh = 0) /\
    (2 * L <= w * m -> 1 <= nw) /\ (2 * L <= h * m -> 1 <= nh).
Proof.
  cbv zeta. unfold downscaled, needs_resize. destruct (shape img) as [h w].
  cbn [fst snd]. set (m := max_dim cfg). set (L := Z.max h w).
  intros Hm HL Hh Hw.
  destruct (resize_dsize_exact h w cfg Hm HL Hh Hw)
    as (nw & nh & Hd & Hbw & Hbh & _). fold m L in Hbw, Hbh.
  destruct (resize_dsize_signs h w cfg nw nh ltac:(lia) ltac:(lia) Hd)
    as [Hpos _]. fold m in Hpos. destruct (Hpos ltac:(lia)) as [Hnw Hnh].
  exists nw, nh. split.
  { replace (m =? 0) with false by (symmetry; apply Z.eqb_neq; lia).
    replace (L >? m) with true by (symmetry; apply Z.gtb_lt; lia).
    cbn [negb andb]. rewrite Hd. reflexivity. }
  split; [exact Hnw |]. split; [exact Hnh |].
  assert (HLpos : 0 < L) by lia.
  repeat split.
  - intros Hs. rewrite (Z.div_small (w * m) L) in Hbw by nia. lia.
  - intros Hs. rewrite (Z.div_small (h * m) L) in Hbh by nia. lia.
  - intros Hs. assert (2 <= w * m / L)
      by (apply Z.div_le_lower_bound; lia). lia.
  - intros Hs. assert (2 <= h * m / L)
      by (apply Z.div_le_lower_bound; lia). lia.
Qed.

Lemma thin_image_loses_side_witness :
  let cv := Synthetic.library in
  let img := blank 2000 1 in
  exists nw nh,
    downscaled cv img default_Config
    = invoke (Call_resize (nw, nh) INTER_AREA)
             (resize cv img (nw, nh) INTER_AREA) /\
    0 <= nw /\ 0 <= nh /\
    (1 * 900 < 2000 -> nw = 0) /\ (2000 * 900 < 2000 -> nh = 0) /\
    (2 * 2000 <= 1 * 900 -> 1 <= nw) /\ (2 * 2000 <= 2000 * 900 -> 1 <= nh).
Proof.
  intros cv img.
  apply (thin_image_loses_side cv img default_Config);
    vm_compute; try split; try reflexivity; discriminate.
Defined.

(** A strip 2000 pixels high and 1 wide is asked to become 0 x 900. *)
Example strip_requested_empty :
  hd_error (trace (_preprocess Synthetic.library (blank 2000 1) default_Config))
  = Some (Call_resize (0, 900) INTER_AREA).
Proof. vm_compute. reflexivity. Qed.

(** X14.  A negative [max_dim] is not rejected: it counts as exceeded by
    every image, and the size requested from the resize has no positive
    side.  For [- L < max_dim] (sides from 1 to below [2 ^ 24], [L] the
    longer one) a size is requested, and its smaller component is [max_dim]
    or [max_dim + 1]. *)
Theorem negative_max_dim (cv : Library) (img : Image) (cfg : Config) :
  let h := fst (shape img) in
  let w := snd (shape img) in
  let m := max_dim cfg in
  let L := Z.max h w in
  m < 0 ->
  needs_resize h w cfg = true /\
  (forall nw nh, resize_dsize h w cfg = Ok (nw, nh) -> nw <= 0 /\ nh <= 0) /\
  (- L < m -> L < 2 ^ 24 -> 1 <= h -> 1 <= w ->
   exists nw nh,
     downscaled cv img cfg
     = invoke (Call_resize (nw, nh) INTER_AREA)
              (resize cv img (nw, nh) INTER_AREA) /\
     m <= Z.min nw nh <= m + 1).
Proof.
  cbv zeta. pose proof (shape_nonneg img) as [Hh0 Hw0].
  unfold downscaled. destruct (shape img) as [h w]. cbn [fst snd] in *.
  set (m := max_dim cfg). set (L := Z.max h w). intros Hm.
  assert (Hn : needs_resize h w cfg = true).
  { unfold needs_resize. fold m L.
    replace (m =? 0) with false by (symmetry; apply Z.eqb_neq; lia).
    replace (L >? m) with true by (symmetry; apply Z.gtb_lt; lia).
    reflexivity. }
  split; [exact Hn |]. split.
  - intros nw nh Hd.
    exact (proj2 (resize_dsize_signs h w cfg nw nh Hh0 Hw0 Hd) Hm).
  - intros HL H24 Hh Hw. rewrite Hn.
    set (cfg' := with_max_dim (- m) cfg).
    assert (Hm' : 0 < max_dim cfg' < Z.max h w)
      by (unfold cfg'; cbn [max_dim with_max_dim]; fold L; lia).
    destruct (resize_dsize_exact h w cfg' Hm' H24 Hh Hw)
      as (a & b & Hd & _ & _ & Hmax).
    assert (Hd' : resize_dsize h w cfg = Ok (- a, - b)).
    { rewrite (resize_dsize_max_dim h w cfg (with_max_dim (- max_dim cfg') cfg')).
      - rewrite resize_dsize_opp by lia. now rewrite Hd.
      - unfold cfg'. cbn [max_dim with_max_dim]. fold m. lia. }
    exists (- a), (- b). rewrite Hd'. split; [reflexivity |].
    unfold cfg' in Hmax. cbn [max_dim with_max_dim] in Hmax. lia.
Qed.

Lemma negative_max_dim_witness :
  let cv := Synthetic.library in
  let img := blank 2 1129 in
  let cfg := with_max_dim (-900) default_Config in
  needs_resize 2 1129 cfg = true /\
  (forall nw nh, resize_dsize 2 1129 cfg = Ok (nw, nh) -> nw <= 0 /\ nh <= 0) /\
  (- 1129 < -900 -> 1129 < 2 ^ 24 -> 1 <= 2 -> 1 <= 1129 ->
   exists nw nh,
     downscaled cv img cfg
     = invoke (Call_resize (nw, nh) INTER_AREA)
              (resize cv img (nw, nh) INTER_AREA) /\
     -900 <= Z.min nw nh <= -900 + 1).
Proof.
  intros cv img cfg. apply (negative_max_dim cv img cfg). reflexivity.
Defined.

(** With a cap of -900 the 2 x 1129 image is asked to become -899 x -1. *)
Example negative_cap_request :
  hd_error (trace (_preprocess Synthetic.library (blank 2 1129)
                     (with_max_dim (-900) default_Config)))
  = Some (Call_resize (-899, -1) INTER_AREA).
Proof. vm_compute. reflexivity. Qed.

End ScaleEdgeFacts.

(** ** Strings *)

Module StringFacts.
Import Upload Notions.

Local Open Scope string_scope.

Lemma append_assoc (a b c : string) : (a ++ b) ++ c = a ++ b ++ c.
Proof. induction a as [| x a IH]; simpl; [reflexivity | now rewrite IH]. Qed.

Lemma length_append (a b : string) :
  String.length (a ++ b) = (String.length a + String.length b)%nat.
Proof. induction a as [| x a IH]; simpl; [reflexivity | now rewrite IH]. Qed.

Lemma substring_whole (s : string) : substring 0 (String.length s) s = s.
Proof. induction s as [| x s IH]; simpl; [reflexivity | now rewrite IH]. Qed.

Lemma substring_prefix (a b : string) :
  substring 0 (String.length a) (a ++ b) = a.
Proof.
  induction a as [| x a IH]; simpl; [now destruct b | now rewrite IH].
Qed.

Lemma substring_suffix (a b : string) :
  substring (String.length a) (String.length b) (a ++ b) = b.
Proof. induction a as [| x a IH]; simpl; [apply substring_whole | exact IH]. Qed.

Lemma get_append (a b : string) (c : ascii) :
  String.get (String.length a) (a ++ String c b) = Some c.
Proof. induction a as [| x a IH]; simpl; [reflexivity | exact IH]. Qed.

Lemma has_append (c : ascii) (a b : string) :
  has c (a ++ b) = has c a || has c b.
Proof.
  induction a as [| x a IH]; simpl; [reflexivity |].
  now rewrite IH, orb_assoc.
Qed.

(** *** [str.rfind] *)

Lemma rfind_from_none (c : ascii) (s : string) (i found : Z) :
  has c s = false -> rfind_from c s i found = found.
Proof.
  revert i found. induction s as [| a s IH]; intros i found H;
    [reflexivity |].
  simpl in H. apply orb_false_iff in H. destruct H as [Ha Hs].
  simpl. rewrite Ha. now apply IH.
Qed.

Lemma rfind_from_append (c : ascii) (a b : string) (i found : Z) :
  rfind_from c (a ++ b) i found
  = rfind_from c b (i + Z.of_nat (String.length a)) (rfind_from c a i found).
Proof.
  revert i found. induction a as [| x a IH]; intros i found; simpl.
  - now rewrite Z.add_0_r.
  - rewrite IH. f_equal. lia.
Qed.

(** The last occurrence, when there is one. *)
Lemma rfind_from_last (c : ascii) (s : string) :
  has c s = true ->
  exists pre post,
    s = pre ++ String c post /\ has c post = false /\
    forall i found,
      rfind_from c s i found = i + Z.of_nat (String.length pre).
Proof.
  induction s as [| a s IH]; [discriminate |]. intros H.
  destruct (has c s) eqn:Hs.
  - destruct (IH eq_refl) as (pre & post & -> & Hpost & Hr).
    exists (String a pre), post. split; [reflexivity |].
    split; [exact Hpost |]. intros i found.
    cbn [rfind_from]. rewrite Hr. cbn [String.length]. lia.
  - simpl in H. rewrite Hs, orb_false_r in H.
    apply Ascii.eqb_eq in H. subst a.
    exists "", s. split; [reflexivity |]. split; [exact Hs |].
    intros i found. cbn [rfind_from]. rewrite Ascii.eqb_refl.
    rewrite rfind_from_none by exact Hs. simpl. lia.
Qed.

(** *** The loop over leading dots *)

Lemma skip_dots_spec (dir base rest : string) :
  skip_dots (dir ++ base ++ rest) (Z.of_nat (String.length dir))
    (String.length base)
  = negb (only_dots base).
Proof.
  revert dir. induction base as [| a base IH]; intros dir; [reflexivity |].
  cbn [String.length skip_dots only_dots]. rewrite Nat2Z.id.
  change ((String a base) ++ rest) with (String a (base ++ rest)).
  rewrite get_append.
  destruct (Ascii.eqb a ".") eqn:Ea; [| reflexivity].
  apply Ascii.eqb_eq in Ea. subst a. cbn [andb].
  specialize (IH (dir ++ ".")).
  rewrite append_assoc, length_append in IH. cbn [String.length] in IH.
  change ("." ++ base ++ rest) with (String "." (base ++ rest)) in IH.
  replace (Z.of_nat (String.length dir + 1)%nat)
    with (Z.of_nat (String.length dir) + 1) in IH by lia.
  exact IH.
Qed.

(** *** [os.path.splitext] *)

Lemma rfind_sep_dir (dir : string) :
  dir = "" \/ (exists d, dir = d ++ "/") ->
  rfind "/" dir = Z.of_nat (String.length dir) - 1.
Proof.
  intros [-> | [d ->]]; [reflexivity |].
  unfold rfind. rewrite rfind_from_append, length_append. simpl. lia.
Qed.

Lemma only_dots_length (base : string) :
  only_dots base = false -> (1 <= String.length base)%nat.
Proof. destruct base; [discriminate | simpl; lia]. Qed.

Lemma splitext_split (dir base e : string) :
  splits dir base e ->
  splitext (dir ++ base ++ String "." e) = (dir ++ base, String "." e).
Proof.
  intros (Hdir & Hb & Hdots & He & Hs).
  unfold splitext.
  assert (Hsep : rfind "/" (dir ++ base ++ String "." e)
                 = Z.of_nat (String.length dir) - 1).
  { unfold rfind. rewrite rfind_from_append.
    rewrite rfind_from_none.
    - now apply rfind_sep_dir.
    - rewrite has_append, Hb. simpl. exact Hs. }
  assert (Hdot : rfind "." (dir ++ base ++ String "." e)
                 = Z.of_nat (String.length (dir ++ base))).
  { unfold rfind. rewrite <- append_assoc, rfind_from_append.
    cbn [rfind_from]. rewrite Ascii.eqb_refl.
    rewrite rfind_from_none by exact He. lia. }
  rewrite Hsep, Hdot.
  pose proof (only_dots_length base Hdots) as Hlen.
  rewrite length_append.
  replace (Z.of_nat (String.length dir + String.length base)
           >? Z.of_nat (String.length dir) - 1) with true
    by (symmetry; apply Z.gtb_lt; lia).
  replace (Z.of_nat (String.length dir) - 1 + 1)
    with (Z.of_nat (String.length dir)) by lia.
  replace (Z.to_nat (Z.of_nat (String.length dir + String.length base)
                     - Z.of_nat (String.length dir)))
    with (String.length base) by lia.
  rewrite skip_dots_spec, Hdots. cbn [negb andb].
  rewrite Nat2Z.id. rewrite <- append_assoc, <- length_append.
  rewrite substring_prefix. f_equal.
  rewrite (length_append (dir ++ base)).
  replace (String.length (dir ++ base) + String.length (String "." e)
           - String.length (dir ++ base))%nat
    with (String.length (String "." e)) by lia.
  apply substring_suffix.
Qed.

Lemma rfind_none (c : ascii) (s : string) :
  has c s = false -> rfind c s = -1.
Proof. intros H. unfold rfind. now apply rfind_from_none. Qed.

Lemma rfind_lower_bound (c : ascii) (s : string) : -1 <= rfind c s.
Proof.
  destruct (has c s) eqn:H.
  - unfold rfind.
    destruct (rfind_from_last c s H) as (a & b & _ & _ & ->). lia.
  - rewrite rfind_none by exact H. lia.
Qed.

Lemma splitext_none (p : string) (sep dot : Z) (steps : nat) :
  rfind "/" p = sep -> rfind "." p = dot ->
  Z.to_nat (dot - (sep + 1)) = steps ->
  (dot >? sep) && skip_dots p (sep + 1) steps = false ->
  splitext p = (p, "").
Proof.
  intros Hs Hd Hn Hc. unfold splitext. rewrite Hs, Hd, Hn, Hc. reflexivity.
Qed.

Lemma splitext_cases (p : string) :
  splitext p = (p, "") \/
  exists dir base e, p = dir ++ base ++ String "." e /\ splits dir base e.
Proof.
  destruct (has "." p) eqn:Hdot.
  2: { left.
       apply (splitext_none p (rfind "/" p) (-1) _ eq_refl
                (rfind_none "." p Hdot) eq_refl).
       pose proof (rfind_lower_bound "/" p).
       replace (-1 >? rfind "/" p) with false; [reflexivity |].
       symmetry. rewrite Z.gtb_ltb. apply Z.ltb_ge. lia. }
  destruct (rfind_from_last "." p Hdot) as (pre & e & -> & He & Hr).
  assert (Hd : rfind "." (pre ++ String "." e)
               = Z.of_nat (String.length pre))
    by (unfold rfind; rewrite Hr; lia).
  destruct (has "/" e) eqn:Hse.
  { left. destruct (rfind_from_last "/" e Hse) as (a & b & _ & _ & Hra).
    assert (Hs : rfind "/" (pre ++ String "." e)
                 = Z.of_nat (String.length pre) + 1
                   + Z.of_nat (String.length a)).
    { unfold rfind. rewrite rfind_from_append. cbn [rfind_from].
      replace (Ascii.eqb "." "/") with false by reflexivity.
      rewrite Hra. lia. }
    apply (splitext_none _ _ _ _ Hs Hd eq_refl).
    replace (Z.of_nat (String.length pre)
             >? Z.of_nat (String.length pre) + 1
                + Z.of_nat (String.length a)) with false; [reflexivity |].
    symmetry. rewrite Z.gtb_ltb. apply Z.ltb_ge. lia. }
  assert (Hs : rfind "/" (pre ++ String "." e) = rfind "/" pre).
  { unfold rfind. rewrite rfind_from_append. cbn [rfind_from].
    replace (Ascii.eqb "." "/") with false by reflexivity.
    now rewrite rfind_from_none by exact Hse. }
  destruct (has "/" pre) eqn:Hsp.
  - destruct (rfind_from_last "/" pre Hsp) as (d & base & -> & Hb & Hrd).
    destruct (only_dots base) eqn:Hdots.
    + left.
      assert (Hs' : rfind "/" ((d ++ String "/" base) ++ String "." e)
                    = Z.of_nat (String.length (d ++ "/")) - 1).
      { rewrite Hs. unfold rfind. rewrite Hrd, length_append. simpl. lia. }
      apply (splitext_none _ _ _ (String.length base) Hs' Hd).
      { rewrite !length_append. simpl. lia. }
      replace (Z.of_nat (String.length (d ++ "/")) - 1 + 1)
        with (Z.of_nat (String.length (d ++ "/"))) by lia.
      replace ((d ++ String "/" base) ++ String "." e)
        with ((d ++ "/") ++ base ++ String "." e)
        by (now rewrite !append_assoc).
      rewrite skip_dots_spec, Hdots. cbn [negb]. now rewrite andb_false_r.
    + right. exists (d ++ "/"), base, e. split.
      * now rewrite !append_assoc.
      * repeat split; eauto.
  - destruct (only_dots pre) eqn:Hdots.
    + left.
      assert (Hs' : rfind "/" (pre ++ String "." e) = -1)
        by (rewrite Hs; now apply rfind_none).
      apply (splitext_none _ _ _ (String.length pre) Hs' Hd).
      { lia. }
      change (-1 + 1) with (Z.of_nat (String.length "")).
      change (pre ++ String "." e) with ("" ++ pre ++ String "." e).
      rewrite skip_dots_spec, Hdots. cbn [negb]. now rewrite andb_false_r.
    + right. exists "", pre, e. split; [reflexivity |].
      repeat split; auto.
Qed.

(** [root + ext == p], as the library documents. *)
Lemma splitext_join (p : string) :
  fst (splitext p) ++ snd (splitext p) = p.
Proof.
  destruct (splitext_cases p) as [-> | (dir & base & e & -> & H)].
  - simpl. clear. induction p as [| a p IH]; simpl; [reflexivity |].
    now rewrite IH.
  - rewrite (splitext_split dir base e H). simpl. apply append_assoc.
Qed.

(** *** [str.lower] *)

Lemma lower_char_fixed (c a : ascii) :
  (c = "." \/ c = "/")%char -> lower_char a = c -> a = c.
Proof.
  intros [-> | ->];
    destruct a as [[] [] [] [] [] [] [] []]; vm_compute;
    try reflexivity; discriminate.
Qed.

Lemma has_lower (c : ascii) (s : string) :
  (c = "." \/ c = "/")%char -> has c (lower s) = has c s.
Proof.
  intros Hc. induction s as [| a s IH]; [reflexivity |].
  cbn [lower has]. rewrite IH. f_equal.
  destruct (Ascii.eqb a c) eqn:Ea.
  - apply Ascii.eqb_eq in Ea. subst a.
    destruct Hc as [-> | ->]; reflexivity.
  - apply Ascii.eqb_neq in Ea. apply Ascii.eqb_neq. intros E.
    apply Ea. now apply lower_char_fixed.
Qed.

(** *** The check of the extension *)

Lemma dotted_extension (e : string) :
  In (String "." e) UPLOAD_EXTENSIONS -> In e ["jpg"; "jpeg"; "png"; "webp"].
Proof.
  simpl. intros [H | [H | [H | [H | []]]]]; injection H as <-; auto.
Qed.

(** Lowering a character gives a letter that is not a capital exactly
    when the character is that letter, in either case. *)
Lemma lower_char_letter (a b : ascii) :
  (N_of_ascii b < 65 \/ 90 < N_of_ascii b)%N ->
  lower_char a = b <-> same_letter a b.
Proof.
  intros Hb. unfold lower_char, same_letter.
  pose proof (N_ascii_bounded a) as Ha.
  destruct ((65 <=? N_of_ascii a) && (N_of_ascii a <=? 90))%N eqn:E.
  - apply andb_true_iff in E. destruct E as [E1 E2].
    apply N.leb_le in E1, E2. split.
    + intros <-. right. rewrite N_ascii_embedding by lia. lia.
    + intros [-> | [Hr Hs]]; [lia |].
      rewrite Hs. apply ascii_N_embedding.
  - apply andb_false_iff in E. split.
    + intros ->. now left.
    + intros [-> | [Hr Hs]]; [reflexivity |].
      destruct E as [E | E]; apply N.leb_gt in E; lia.
Qed.

Lemma lower_spells (e word : string) :
  no_capital word -> lower e = word <-> spells e word.
Proof.
  revert e. induction word as [| b word IH]; intros [| a e] Hw;
    cbn [lower spells]; try (split; [discriminate | contradiction]);
    [tauto |].
  destruct Hw as [Hb Hw]. specialize (IH e Hw).
  pose proof (lower_char_letter a b Hb) as Hc. split.
  - intros [= Ha He]. split; [now apply Hc | now apply IH].
  - intros [Ha He]. f_equal; [now apply Hc | now apply IH].
Qed.

Lemma extensions_no_capital (word : string) :
  In word ["jpg"; "jpeg"; "png"; "webp"] -> no_capital word.
Proof.
  simpl. intros [<- | [<- | [<- | [<- | []]]]]; cbn [no_capital];
    repeat split; right; reflexivity.
Qed.

(** The lowered text is one of the four extensions exactly when the text
    spells one of them. *)
Lemma spelled_extension (e : string) :
  In (lower e) ["jpg"; "jpeg"; "png"; "webp"] <->
  exists word, In word ["jpg"; "jpeg"; "png"; "webp"] /\ spells e word.
Proof.
  split.
  - intros H. exists (lower e). split; [exact H |].
    apply lower_spells; [now apply extensions_no_capital | reflexivity].
  - intros (word & Hin & Hs).
    apply lower_spells in Hs; [| now apply extensions_no_capital].
    now rewrite Hs.
Qed.

Lemma extension_check (name : string) :
  existsb (String.eqb (lower (snd (splitext name)))) UPLOAD_EXTENSIONS = true
  <-> accepted_name name.
Proof.
  split.
  - intros H. apply existsb_exists in H. destruct H as (x & Hx & E).
    apply String.eqb_eq in E.
    destruct (splitext_cases name) as [Hs | (dir & base & e & -> & Hsp)].
    + rewrite Hs in E. cbn [snd lower] in E. subst x.
      simpl in Hx. repeat (destruct Hx as [Hx | Hx]; try discriminate Hx).
      contradiction.
    + rewrite (splitext_split dir base e Hsp) in E. cbn [snd lower] in E.
      destruct Hsp as (Hdir & Hb & Hdots & _).
      subst x. apply dotted_extension, spelled_extension in Hx.
      destruct Hx as (word & Hin & Hw).
      exists dir, base, e, word. repeat split; auto.
  - intros (dir & base & e & word & -> & Hdir & Hb & Hdots & Hin & Hw).
    assert (He : In (lower e) ["jpg"; "jpeg"; "png"; "webp"])
      by (apply spelled_extension; eauto).
    clear word Hin Hw.
    assert (Hsp : splits dir base e).
    { repeat split; auto.
      - rewrite <- (has_lower "." e) by auto.
        simpl in He. repeat (destruct He as [<- | He]; [reflexivity |]).
        contradiction.
      - rewrite <- (has_lower "/" e) by auto.
        simpl in He. repeat (destruct He as [<- | He]; [reflexivity |]).
        contradiction. }
    rewrite (splitext_split dir base e Hsp). cbn [snd lower].
    simpl in He. repeat (destruct He as [<- | He]; [reflexivity |]).
    contradiction.
Qed.

End StringFacts.

(** ** The upload check of [/analyze] *)

Module UploadFacts.
Import Py Cv Builtins Resit Upload StringFacts DecodeFacts AssemblerFacts.
Import DetectedFacts Spec Notions.

Lemma name_sent_default (file : FileStorage) :
  filename_or_default file = name_sent file.
Proof.
  unfold filename_or_default, name_sent.
  now destruct (filename file) as [[| c s] |].
Qed.

Lemma within_limit (request : Request) :
  content_length request <= 10485760 ->
  (content_length request >? MAX_CONTENT_LENGTH) = false.
Proof.
  intros H. rewrite Z.gtb_ltb. apply Z.ltb_ge. exact H.
Qed.


(** The answer to a request within the limit that carries a file with an
    accepted name. *)
Lemma accepted_upload (web : Web) (cv : Library) (request : Request)
  (file : FileStorage) :
  content_length request <= 10485760 ->
  files_get (files request) "image" = Some file ->
  accepted_name (secure_filename web (name_sent file)) ->
  analyze web cv request
  = match abind (open web (stream file)) (_pil_to_bgr web) with
    | Broke f => ([], ServerError f)
    | Got bgr =>
        match App.analyze cv bgr with
        | (t, App.Failed e) => (t, ServerError (PipelineFailure e))
        | (t, App.Analysed bands value_ohms) => (t, Answer bands value_ohms)
        end
    end.
Proof.
  intros Hsize Hfile Hacc. unfold analyze.
  rewrite (within_limit request Hsize), Hfile, name_sent_default.
  apply extension_check in Hacc. now rewrite Hacc.
Qed.


(** Names that pass and names that do not. *)
Example upload_names :
  map (fun name => status (snd (analyze plain_web Synthetic.library
                                  (upload name ""))))
    ["photo.PNG"; "a.tar.webp"; "dir.d/x.Jpeg"; ".png"; "...jpg"; "x.png/y";
     "x.gif"; "png"; ""]
  = [500; 500; 500; 400; 400; 400; 400; 400; 500].
Proof. vm_compute. reflexivity. Qed.

(** The limit on the body comes first. *)
Example upload_sizes :
  map (fun length => status (snd (analyze plain_web Synthetic.library
                                    (no_upload length))))
    [0; 10485760; 10485761]
  = [400; 400; 413].
Proof. vm_compute. reflexivity. Qed.

(** X16.  A request within the limit whose file has an accepted name is
    answered from what PIL and the detector do: if the file cannot be
    opened, or [_pil_to_bgr] fails on the opened image (in the conversion
    to RGB, in the decoding of the pixels or in the change of colour
    order), the answer is 500 with that failure and the detector is not
    run; any exception of [findBands] gives 500; and when [findBands]
    returns, the answer is 200 with one record per band, in the order of
    the bands, each with the position, the colour name and the digit of
    its band, and, for 3, 4 or 5 bands, the integer their digits write.
    An image of mode RGB or RGBA is not converted, and the fourth channel
    of its pixels is dropped. *)
Theorem upload_outcomes (web : Web) (cv : Library) (request : Request)
  (file : FileStorage) :
  content_length request <= 10485760 ->
  files_get (files request) "image" = Some file ->
  accepted_name (secure_filename web (name_sent file)) ->
  match open web (stream file) with
  | Broke f => analyze web cv request = ([], ServerError f)
  | Got image =>
      (mode web image = "RGB" \/ mode web image = "RGBA" ->
       _pil_to_bgr web image
       = abind (array web image) (fun arr =>
           cvtColor_RGB2BGR web
             (match arr with
              | Channels3 _ => arr
              | Channels4 a => Channels3 (map (map (fun q : Quad => fst q)) a)
              end))) /\
      match _pil_to_bgr web image with
      | Broke f => analyze web cv request = ([], ServerError f)
      | Got bgr =>
          match findBands cv bgr default_Config with
          | (t, Raise e) =>
              analyze web cv request = (t, ServerError (PipelineFailure e))
          | (t, Ok bands) =>
              exists records,
                analyze web cv request
                = (t, Answer records
                        (if len_in_3_4_5 bands
                         then Some (Int (spec_ohms bands)) else None)) /\
                lists_bands records bands /\
                status (snd (analyze web cv request)) = 200
          end
      end
  end.
Proof.
  intros Hsize Hfile Hacc.
  rewrite (accepted_upload web cv request file Hsize Hfile Hacc).
  destruct (open web (stream file)) as [image | f]; cbn [abind];
    [| reflexivity].
  split.
  { intros Hmode. unfold _pil_to_bgr.
    replace (existsb (String.eqb (mode web image)) ["RGB"; "RGBA"]) with true
      by (destruct Hmode as [-> | ->]; reflexivity).
    cbn [negb abind].
    destruct (array web image) as [[a | a] | f]; reflexivity. }
  destruct (_pil_to_bgr web image) as [bgr | f]; [| reflexivity].
  unfold App.analyze, App.respond.
  destruct (findBands cv bgr default_Config) as [t [bands | e]] eqn:Hf;
    [| reflexivity].
  exists (map App.band_json bands).
  split; [| split; [apply band_json_lists | reflexivity]].
  rewrite value_ohms_resistance.
  destruct (len_in_3_4_5 bands) eqn:Hlen; [| reflexivity].
  now rewrite (detected_resistance cv bgr default_Config t bands Hf Hlen).
Qed.

Lemma upload_outcomes_witness :
  let rgb := Channels3 (swapped (Channels3 Synthetic.img_220k)) in
  let web := web_with rgb in
  let request := upload "Resistor.JPG" "" in
  exists t bands records,
    map (fun b => (bx b, bname b, bdigit b)) bands
      = [(0, "RED", 2); (1, "RED", 2); (2, "BLACK", 0); (3, "ORANGE", 3)] /\
    analyze web Synthetic.library request
    = (t, Answer records (Some (Int 220000))) /\
    lists_bands records bands /\
    status (snd (analyze web Synthetic.library request)) = 200.
Proof.
  intros rgb web request.
  assert (Hacc : accepted_name "Resistor.JPG").
  { exists "", "Resistor", "JPG", "jpg".
    repeat split; try reflexivity; auto; simpl; auto;
      right; vm_compute; repeat split; discriminate. }
  pose proof (upload_outcomes web Synthetic.library request
                {| filename := Some "Resistor.JPG"; stream := "" |}
                ltac:(vm_compute; discriminate) eq_refl Hacc) as H.
  cbn [open web web_with stream] in H. destruct H as [_ H].
  change (_pil_to_bgr web rgb) with (@Got Image Synthetic.img_220k) in H.
  cbv beta iota in H.
  destruct (findBands Synthetic.library Synthetic.img_220k default_Config)
    as [t r] eqn:Hf.
  assert (Hr : exists bands, r = Ok bands /\
            map (fun b => (bx b, bname b, bdigit b)) bands
              = [(0, "RED", 2); (1, "RED", 2); (2, "BLACK", 0);
                 (3, "ORANGE", 3)] /\
            (if len_in_3_4_5 bands then Some (Int (spec_ohms bands)) else None)
            = Some (Int 220000)).
  { vm_compute in Hf. injection Hf as _ <-. eexists.
    split; [reflexivity |]. split; reflexivity. }
  destruct Hr as (bands & -> & Hb & Hv).
  destruct H as (records & H1 & H2 & H3).
  exists t, bands, records. rewrite <- Hv. auto.
Defined.

(** A file that opens and is cut short: decoding its pixels fails, and
    the answer is 500. *)
Example truncated_upload :
  analyze (web_truncated (Channels3 [])) Synthetic.library
    (upload "r.png" "")
  = ([], ServerError (PilFailure PilOSError)).
Proof. reflexivity. Qed.

End UploadFacts.
